(** * Kingdom Simulator: the game-state core

    A shallow embedding of the simulation core of [src/main.tsx] (and of the
    fight machine of the later variant kept in [src/unnamed/part_000], the one
    whose [FightState] carries an [over] flag), followed by the properties of
    the day-advance pipeline, the random-event resolver, the merchant and the
    combat resolver.

    Conventions of the embedding.

    - JavaScript numbers that the game only ever produces by integer
      arithmetic are integers of [Z]; the one place where the source goes
      through a fraction, [discountedPrice], is computed in binary64.  The
      quantities bought in the shop are whole numbers: the quantity box is a
      number input of step 1, but its handler would let a typed fraction
      through, and the money and the counters would no longer be integers.
      Such purchases are outside the embedding; [Fraction] says in binary64
      what the three expressions concerned make of one.
    - [Math.random()] is an oracle: a sequence of raw integers.  [rand a b]
      maps a raw draw [u] to [a + u mod (b - a + 1)], so every value of
      [[a, b]] is the image of some draw and nothing else is.
    - React state: a handler closes over the snapshot [s] of the last render;
      [set f] only enqueues the updater [f]; after the handler has returned
      the queue is run in order, each updater receiving the state left by the
      previous one.  A [set] (or [appendLog]) issued from inside an updater is
      enqueued behind everything already queued.  That is [dispatch].
    - When the component has no update pending, React computes the first
      update of a handler at once, inside [set]: the updater runs on the
      rendered state before the rest of the handler, the state it returns is
      kept with the update, and the updates that the updater has issued
      itself, queued before it, are overwritten by that state when the queue
      is run.  The ledger is the same function of the draws, but the log
      lines of that first updater are lost.  That is [dispatch_eager]; which
      of the two happens depends on what React has pending, so that a
      property of the game is stated for both.
    - [fightPush] writes to a DOM node that is not part of the state and is
      left out. *)

From Stdlib Require Import ZArith List String Ascii Bool Lia.
From Stdlib Require Import Floats Uint63.
From Stdlib Require Import DecimalString.
From Stdlib Require Decimal DecimalPos DecimalZ.
Import ListNotations.
Local Open Scope string_scope.
Local Open Scope list_scope.
Local Open Scope Z_scope.

(** ** Utilities *)

Definition clamp (v lo hi : Z) : Z := Z.max lo (Z.min hi v).

(** Template literals print integers in decimal. *)
Definition show (z : Z) : string := NilZero.string_of_int (Z.to_int z).

Definition cat (parts : list string) : string := String.concat "" parts.

(** [l.slice(-n)]: the last [n] elements. *)
Definition slice_last {A} (n : nat) (l : list A) : list A :=
  skipn (List.length l - n) l.

(** ** Binary64 helpers for [discountedPrice] *)

(** An integer of the state as the double it is stored in (exact below 2^53). *)
Definition float_of_Z (z : Z) : float :=
  if z <? 0 then PrimFloat.opp (PrimFloat.of_uint63 (Uint63.of_Z (- z)))
  else PrimFloat.of_uint63 (Uint63.of_Z z).

(** [Math.floor] of a finite double; an infinite or NaN argument (never
    produced here) is sent to 0. *)
Definition Math_floor (x : float) : Z :=
  match Prim2SF x with
  | S754_finite sgn m e =>
      if 0 <=? e then (if sgn then - (Z.shiftl (Z.pos m) e) else Z.shiftl (Z.pos m) e)
      else if sgn then - (Z.shiftr (Z.pos m + Z.shiftl 1 (- e) - 1) (- e))
      else Z.shiftr (Z.pos m) (- e)
  | _ => 0
  end.

(** ** The random oracle and the update queue *)

Definition Rng : Type := list Z.

Record Out (Q A : Type) : Type := mkOut {
  val : A;
  queued : list Q;
  rest : Rng
}.
Arguments mkOut {Q A}.
Arguments val {Q A}.
Arguments queued {Q A}.
Arguments rest {Q A}.

(** A computation that consumes draws and enqueues updates of type [Q]. *)
Definition W (Q A : Type) : Type := Rng -> Out Q A.

Definition ret {Q A} (a : A) : W Q A := fun r => mkOut a [] r.

Definition bind {Q A B} (c : W Q A) (k : A -> W Q B) : W Q B :=
  fun r =>
    let o1 := c r in
    let o2 := k (val o1) (rest o1) in
    mkOut (val o2) (queued o1 ++ queued o2) (rest o2).

Notation "x <- c ;; k" := (bind c (fun x => k))
  (at level 61, c at next level, right associativity).
Notation "c ;;; k" := (bind c (fun _ => k))
  (at level 61, right associativity).

(** [Math.random()]: the next raw draw (an exhausted oracle keeps giving 0). *)
Definition Math_random {Q} : W Q Z :=
  fun r => mkOut (hd 0 r) [] (tl r).

(** [Math.floor(Math.random() * (b - a + 1)) + a]. *)
Definition rand {Q} (a b : Z) : W Q Z :=
  u <- Math_random ;; ret (a + u mod (b - a + 1)).

(** [Math.floor(Math.random() * n)], an index into a list of [n] elements. *)
Definition random_index {Q} (n : nat) : W Q nat :=
  u <- Math_random ;; ret (Z.to_nat (u mod Z.of_nat n)).

(** [Math.random() < 0.5]. *)
Definition random_lt_half {Q} : W Q bool :=
  u <- Math_random ;; ret (u mod 2 =? 0).

Definition enqueue {Q} (q : Q) : W Q unit := fun r => mkOut tt [q] r.

(** ** Data and types *)

Inductive Tag : Type := event | good | warn | danger | system | merchant | muted.

Module LogEntry.
Record t : Type := mk { text : string; tag : Tag; id : Z }.
End LogEntry.

Module Weapon.
Record t : Type := mk { id : Z; era : Z; name : string; price : Z; damage : Z }.
End Weapon.

Record EnemyCfg : Type := mkEnemyCfg {
  health : Z;
  damage_min : Z;
  damage_max : Z;
  coins_min : Z;
  coins_max : Z
}.

Record Policy : Type := mkPolicy { locked : bool; active : bool; desc : string }.

Record Inventory : Type := mkInventory {
  hpotion : Z;
  dpotion : Z;
  mpotion : Z;
  spotion : Z;
  lightning_potion : Z;
  sleep_potion : Z;
  poison_potion : Z;
  bread : Z;
  meat : Z;
  fruit : Z;
  cheese : Z
}.

(** [keyof Inventory]: the property names, used by the shop tables and by
    [buyStack] for the computed property [prev.inventory[key]]. *)
Inductive InvKey : Type :=
  K_hpotion | K_dpotion | K_mpotion | K_spotion | K_lightning_potion | K_sleep_potion | K_poison_potion | K_bread | K_meat | K_fruit | K_cheese.

Definition inv_get (k : InvKey) (i : Inventory) : Z :=
  match k with
  | K_hpotion => hpotion i
  | K_dpotion => dpotion i
  | K_mpotion => mpotion i
  | K_spotion => spotion i
  | K_lightning_potion => lightning_potion i
  | K_sleep_potion => sleep_potion i
  | K_poison_potion => poison_potion i
  | K_bread => bread i
  | K_meat => meat i
  | K_fruit => fruit i
  | K_cheese => cheese i
  end.

Definition inv_set (k : InvKey) (v : Z) (i : Inventory) : Inventory :=
  match k with
  | K_hpotion => mkInventory v (dpotion i) (mpotion i) (spotion i) (lightning_potion i) (sleep_potion i) (poison_potion i) (bread i) (meat i) (fruit i) (cheese i)
  | K_dpotion => mkInventory (hpotion i) v (mpotion i) (spotion i) (lightning_potion i) (sleep_potion i) (poison_potion i) (bread i) (meat i) (fruit i) (cheese i)
  | K_mpotion => mkInventory (hpotion i) (dpotion i) v (spotion i) (lightning_potion i) (sleep_potion i) (poison_potion i) (bread i) (meat i) (fruit i) (cheese i)
  | K_spotion => mkInventory (hpotion i) (dpotion i) (mpotion i) v (lightning_potion i) (sleep_potion i) (poison_potion i) (bread i) (meat i) (fruit i) (cheese i)
  | K_lightning_potion => mkInventory (hpotion i) (dpotion i) (mpotion i) (spotion i) v (sleep_potion i) (poison_potion i) (bread i) (meat i) (fruit i) (cheese i)
  | K_sleep_potion => mkInventory (hpotion i) (dpotion i) (mpotion i) (spotion i) (lightning_potion i) v (poison_potion i) (bread i) (meat i) (fruit i) (cheese i)
  | K_poison_potion => mkInventory (hpotion i) (dpotion i) (mpotion i) (spotion i) (lightning_potion i) (sleep_potion i) v (bread i) (meat i) (fruit i) (cheese i)
  | K_bread => mkInventory (hpotion i) (dpotion i) (mpotion i) (spotion i) (lightning_potion i) (sleep_potion i) (poison_potion i) v (meat i) (fruit i) (cheese i)
  | K_meat => mkInventory (hpotion i) (dpotion i) (mpotion i) (spotion i) (lightning_potion i) (sleep_potion i) (poison_potion i) (bread i) v (fruit i) (cheese i)
  | K_fruit => mkInventory (hpotion i) (dpotion i) (mpotion i) (spotion i) (lightning_potion i) (sleep_potion i) (poison_potion i) (bread i) (meat i) v (cheese i)
  | K_cheese => mkInventory (hpotion i) (dpotion i) (mpotion i) (spotion i) (lightning_potion i) (sleep_potion i) (poison_potion i) (bread i) (meat i) (fruit i) v
  end.

Module Item.
Record t : Type := mk { id : Z; name : string; price : Z; var : InvKey }.
End Item.

Inductive Effect : Type := eff_happiness | eff_maxstrength.

(** [MerchantOffer], a union tagged by [kind]. *)
Inductive MerchantOffer : Type :=
| WeaponOffer (name : string) (bonus price : Z)
| UniqueOffer (name : string) (effect : option Effect) (value price : Z).

Definition offer_price (p : MerchantOffer) : Z :=
  match p with
  | WeaponOffer _ _ price => price
  | UniqueOffer _ _ _ price => price
  end.

Definition offer_name (p : MerchantOffer) : string :=
  match p with
  | WeaponOffer name _ _ => name
  | UniqueOffer name _ _ _ => name
  end.

Inductive Rarity : Type := Common | Rare | Epic.

Module Catalog.
Record t : Type := mk { name : string; bonus : Z; price : Z; rarity : Rarity }.
End Catalog.

Record State {F : Type} : Type := mkState {
  name : string;
  day : Z;
  death_day : Z;
  money : Z;
  exmoney : Z;
  pmoney : Z;
  people : Z;
  maxpeople : Z;
  happiness : Z;
  phealth : Z;
  maxphealth : Z;
  strength : Z;
  maxstrength : Z;
  ehealth : Z;
  inventory : Inventory;
  currentEra : string;
  currentSword : string;
  minDmg : Z;
  maxDmg : Z;
  wfight : Z;
  lfight : Z;
  merchant_relationship : Z;
  merchant_weapon_log : list (string * bool);
  last_merchant_offer_type : option string;
  number : Z;
  owned_weapon : list (Z * Z);
  policies : list (string * Policy);
  logs : list LogEntry.t;
  pendingMerchant : option MerchantOffer;
  fight : F
}.
Arguments State : clear implicits.
Arguments mkState {F}.

Section Setters.
Context {F : Type}.
Implicit Type s : State F.
Definition with_name (v : string) s : State F :=
  mkState v (day s) (death_day s) (money s) (exmoney s) (pmoney s) (people s) (maxpeople s) (happiness s) (phealth s) (maxphealth s) (strength s) (maxstrength s) (ehealth s) (inventory s) (currentEra s) (currentSword s) (minDmg s) (maxDmg s) (wfight s) (lfight s) (merchant_relationship s) (merchant_weapon_log s) (last_merchant_offer_type s) (number s) (owned_weapon s) (policies s) (logs s) (pendingMerchant s) (fight s).
Definition with_day (v : Z) s : State F :=
  mkState (name s) v (death_day s) (money s) (exmoney s) (pmoney s) (people s) (maxpeople s) (happiness s) (phealth s) (maxphealth s) (strength s) (maxstrength s) (ehealth s) (inventory s) (currentEra s) (currentSword s) (minDmg s) (maxDmg s) (wfight s) (lfight s) (merchant_relationship s) (merchant_weapon_log s) (last_merchant_offer_type s) (number s) (owned_weapon s) (policies s) (logs s) (pendingMerchant s) (fight s).
Definition with_money (v : Z) s : State F :=
  mkState (name s) (day s) (death_day s) v (exmoney s) (pmoney s) (people s) (maxpeople s) (happiness s) (phealth s) (maxphealth s) (strength s) (maxstrength s) (ehealth s) (inventory s) (currentEra s) (currentSword s) (minDmg s) (maxDmg s) (wfight s) (lfight s) (merchant_relationship s) (merchant_weapon_log s) (last_merchant_offer_type s) (number s) (owned_weapon s) (policies s) (logs s) (pendingMerchant s) (fight s).
Definition with_exmoney (v : Z) s : State F :=
  mkState (name s) (day s) (death_day s) (money s) v (pmoney s) (people s) (maxpeople s) (happiness s) (phealth s) (maxphealth s) (strength s) (maxstrength s) (ehealth s) (inventory s) (currentEra s) (currentSword s) (minDmg s) (maxDmg s) (wfight s) (lfight s) (merchant_relationship s) (merchant_weapon_log s) (last_merchant_offer_type s) (number s) (owned_weapon s) (policies s) (logs s) (pendingMerchant s) (fight s).
Definition with_pmoney (v : Z) s : State F :=
  mkState (name s) (day s) (death_day s) (money s) (exmoney s) v (people s) (maxpeople s) (happiness s) (phealth s) (maxphealth s) (strength s) (maxstrength s) (ehealth s) (inventory s) (currentEra s) (currentSword s) (minDmg s) (maxDmg s) (wfight s) (lfight s) (merchant_relationship s) (merchant_weapon_log s) (last_merchant_offer_type s) (number s) (owned_weapon s) (policies s) (logs s) (pendingMerchant s) (fight s).
Definition with_people (v : Z) s : State F :=
  mkState (name s) (day s) (death_day s) (money s) (exmoney s) (pmoney s) v (maxpeople s) (happiness s) (phealth s) (maxphealth s) (strength s) (maxstrength s) (ehealth s) (inventory s) (currentEra s) (currentSword s) (minDmg s) (maxDmg s) (wfight s) (lfight s) (merchant_relationship s) (merchant_weapon_log s) (last_merchant_offer_type s) (number s) (owned_weapon s) (policies s) (logs s) (pendingMerchant s) (fight s).
Definition with_maxpeople (v : Z) s : State F :=
  mkState (name s) (day s) (death_day s) (money s) (exmoney s) (pmoney s) (people s) v (happiness s) (phealth s) (maxphealth s) (strength s) (maxstrength s) (ehealth s) (inventory s) (currentEra s) (currentSword s) (minDmg s) (maxDmg s) (wfight s) (lfight s) (merchant_relationship s) (merchant_weapon_log s) (last_merchant_offer_type s) (number s) (owned_weapon s) (policies s) (logs s) (pendingMerchant s) (fight s).
Definition with_happiness (v : Z) s : State F :=
  mkState (name s) (day s) (death_day s) (money s) (exmoney s) (pmoney s) (people s) (maxpeople s) v (phealth s) (maxphealth s) (strength s) (maxstrength s) (ehealth s) (inventory s) (currentEra s) (currentSword s) (minDmg s) (maxDmg s) (wfight s) (lfight s) (merchant_relationship s) (merchant_weapon_log s) (last_merchant_offer_type s) (number s) (owned_weapon s) (policies s) (logs s) (pendingMerchant s) (fight s).
Definition with_phealth (v : Z) s : State F :=
  mkState (name s) (day s) (death_day s) (money s) (exmoney s) (pmoney s) (people s) (maxpeople s) (happiness s) v (maxphealth s) (strength s) (maxstrength s) (ehealth s) (inventory s) (currentEra s) (currentSword s) (minDmg s) (maxDmg s) (wfight s) (lfight s) (merchant_relationship s) (merchant_weapon_log s) (last_merchant_offer_type s) (number s) (owned_weapon s) (policies s) (logs s) (pendingMerchant s) (fight s).
Definition with_strength (v : Z) s : State F :=
  mkState (name s) (day s) (death_day s) (money s) (exmoney s) (pmoney s) (people s) (maxpeople s) (happiness s) (phealth s) (maxphealth s) v (maxstrength s) (ehealth s) (inventory s) (currentEra s) (currentSword s) (minDmg s) (maxDmg s) (wfight s) (lfight s) (merchant_relationship s) (merchant_weapon_log s) (last_merchant_offer_type s) (number s) (owned_weapon s) (policies s) (logs s) (pendingMerchant s) (fight s).
Definition with_maxstrength (v : Z) s : State F :=
  mkState (name s) (day s) (death_day s) (money s) (exmoney s) (pmoney s) (people s) (maxpeople s) (happiness s) (phealth s) (maxphealth s) (strength s) v (ehealth s) (inventory s) (currentEra s) (currentSword s) (minDmg s) (maxDmg s) (wfight s) (lfight s) (merchant_relationship s) (merchant_weapon_log s) (last_merchant_offer_type s) (number s) (owned_weapon s) (policies s) (logs s) (pendingMerchant s) (fight s).
Definition with_ehealth (v : Z) s : State F :=
  mkState (name s) (day s) (death_day s) (money s) (exmoney s) (pmoney s) (people s) (maxpeople s) (happiness s) (phealth s) (maxphealth s) (strength s) (maxstrength s) v (inventory s) (currentEra s) (currentSword s) (minDmg s) (maxDmg s) (wfight s) (lfight s) (merchant_relationship s) (merchant_weapon_log s) (last_merchant_offer_type s) (number s) (owned_weapon s) (policies s) (logs s) (pendingMerchant s) (fight s).
Definition with_inventory (v : Inventory) s : State F :=
  mkState (name s) (day s) (death_day s) (money s) (exmoney s) (pmoney s) (people s) (maxpeople s) (happiness s) (phealth s) (maxphealth s) (strength s) (maxstrength s) (ehealth s) v (currentEra s) (currentSword s) (minDmg s) (maxDmg s) (wfight s) (lfight s) (merchant_relationship s) (merchant_weapon_log s) (last_merchant_offer_type s) (number s) (owned_weapon s) (policies s) (logs s) (pendingMerchant s) (fight s).
Definition with_currentEra (v : string) s : State F :=
  mkState (name s) (day s) (death_day s) (money s) (exmoney s) (pmoney s) (people s) (maxpeople s) (happiness s) (phealth s) (maxphealth s) (strength s) (maxstrength s) (ehealth s) (inventory s) v (currentSword s) (minDmg s) (maxDmg s) (wfight s) (lfight s) (merchant_relationship s) (merchant_weapon_log s) (last_merchant_offer_type s) (number s) (owned_weapon s) (policies s) (logs s) (pendingMerchant s) (fight s).
Definition with_currentSword (v : string) s : State F :=
  mkState (name s) (day s) (death_day s) (money s) (exmoney s) (pmoney s) (people s) (maxpeople s) (happiness s) (phealth s) (maxphealth s) (strength s) (maxstrength s) (ehealth s) (inventory s) (currentEra s) v (minDmg s) (maxDmg s) (wfight s) (lfight s) (merchant_relationship s) (merchant_weapon_log s) (last_merchant_offer_type s) (number s) (owned_weapon s) (policies s) (logs s) (pendingMerchant s) (fight s).
Definition with_minDmg (v : Z) s : State F :=
  mkState (name s) (day s) (death_day s) (money s) (exmoney s) (pmoney s) (people s) (maxpeople s) (happiness s) (phealth s) (maxphealth s) (strength s) (maxstrength s) (ehealth s) (inventory s) (currentEra s) (currentSword s) v (maxDmg s) (wfight s) (lfight s) (merchant_relationship s) (merchant_weapon_log s) (last_merchant_offer_type s) (number s) (owned_weapon s) (policies s) (logs s) (pendingMerchant s) (fight s).
Definition with_maxDmg (v : Z) s : State F :=
  mkState (name s) (day s) (death_day s) (money s) (exmoney s) (pmoney s) (people s) (maxpeople s) (happiness s) (phealth s) (maxphealth s) (strength s) (maxstrength s) (ehealth s) (inventory s) (currentEra s) (currentSword s) (minDmg s) v (wfight s) (lfight s) (merchant_relationship s) (merchant_weapon_log s) (last_merchant_offer_type s) (number s) (owned_weapon s) (policies s) (logs s) (pendingMerchant s) (fight s).
Definition with_wfight (v : Z) s : State F :=
  mkState (name s) (day s) (death_day s) (money s) (exmoney s) (pmoney s) (people s) (maxpeople s) (happiness s) (phealth s) (maxphealth s) (strength s) (maxstrength s) (ehealth s) (inventory s) (currentEra s) (currentSword s) (minDmg s) (maxDmg s) v (lfight s) (merchant_relationship s) (merchant_weapon_log s) (last_merchant_offer_type s) (number s) (owned_weapon s) (policies s) (logs s) (pendingMerchant s) (fight s).
Definition with_lfight (v : Z) s : State F :=
  mkState (name s) (day s) (death_day s) (money s) (exmoney s) (pmoney s) (people s) (maxpeople s) (happiness s) (phealth s) (maxphealth s) (strength s) (maxstrength s) (ehealth s) (inventory s) (currentEra s) (currentSword s) (minDmg s) (maxDmg s) (wfight s) v (merchant_relationship s) (merchant_weapon_log s) (last_merchant_offer_type s) (number s) (owned_weapon s) (policies s) (logs s) (pendingMerchant s) (fight s).
Definition with_merchant_relationship (v : Z) s : State F :=
  mkState (name s) (day s) (death_day s) (money s) (exmoney s) (pmoney s) (people s) (maxpeople s) (happiness s) (phealth s) (maxphealth s) (strength s) (maxstrength s) (ehealth s) (inventory s) (currentEra s) (currentSword s) (minDmg s) (maxDmg s) (wfight s) (lfight s) v (merchant_weapon_log s) (last_merchant_offer_type s) (number s) (owned_weapon s) (policies s) (logs s) (pendingMerchant s) (fight s).
Definition with_merchant_weapon_log (v : list (string * bool)) s : State F :=
  mkState (name s) (day s) (death_day s) (money s) (exmoney s) (pmoney s) (people s) (maxpeople s) (happiness s) (phealth s) (maxphealth s) (strength s) (maxstrength s) (ehealth s) (inventory s) (currentEra s) (currentSword s) (minDmg s) (maxDmg s) (wfight s) (lfight s) (merchant_relationship s) v (last_merchant_offer_type s) (number s) (owned_weapon s) (policies s) (logs s) (pendingMerchant s) (fight s).
Definition with_last_merchant_offer_type (v : option string) s : State F :=
  mkState (name s) (day s) (death_day s) (money s) (exmoney s) (pmoney s) (people s) (maxpeople s) (happiness s) (phealth s) (maxphealth s) (strength s) (maxstrength s) (ehealth s) (inventory s) (currentEra s) (currentSword s) (minDmg s) (maxDmg s) (wfight s) (lfight s) (merchant_relationship s) (merchant_weapon_log s) v (number s) (owned_weapon s) (policies s) (logs s) (pendingMerchant s) (fight s).
Definition with_number (v : Z) s : State F :=
  mkState (name s) (day s) (death_day s) (money s) (exmoney s) (pmoney s) (people s) (maxpeople s) (happiness s) (phealth s) (maxphealth s) (strength s) (maxstrength s) (ehealth s) (inventory s) (currentEra s) (currentSword s) (minDmg s) (maxDmg s) (wfight s) (lfight s) (merchant_relationship s) (merchant_weapon_log s) (last_merchant_offer_type s) v (owned_weapon s) (policies s) (logs s) (pendingMerchant s) (fight s).
Definition with_owned_weapon (v : list (Z * Z)) s : State F :=
  mkState (name s) (day s) (death_day s) (money s) (exmoney s) (pmoney s) (people s) (maxpeople s) (happiness s) (phealth s) (maxphealth s) (strength s) (maxstrength s) (ehealth s) (inventory s) (currentEra s) (currentSword s) (minDmg s) (maxDmg s) (wfight s) (lfight s) (merchant_relationship s) (merchant_weapon_log s) (last_merchant_offer_type s) (number s) v (policies s) (logs s) (pendingMerchant s) (fight s).
Definition with_policies (v : list (string * Policy)) s : State F :=
  mkState (name s) (day s) (death_day s) (money s) (exmoney s) (pmoney s) (people s) (maxpeople s) (happiness s) (phealth s) (maxphealth s) (strength s) (maxstrength s) (ehealth s) (inventory s) (currentEra s) (currentSword s) (minDmg s) (maxDmg s) (wfight s) (lfight s) (merchant_relationship s) (merchant_weapon_log s) (last_merchant_offer_type s) (number s) (owned_weapon s) v (logs s) (pendingMerchant s) (fight s).
Definition with_logs (v : list LogEntry.t) s : State F :=
  mkState (name s) (day s) (death_day s) (money s) (exmoney s) (pmoney s) (people s) (maxpeople s) (happiness s) (phealth s) (maxphealth s) (strength s) (maxstrength s) (ehealth s) (inventory s) (currentEra s) (currentSword s) (minDmg s) (maxDmg s) (wfight s) (lfight s) (merchant_relationship s) (merchant_weapon_log s) (last_merchant_offer_type s) (number s) (owned_weapon s) (policies s) v (pendingMerchant s) (fight s).
Definition with_pendingMerchant (v : option MerchantOffer) s : State F :=
  mkState (name s) (day s) (death_day s) (money s) (exmoney s) (pmoney s) (people s) (maxpeople s) (happiness s) (phealth s) (maxphealth s) (strength s) (maxstrength s) (ehealth s) (inventory s) (currentEra s) (currentSword s) (minDmg s) (maxDmg s) (wfight s) (lfight s) (merchant_relationship s) (merchant_weapon_log s) (last_merchant_offer_type s) (number s) (owned_weapon s) (policies s) (logs s) v (fight s).
Definition with_fight (v : F) s : State F :=
  mkState (name s) (day s) (death_day s) (money s) (exmoney s) (pmoney s) (people s) (maxpeople s) (happiness s) (phealth s) (maxphealth s) (strength s) (maxstrength s) (ehealth s) (inventory s) (currentEra s) (currentSword s) (minDmg s) (maxDmg s) (wfight s) (lfight s) (merchant_relationship s) (merchant_weapon_log s) (last_merchant_offer_type s) (number s) (owned_weapon s) (policies s) (logs s) (pendingMerchant s) v.
End Setters.

(** ** Static tables *)

Definition ERA_SEQ : list string :=
  ["Bronze Age"; "Iron Age"; "Roman Age"; "Medievil Age"; "Electric Age"; "Modern Age"].

Definition WEAPONS : list Weapon.t :=
  [ Weapon.mk 1 1 "Pebble" 1000 2;
    Weapon.mk 2 1 "Stone" 5000 5;
    Weapon.mk 3 1 "Rock" 7500 7;
    Weapon.mk 4 1 "Chiselled Stone" 12000 12;
    Weapon.mk 5 1 "Sharpened Rock" 16000 15;
    Weapon.mk 1 3 "Iron Spear" 165000 34;
    Weapon.mk 2 3 "Steel Sword" 200000 38;
    Weapon.mk 3 3 "Lance" 220000 42;
    Weapon.mk 4 3 "Axe" 235000 46;
    Weapon.mk 5 3 "Bow" 260000 50;
    Weapon.mk 1 5 "Socketed Axe" 30000 17;
    Weapon.mk 2 5 "Dagger" 45000 20;
    Weapon.mk 3 5 "Sickle Sword" 60000 24;
    Weapon.mk 4 5 "Reinforced Axe" 90000 27;
    Weapon.mk 5 5 "Dead Oak Bow" 120000 30;
    Weapon.mk 1 6 "Glock" 1045000 98;
    Weapon.mk 2 6 "Uzi" 1100000 100;
    Weapon.mk 3 6 "Maxim Gun" 1150000 102;
    Weapon.mk 4 6 "AK-47" 1200000 104;
    Weapon.mk 5 6 "M1 Garand" 1300000 106;
    Weapon.mk 1 7 "Composite Knife" 9000 75;
    Weapon.mk 2 7 "Smartsteel Katana" 12000 95;
    Weapon.mk 3 7 "Laser Saber" 20000 120 ].

Definition POTIONS : list Item.t :=
  [ Item.mk 1 "Health Potion" 500 K_hpotion;
    Item.mk 2 "Mana Potion" 750 K_mpotion;
    Item.mk 3 "Stamina Potion" 1000 K_spotion;
    Item.mk 4 "Damage Potion" 1500 K_dpotion;
    Item.mk 5 "Lightning Potion" 2000 K_lightning_potion;
    Item.mk 6 "Sleep Potion" 1800 K_sleep_potion;
    Item.mk 7 "Poison Potion" 1700 K_poison_potion ].

Definition FOOD : list Item.t :=
  [ Item.mk 1 "Bread" 20 K_bread;
    Item.mk 2 "Meat" 50 K_meat;
    Item.mk 3 "Fruit" 30 K_fruit;
    Item.mk 4 "Cheese" 40 K_cheese ].

Inductive Difficulty : Type := EASY | MEDIUM | HARD.

Definition ENEMY (d : Difficulty) : EnemyCfg :=
  match d with
  | EASY => mkEnemyCfg 100 2 7 50 150
  | MEDIUM => mkEnemyCfg 200 7 12 100 500
  | HARD => mkEnemyCfg 300 10 20 150 800
  end.

Definition MERCHANT_BY_ERA : list (string * list Catalog.t) :=
  [ ("Stone Age",
      [ Catalog.mk "Sharpened Bone" 15 600 Common;
        Catalog.mk "Jagged Flint Axe" 20 1200 Rare;
        Catalog.mk "Mammoth Fang Blade" 30 2000 Epic ]);
    ("Bronze Age",
      [ Catalog.mk "Bronze Shortblade" 22 1400 Common;
        Catalog.mk "Fire-Hardened Spear" 30 2400 Rare;
        Catalog.mk "Sun-Kissed Dagger" 38 3500 Epic ]);
    ("Iron Age",
      [ Catalog.mk "Iron Cleaver" 35 3000 Common;
        Catalog.mk "Spiked Mace" 42 4000 Rare;
        Catalog.mk "Molten Iron Blade" 52 5500 Epic ]);
    ("Roman Age",
      [ Catalog.mk "Legionnaire’s Gladius" 40 3500 Common;
        Catalog.mk "Colosseum Cutter" 50 5000 Rare;
        Catalog.mk "Centurion’s Edge" 65 7500 Epic ]);
    ("Medievil Age",
      [ Catalog.mk "Crusader Sword" 50 5000 Common;
        Catalog.mk "Dragonsteel Falchion" 60 7000 Rare;
        Catalog.mk "Vampire Slayer" 80 10000 Epic ]);
    ("Electric Age",
      [ Catalog.mk "Insulated Cutter" 65 7000 Common;
        Catalog.mk "Arc Blade" 80 10000 Rare;
        Catalog.mk "Tesla Edge" 100 15000 Epic ]);
    ("Modern Age",
      [ Catalog.mk "Composite Tactical Knife" 75 9000 Common;
        Catalog.mk "Smartsteel Katana" 95 12000 Rare;
        Catalog.mk "Prototype Laser Saber" 120 20000 Epic ]) ].

(** The three unique items of [merchant_event]. *)
Definition RARE_ITEMS : list MerchantOffer :=
  [ UniqueOffer "Golden Cheese" (Some eff_happiness) 5 700;
    UniqueOffer "Ancient Scroll" (Some eff_maxstrength) 1 1000;
    UniqueOffer "Map Fragment" None 0 800 ].

(** The era flavour lines of [command_sleep]. *)
Definition flavour : list (string * string) :=
  [ ("Stone Age", "Your people are learning to craft stone tools.");
    ("Bronze Age", "Metalworking begins to shape the future of your army.");
    ("Iron Age", "Blacksmiths forge powerful weapons.");
    ("Roman Age", "Infrastructure expands under imperial guidance.");
    ("Medievil Age", "Armies are growing and the people whisper of war.");
    ("Electric Age", "Inventions surge across your cities.");
    ("Modern Age", "Skyscrapers rise as society industrialises.") ].

(** ** Objects used as dictionaries *)

(** Property lookup [o[k]]. *)
Fixpoint lookup {V} (k : string) (o : list (string * V)) : option V :=
  match o with
  | [] => None
  | (k', v) :: o' => if String.eqb k k' then Some v else lookup k o'
  end.

(** [{ ...o, [k]: v }]: an existing property keeps its place, a new one goes
    to the end. *)
Fixpoint assign {V} (k : string) (v : V) (o : list (string * V)) : list (string * V) :=
  match o with
  | [] => [(k, v)]
  | (k', v') :: o' => if String.eqb k k' then (k, v) :: o' else (k', v') :: assign k v o'
  end.

(** [k in o]. *)
Definition has_key {V} (k : string) (o : list (string * V)) : bool :=
  match lookup k o with Some _ => true | None => false end.

(** The same for [owned_weapon], whose keys are era numbers. *)
Fixpoint lookupZ {V} (k : Z) (o : list (Z * V)) : option V :=
  match o with
  | [] => None
  | (k', v) :: o' => if k =? k' then Some v else lookupZ k o'
  end.

Fixpoint assignZ {V} (k : Z) (v : V) (o : list (Z * V)) : list (Z * V) :=
  match o with
  | [] => [(k, v)]
  | (k', v') :: o' => if k =? k' then (k, v) :: o' else (k', v') :: assignZ k v o'
  end.

(** [s.policies[k]]; every state the game reaches has the eight policy keys
    (see [policy_keys_reachable]), where JavaScript would raise on a missing
    one this gives a locked, inactive policy. *)
Definition policy (k : string) (ps : list (string * Policy)) : Policy :=
  match lookup k ps with
  | Some p => p
  | None => mkPolicy true false ""
  end.

(** ** The state queue of the component *)

Section Core.
Context {F : Type}.
Implicit Types (s prev next : State F).

(** A pure updater, [prev => ({ ...prev, ... })]. *)
Definition Upd : Type := State F -> State F.

(** An updater whose body draws random numbers or calls [appendLog] or [set]
    itself; what it enqueues is run once the queue of the handler is done. *)
Definition Updater : Type := State F -> W Upd (State F).

(** An event handler, run against the snapshot it closes over. *)
Definition Handler : Type := W Updater unit.

Class Lift (Q : Type) : Type := lift : Upd -> Q.

#[export] Instance lift_upd : Lift Upd := fun f => f.

#[export] Instance lift_updater : Lift Updater := fun f prev => ret (f prev).

(** [set(prev => ...)] with a pure body. *)
Definition set {Q} `{Lift Q} (f : Upd) : W Q unit := enqueue (lift f).

(** [set(prev => { ... })] with a body that has effects. *)
Definition set_fn (u : Updater) : Handler := enqueue u.

Definition next_log_id (l : list LogEntry.t) : Z :=
  match rev l with
  | [] => 1
  | e :: _ => LogEntry.id e + 1
  end.

(** The updater of [appendLog]. *)
Definition appendLog_upd (text : string) (tag : Tag) : Upd :=
  fun prev =>
    let nextLogs := logs prev ++ [LogEntry.mk text tag (next_log_id (logs prev))] in
    with_logs (slice_last 600 nextLogs) prev.

Definition appendLog {Q} `{Lift Q} (text : string) (tag : Tag) : W Q unit :=
  set (appendLog_upd text tag).

(** Running the queue of a handler: the updaters in order, then what they
    enqueued themselves. *)
Fixpoint run_queue (q : list Updater) s (r : Rng) : Out Upd (State F) :=
  match q with
  | [] => mkOut s [] r
  | u :: q' =>
      let o1 := u s r in
      let o2 := run_queue q' (val o1) (rest o1) in
      mkOut (val o2) (queued o1 ++ queued o2) (rest o2)
  end.

Definition apply_all (d : list Upd) s : State F :=
  fold_left (fun x f => f x) d s.

(** One user event: the handler runs on the rendered state [s], then the
    queue is flushed starting from [s]. *)
Definition dispatch (h : State F -> Handler) s (r : Rng) : State F * Rng :=
  let o1 := h s r in
  let o2 := run_queue (queued o1) s (rest o1) in
  (apply_all (queued o2) (val o2), rest o2).

(** The same event when React computes the first update at once: the first
    updater runs on [s] inside its [set], with the draws [r1] that the
    oracle gives at that point; the updates it issues are overwritten by the
    state it returns, and the rest of the queue is flushed from that
    state. *)
Definition dispatch_eager (h : State F -> Handler) s (r1 r : Rng) : State F * Rng :=
  let o1 := h s r in
  match queued o1 with
  | [] => (s, rest o1)
  | u :: q =>
      let o2 := run_queue q (val (u s r1)) (rest o1) in
      (apply_all (queued o2) (val o2), rest o2)
  end.

(** ** Merchant *)

(** [discountedPrice]: [{ final, discPct }] as a pair. *)
Definition discountedPrice s (base : Z) : Z * Z :=
  let discPct := merchant_relationship s * 6 in
  let disc :=
    Math_floor (PrimFloat.mul (float_of_Z base)
                  (PrimFloat.div (float_of_Z discPct) (float_of_Z 100))) in
  (base - disc, discPct).

Definition showMerchantOffer (payload : MerchantOffer) : Handler :=
  set (with_pendingMerchant (Some payload)).

Definition show_rarity (x : Rarity) : string :=
  match x with Common => "Common" | Rare => "Rare" | Epic => "Epic" end.

(** [x === s.last_merchant_offer_type]. *)
Definition is_last (x : string) (l : option string) : bool :=
  match l with Some y => String.eqb x y | None => false end.

Definition rarity_weight (x : Rarity) : nat :=
  match x with Common => 3%nat | Rare => 2%nat | Epic => 1%nat end.

Definition weighted_pool (pool : list Catalog.t) : list Catalog.t :=
  flat_map (fun w => repeat w (rarity_weight (Catalog.rarity w))) pool.

Definition with_price (final : Z) (p : MerchantOffer) : MerchantOffer :=
  match p with
  | WeaponOffer n b _ => WeaponOffer n b final
  | UniqueOffer n e v _ => UniqueOffer n e v final
  end.

Definition merchant_event s : Handler :=
  offerType <-
    (if has_key (currentEra s) MERCHANT_BY_ERA && negb (has_key (currentEra s) (merchant_weapon_log s))
     then
       x <- rand 1 100 ;;
       ret (if (x <=? 3) && negb (is_last "weapon" (last_merchant_offer_type s))
            then "weapon" else "unique")
     else ret "unique") ;;
  let offerType := if is_last offerType (last_merchant_offer_type s) then "unique" else offerType in
  if String.eqb offerType "weapon" then
    match lookup (currentEra s) MERCHANT_BY_ERA with
    | None => ret tt
    | Some pool =>
        let weighted := weighted_pool pool in
        i <- random_index (List.length weighted) ;;
        match nth_error weighted i with
        | None => ret tt
        | Some sel =>
            let '(final, discPct) := discountedPrice s (Catalog.price sel) in
            appendLog
              (cat ["Merchant offers a "; show_rarity (Catalog.rarity sel); " weapon: ";
                    Catalog.name sel; " (+"; show (Catalog.bonus sel); " DMG). Price ";
                    show final; " coins ("; show discPct; "% off)."]) merchant ;;;
            showMerchantOffer (WeaponOffer (Catalog.name sel) (Catalog.bonus sel) final) ;;;
            set (with_last_merchant_offer_type (Some "weapon"))
        end
    end
  else
    let rare :=
      filter (fun x => negb (is_last (offer_name x) (last_merchant_offer_type s))) RARE_ITEMS in
    i <- random_index (List.length rare) ;;
    match nth_error rare i with
    | None => ret tt
    | Some sel =>
        let final := fst (discountedPrice s (offer_price sel)) in
        appendLog (cat ["Merchant offers "; offer_name sel; ". Price "; show final; " coins."])
          merchant ;;;
        showMerchantOffer (with_price final sel) ;;;
        set (with_last_merchant_offer_type (Some (offer_name sel)))
    end.

(** ** Random events *)

Definition with_bread (v : Z) s : State F :=
  with_inventory (inv_set K_bread v (inventory s)) s.

Definition locked_keys (ps : list (string * Policy)) : list string :=
  map fst (filter (fun kv => locked (snd kv)) ps).

Definition unlock (key : string) : Upd :=
  fun prev =>
    let p := policy key (policies prev) in
    with_policies (assign key (mkPolicy false (active p) (desc p)) (policies prev)) prev.

Definition random_event s : Handler :=
  roll <- rand 1 100 ;;
  if roll <=? 10 then
    set_fn (fun prev =>
      loss <- rand 100 300 ;;
      happinessLoss <- rand 5 15 ;;
      appendLog (cat ["Protest in the streets. Lost "; show loss; " coins. Happiness reduced."])
        warn ;;;
      ret (with_happiness (clamp (happiness prev - happinessLoss) 0 100)
            (with_money (Z.max 0 (money prev - loss))
              (with_pmoney (pmoney prev + 1) prev))))
  else if roll <=? 20 then
    outcome <- rand 1 10 ;;
    if outcome <=? 6 then
      reward <- rand 300 800 ;;
      set (fun prev => with_money (money prev + reward) prev) ;;;
      appendLog (cat ["You repelled a rogue faction and looted "; show reward; " coins."]) good
    else
      loss <- rand 100 400 ;;
      set_fn (fun prev =>
        casualties <- rand 3 10 ;;
        ret (with_money (Z.max 0 (money prev - loss))
              (with_people (Z.max 0 (people prev - casualties)) prev))) ;;;
      appendLog (cat ["You lost to a rogue faction. People and "; show loss; " coins lost."]) warn
  else if roll <=? 30 then
    merchant_event s
  else if roll <=? 40 then
    famine <- random_lt_half ;;
    if famine then
      lost <- rand 5 15 ;;
      set (fun prev =>
        with_happiness (clamp (happiness prev - 10) 0 100)
          (with_bread (Z.max 0 (bread (inventory prev) - lost))
            (with_people (Z.max 0 (people prev - lost)) prev))) ;;;
      appendLog (cat ["Famine struck. "; show lost; " people died and food supplies dwindled."]) warn
    else
      loss <- rand 10 20 ;;
      set (fun prev =>
        with_happiness (clamp (happiness prev - 5) 0 100)
          (with_bread (Z.max 0 (bread (inventory prev) - loss)) prev)) ;;;
      appendLog (cat ["Flooding damaged crops. "; show loss; " bread lost."]) warn
  else if roll <=? 50 then
    set (fun prev => with_happiness (clamp (happiness prev + 10) 0 100) prev) ;;;
    appendLog "A royal decision pleased the people. Happiness rises." good
  else if roll <=? 55 then
    cursed <- random_lt_half ;;
    if cursed then
      set (fun prev =>
        with_money (Z.max 0 (money prev - 200))
          (with_happiness (clamp (happiness prev - 10) 0 100) prev)) ;;;
      appendLog "A cursed relic brought misfortune." warn
    else
      set (fun prev =>
        with_money (money prev + 500)
          (with_happiness (clamp (happiness prev + 10) 0 100) prev)) ;;;
      appendLog "An enchanted relic blessed the land. +500 coins." good
  else if roll <=? 60 then
    let locked := locked_keys (policies s) in
    match locked with
    | [] => ret tt
    | _ :: _ =>
        i <- random_index (List.length locked) ;;
        match nth_error locked i with
        | None => ret tt
        | Some key =>
            set (unlock key) ;;;
            appendLog (cat ["New policy emerged: "; key; ". "; desc (policy key (policies s))])
              system
        end
    end
  else if roll <=? 70 then
    bonus <- rand 10 30 ;;
    set (fun prev => with_happiness (clamp (happiness prev + bonus) 0 100) prev) ;;;
    appendLog (cat ["A festival boosted morale. +"; show bonus; " happiness."]) good
  else if roll <=? 80 then
    coins <- rand 200 600 ;;
    set (fun prev => with_money (money prev + coins) prev) ;;;
    appendLog (cat ["Buried treasure found. +"; show coins; " coins."]) good
  else
    appendLog "A calm day passes." muted.

(** ** The day-advance pipeline *)

(** [command_sleep], lines 428-447: strength, day and food. *)
Definition consume_food prev : W Upd (State F) :=
  let bread0 := bread (inventory prev) in
  let strength := maxstrength prev in
  let day := day prev + 1 in
  let required_food :=
    if active (policy "Food Rationing" (policies prev))
    then (3 * people prev) / 4 else people prev in
  if bread0 >=? required_food then
    appendLog (cat ["You consumed "; show required_food; " food for your population."]) event ;;;
    ret (with_people (people prev)
          (with_happiness (happiness prev)
            (with_bread (bread0 - required_food)
              (with_strength strength (with_day day prev)))))
  else
    let shortage := required_food - bread0 in
    let happiness_loss := shortage / 2 in
    let people_lost := shortage / 5 in
    appendLog (cat ["Food Shortage. Lost "; show people_lost; " people, happiness -";
                    show happiness_loss; "."]) warn ;;;
    ret (with_people (Z.max 0 (people prev - people_lost))
          (with_happiness (clamp (happiness prev - happiness_loss) 0 100)
            (with_bread 0
              (with_strength strength (with_day day prev))))).

(** [command_sleep], lines 449-462: the draw [r] and its three incidents. *)
Definition daily_incident next : W Upd (State F) :=
  r <- rand 1 100 ;;
  if r <=? 15 then
    loss <- rand 50 200 ;;
    appendLog (cat ["Bandits raided your treasury. Lost "; show loss; " coins."]) warn ;;;
    ret (with_money (Z.max 0 (money next - loss)) next)
  else if r <=? 30 then
    g <- rand 5 15 ;;
    appendLog (cat ["Festival. Happiness +"; show g; "."]) good ;;;
    ret (with_happiness (clamp (happiness next + g) 0 100) next)
  else if r <=? 40 then
    p <- rand 3 10 ;;
    appendLog (cat ["Travellers joined your kingdom. +"; show p; " population."]) good ;;;
    ret (with_people (Z.min (maxpeople next) (people next + p)) next)
  else ret next.

(** [command_sleep], lines 464-475: the era line and the two warnings of age. *)
Definition flavour_lines next : W Upd unit :=
  (match lookup (currentEra next) flavour with
   | Some line => appendLog line muted
   | None => ret tt
   end) ;;;
  if (day next =? death_day next - 10) || (day next =? death_day next - 5)
  then appendLog "You feel your age catching up to you..." muted
  else ret tt.

(** [command_sleep], lines 481-511: the upkeep of the active policies. *)
Definition policy_upkeep next : W Upd (State F) :=
  next <-
    (if active (policy "Universal Tax" (policies next)) then
       bonus <- rand 20 50 ;;
       appendLog (cat ["Universal Tax active: +"; show bonus; " coins, -2 happiness."]) system ;;;
       ret (with_happiness (clamp (happiness next - 2) 0 100)
             (with_money (money next + bonus) next))
     else ret next) ;;
  next <-
    (if active (policy "Charity Relief" (policies next)) && (money next >=? 30) then
       appendLog "Charity Relief: -30 coins, +4 happiness." system ;;;
       ret (with_happiness (clamp (happiness next + 4) 0 100)
             (with_money (money next - 30) next))
     else ret next) ;;
  next <-
    (if active (policy "Royal Festival" (policies next)) && (Z.rem (day next) 5 =? 0) then
       appendLog "Royal Festival held: +8 happiness." good ;;;
       ret (with_happiness (clamp (happiness next + 8) 0 100) next)
     else ret next) ;;
  next <-
    (if active (policy "Public Health" (policies next)) then
       x <- rand 1 100 ;;
       if x <=? 10 then
         appendLog "Public Health prevented a disease outbreak." good ;;; ret next
       else ret (with_happiness (clamp (happiness next + 1) 0 100) next)
     else ret next) ;;
  next <-
    (if active (policy "Open Borders" (policies next)) then
       x <- rand 1 100 ;;
       if x <=? 15 then
         influx <- rand 2 8 ;;
         appendLog (cat ["Open Borders: +"; show influx; " migrants joined."]) good ;;;
         ret (with_people (people next + influx) next)
       else ret next
     else ret next) ;;
  (if active (policy "Electric Welfare" (policies next))
      && String.eqb (currentEra next) "Electric Age" then
     x <- rand 1 100 ;;
     if x <=? 20 then appendLog "Electric Welfare prevented a disaster." good else ret tt
   else ret tt) ;;;
  ret next.

(** The updater that [command_sleep] passes to [set]. *)
Definition sleep_updater : Updater :=
  fun prev =>
    next <- consume_food prev ;;
    next <- daily_incident next ;;
    flavour_lines next ;;;
    if day next >=? death_day next then
      appendLog "Your time has come. Your kingdom now lives on in legend." danger ;;;
      ret next
    else policy_upkeep next.

Definition command_sleep s : Handler :=
  set_fn sleep_updater ;;;
  random_event s.

(** ** Expansion *)

(** [ERA_SEQ[number] || prev.currentEra]. *)
Definition era_after (number : Z) (current : string) : string :=
  if number <? 0 then current
  else match nth_error ERA_SEQ (Z.to_nat number) with
       | Some e => e
       | None => current
       end.

(** The updater of [command_expand]. *)
Definition expand_updater : Updater :=
  fun prev =>
    let number := number prev + 1 in
    let currentEra := era_after number (currentEra prev) in
    appendLog (cat ["You advanced to "; currentEra; ". Max population is now ";
                    show (maxpeople prev * 2); "."]) good ;;;
    ret (with_strength (Z.max 0 (strength prev - 1))
          (with_maxstrength (Z.max (maxstrength prev) 4)
            (with_currentEra currentEra
              (with_number number
                (with_maxpeople (maxpeople prev * 2)
                  (with_exmoney (exmoney prev * 2)
                    (with_money (money prev - exmoney prev) prev))))))).

(** ** Shop *)

(** [qty] is a whole number, as the quantity box of step 1 means it to be. *)
Definition buyStack (key : InvKey) (price qty : Z) (name : string) s : Handler :=
  if qty <=? 0 then ret tt
  else
    let total := price * qty in
    if money s <? total then appendLog "Not enough coins." warn
    else
      set (fun prev =>
        with_inventory (inv_set key (inv_get key (inventory prev) + qty) (inventory prev))
          (with_money (money prev - total) prev)) ;;;
      appendLog (cat ["Purchased "; show qty; " "; name; "."]) good.

Definition find_weapon (era wid : Z) : option Weapon.t :=
  find (fun x => (Weapon.era x =? era) && (Weapon.id x =? wid)) WEAPONS.

(** [s.owned_weapon[era] || 0]. *)
Definition owned s (era : Z) : Z :=
  match lookupZ era (owned_weapon s) with Some n => n | None => 0 end.

Definition buyWeapon (era wid : Z) s : Handler :=
  match find_weapon era wid with
  | None => ret tt
  | Some w =>
      if wid <=? owned s era then appendLog "That weapon is locked." muted
      else if money s <? Weapon.price w then appendLog "Not enough coins." warn
      else
        set (fun prev =>
          with_currentSword
            (cat [Weapon.name w; " (+"; show (Weapon.damage w); " DMG)"])
            (with_maxDmg (15 + Weapon.damage w)
              (with_minDmg (5 + Weapon.damage w)
                (with_owned_weapon (assignZ era wid (owned_weapon prev))
                  (with_money (money prev - Weapon.price w) prev))))) ;;;
        appendLog (cat ["Purchased "; Weapon.name w; "."]) good
  end.

Definition buyMerchant s : Handler :=
  match pendingMerchant s with
  | None => ret tt
  | Some p =>
      if money s <? offer_price p then appendLog "You cannot afford it." warn
      else
        match p with
        | WeaponOffer name bonus price =>
            set (fun prev =>
              with_pendingMerchant None
                (with_merchant_relationship (Z.min 5 (merchant_relationship prev + 1))
                  (with_merchant_weapon_log
                      (assign (currentEra prev) true (merchant_weapon_log prev))
                    (with_currentSword (cat [name; " (+"; show bonus; " DMG)"])
                      (with_maxDmg (15 + bonus)
                        (with_minDmg (5 + bonus)
                          (with_money (money prev - price) prev))))))) ;;;
            appendLog (cat ["You purchased "; name; "."]) merchant
        | UniqueOffer name effect _ price =>
            set (fun prev =>
              let happiness :=
                match effect with
                | Some eff_happiness => clamp (happiness prev + 5) 0 100
                | _ => happiness prev
                end in
              let maxstrength :=
                match effect with
                | Some eff_maxstrength => maxstrength prev + 1
                | _ => maxstrength prev
                end in
              with_pendingMerchant None
                (with_merchant_relationship (Z.min 5 (merchant_relationship prev + 1))
                  (with_maxstrength maxstrength
                    (with_happiness happiness
                      (with_money (money prev - price) prev))))) ;;;
            appendLog (cat ["You bought "; name; "."]) merchant
        end
  end.

(** The Dismiss button of the merchant tab. *)
Definition dismissMerchant s : Handler :=
  set (with_pendingMerchant None).

(** The button of one row of the policies panel: [data] is the entry of the
    rendered state, and the button is disabled while it is locked. *)
Definition togglePolicy (name : string) s : Handler :=
  match lookup name (policies s) with
  | None => ret tt
  | Some data =>
      if locked data then ret tt
      else
        set (fun prev =>
          with_policies
            (assign name (mkPolicy (locked data) (negb (active data)) (desc data))
               (policies prev)) prev) ;;;
        appendLog (cat [name; " is now "; if negb (active data) then "ENABLED" else "DISABLED"; "."])
          system
  end.

(** [save]: the state itself only gains a log line. *)
Definition save s : Handler := appendLog "Game saved." system.

End Core.

Arguments Upd : clear implicits.
Arguments Updater : clear implicits.
Arguments Handler : clear implicits.

(** ** [src/main.tsx]: commands and the fight *)

Module Main.

Record FightState : Type := mkFight {
  cfg : option EnemyCfg;
  stunned : bool;
  poisonTurns : Z
}.

Definition St : Type := State FightState.

Definition with_stunned (b : bool) (f : FightState) : FightState :=
  mkFight (cfg f) b (poisonTurns f).

Definition with_poisonTurns (n : Z) (f : FightState) : FightState :=
  mkFight (cfg f) (stunned f) n.

Definition initial_policies : list (string * Policy) :=
  [ ("Universal Tax", mkPolicy true false "Gain more tax money, but lower happiness.");
    ("Charity Relief", mkPolicy true false "Lose money per day to boost happiness.");
    ("Royal Festival", mkPolicy true false "Auto-celebrates a festival every 5 days.");
    ("Food Rationing", mkPolicy true false "Reduce food consumption, reduce happiness.");
    ("Open Borders", mkPolicy true false "Chance for more migrants, but occasional unrest.");
    ("Public Health", mkPolicy true false "Reduces sickness, small gold cost daily.");
    ("Work Tax Rebate", mkPolicy true false "Boost worker morale, costs coins.");
    ("Electric Welfare", mkPolicy true false "Auto-fixes disasters. Electric+ only.") ].

(** [initialState()]; [death_day] is the value drawn by [rand(80, 150)]. *)
Definition initialState (death_day : Z) : St :=
  mkState "kingdom name" 1 death_day 999990 5000 0 50 50 50 100 100 3 3 100
    (mkInventory 0 0 0 0 0 0 0 10 0 0 0)
    "Stone Age" "None" 5 15 0 0 0 [] None (-1)
    [(1, 0); (2, 0); (3, 0); (4, 0); (5, 0); (6, 0); (7, 0)]
    initial_policies [] None (mkFight None false 0).

Definition command_tax (s : St) : Handler FightState :=
  if happiness s <? 1 then
    appendLog "Your people were not happy and left. You became broke." danger ;;;
    set (with_money 0)
  else
    delta <- rand 1 5 ;;
    set_fn (fun prev =>
      income <- rand 25 50 ;;
      ret (with_strength (Z.max 0 (strength prev - 1))
            (with_money (money prev + income)
              (with_happiness (clamp (happiness prev - delta) 0 100) prev)))) ;;;
    appendLog (cat ["You taxed the people: happiness -"; show delta; "."]) warn.

Definition command_pay (s : St) : Handler FightState :=
  if people s <? 1 then
    appendLog (cat ["You have no-one left in "; name s; ". You became broke and unpopular."])
      danger ;;;
    set (with_money 0)
  else
    set (fun prev =>
      with_strength (Z.max 0 (strength prev - 1))
        (with_happiness (clamp (happiness prev + 5) 0 100)
          (with_money (Z.max 0 (money prev - 5)) prev))) ;;;
    appendLog "You paid the people. Happiness +5." good.

Definition command_expand (s : St) : Handler FightState :=
  if number s >=? 6 then appendLog "You are already at the top Age." muted
  else if money s <? exmoney s then
    appendLog (cat ["You need "; show (exmoney s - money s); " more coins to expand."]) muted
  else set_fn expand_updater.

Definition startFight (diff : Difficulty) (s : St) : Handler FightState :=
  set (fun prev =>
    with_fight (mkFight (Some (ENEMY diff)) false 0)
      (with_phealth 100 (with_ehealth (health (ENEMY diff)) prev))).

(** The updater of [updateFightBars]: the poison tick. *)
Definition poison_tick : Upd FightState :=
  fun prev =>
    let ehealth0 := ehealth prev in
    let poisonTurns0 := poisonTurns (fight prev) in
    if (poisonTurns0 >? 0) && (ehealth0 >? 0) then
      with_fight (with_poisonTurns (poisonTurns0 - 1) (fight prev))
        (with_ehealth (Z.max 0 (ehealth0 - 5)) prev)
    else
      with_fight (with_poisonTurns poisonTurns0 (fight prev))
        (with_ehealth ehealth0 prev).

Definition updateFightBars : Handler FightState := set poison_tick.

Inductive Action : Type := strike | block | heal | dmg_pot | lightning | sleep | poison.

Definition use_potion (key : InvKey) : Upd FightState :=
  fun prev => with_inventory (inv_set key (inv_get key (inventory prev) - 1) (inventory prev)) prev.

(** [post]: the settlement, run from inside the last updater of
    [playerAction]; its own [set] calls are enqueued behind it. *)
Definition post (c : EnemyCfg) (next : St) : W (Upd FightState) unit :=
  if (ehealth next <=? 0) || (phealth next <=? 0) then
    if ehealth next <=? 0 then
      reward <- rand (coins_min c) (coins_max c) ;;
      set (fun prev => with_wfight (wfight prev + 1) (with_money (money prev + reward) prev))
    else set (fun prev => with_lfight (lfight prev + 1) prev)
  else ret tt.

(** [playerAction], lines 722-755: what follows a strike, a block or a
    damage potion. *)
Definition resolve_turn (c : EnemyCfg) (stunnedNow : bool) (pdamage : Z) (s : St)
  : Handler FightState :=
  (if pdamage >=? 0
   then set (fun prev => with_ehealth (Z.max 0 (ehealth prev - pdamage)) prev)
   else ret tt) ;;;
  (if stunned (fight s) then
     set (fun prev => with_fight (with_stunned false (fight prev)) prev)
   else
     raw <- rand (damage_min c) (damage_max c) ;;
     let edmg := if pdamage <? 0 then Z.max 0 (raw + pdamage) else raw in
     set (fun prev => with_phealth (Z.max 0 (phealth prev - edmg)) prev)) ;;;
  (if stunnedNow
   then set (fun prev => with_fight (with_stunned true (fight prev)) prev)
   else ret tt) ;;;
  updateFightBars ;;;
  set_fn (fun prev => post c prev ;;; ret prev).

Definition playerAction (action : Action) (s : St) : Handler FightState :=
  match cfg (fight s) with
  | None => ret tt
  | Some c =>
      match action with
      | strike =>
          pdamage <- rand (minDmg s) (maxDmg s) ;;
          resolve_turn c false pdamage s
      | block =>
          blk <- rand 10 30 ;;
          resolve_turn c false (- blk) s
      | heal =>
          (if hpotion (inventory s) >? 0
           then set (fun prev => use_potion K_hpotion (with_phealth 100 prev))
           else ret tt) ;;;
          updateFightBars
      | dmg_pot =>
          if dpotion (inventory s) >? 0 then
            x <- rand (minDmg s) (maxDmg s) ;;
            set (use_potion K_dpotion) ;;;
            resolve_turn c false (x + 10) s
          else ret tt
      | lightning =>
          (if lightning_potion (inventory s) >? 0
           then set (use_potion K_lightning_potion)
           else ret tt) ;;;
          updateFightBars
      | sleep =>
          (if sleep_potion (inventory s) >? 0
           then set (use_potion K_sleep_potion)
           else ret tt) ;;;
          updateFightBars
      | poison =>
          (if poison_potion (inventory s) >? 0
           then set (fun prev =>
                  use_potion K_poison_potion
                    (with_fight (with_poisonTurns 3 (fight prev)) prev))
           else ret tt) ;;;
          updateFightBars
      end
  end.

(** The commands of the page. *)
Inductive Command : Type :=
| Sleep
| Tax
| Pay
| Expand
| BuyStack (key : InvKey) (price qty : Z) (name : string)
| BuyWeapon (era wid : Z)
| BuyMerchant
| DismissMerchant
| StartFight (diff : Difficulty)
| PlayerAction (action : Action)
| TogglePolicy (name : string)
| Save.

Definition handler (c : Command) : St -> Handler FightState :=
  match c with
  | Sleep => command_sleep
  | Tax => command_tax
  | Pay => command_pay
  | Expand => command_expand
  | BuyStack key price qty name => buyStack key price qty name
  | BuyWeapon era wid => buyWeapon era wid
  | BuyMerchant => buyMerchant
  | DismissMerchant => dismissMerchant
  | StartFight diff => startFight diff
  | PlayerAction action => playerAction action
  | TogglePolicy name => togglePolicy name
  | Save => save
  end.

(** One command, from the rendered state [s] and the oracle [r]. *)
Definition exec (c : Command) (s : St) (r : Rng) : St := fst (dispatch (handler c) s r).

(** The states of a game: a fresh one, then any commands with any draws. *)
Inductive reachable : St -> Prop :=
| reach_init : forall d, 80 <= d <= 150 -> reachable (initialState d)
| reach_exec : forall s c r, reachable s -> reachable (exec c s r).

(** One command whose first update React computes at once. *)
Definition exec_eager (c : Command) (s : St) (r1 r : Rng) : St :=
  fst (dispatch_eager (handler c) s r1 r).

(** The states of a game, whichever way React runs each command. *)
Inductive played : St -> Prop :=
| played_init : forall d, 80 <= d <= 150 -> played (initialState d)
| played_queued : forall s c r, played s -> played (exec c s r)
| played_eager : forall s c r1 r, played s -> played (exec_eager c s r1 r).

End Main.

(** ** The variant with [fight.over] ([src/unnamed/part_000], from its line
    1500): the gated commands and the fight.  Its [random_event],
    [merchant_event], [command_sleep], [buyStack], [buyWeapon] and
    [buyMerchant] are those of [src/main.tsx]. *)

Module V3.

Record FightState : Type := mkFight {
  cfg : option EnemyCfg;
  stunned : bool;
  poisonTurns : Z;
  over : bool
}.

Definition St : Type := State FightState.

Definition with_stunned (b : bool) (f : FightState) : FightState :=
  mkFight (cfg f) b (poisonTurns f) (over f).

Definition with_poisonTurns (n : Z) (f : FightState) : FightState :=
  mkFight (cfg f) (stunned f) n (over f).

Definition with_over (b : bool) (f : FightState) : FightState :=
  mkFight (cfg f) (stunned f) (poisonTurns f) b.

Definition initialState (death_day : Z) : St :=
  mkState "kingdom name" 1 death_day 999990 5000 0 50 50 50 100 100 3 3 100
    (mkInventory 0 0 0 0 0 0 0 10 0 0 0)
    "Stone Age" "None" 5 15 0 0 0 [] None (-1)
    [(1, 0); (2, 0); (3, 0); (4, 0); (5, 0); (6, 0); (7, 0)]
    Main.initial_policies [] None (mkFight None false 0 false).

(** [can], computed at each render from the state. *)
Definition can_tax (s : St) : bool := (happiness s >=? 1) && (strength s >=? 1).
Definition can_pay (s : St) : bool :=
  (people s >=? 1) && (money s >=? 5) && (strength s >=? 1).
Definition can_expand (s : St) : bool :=
  (number s <? 6) && (money s >=? exmoney s) && (strength s >=? 1).
Definition can_fight (s : St) : bool := strength s >=? 1.

Definition command_tax (s : St) : Handler FightState :=
  if negb (can_tax s) then ret tt
  else
    delta <- rand 1 5 ;;
    set_fn (fun prev =>
      income <- rand 25 50 ;;
      ret (with_strength (Z.max 0 (strength prev - 1))
            (with_money (money prev + income)
              (with_happiness (clamp (happiness prev - delta) 0 100) prev)))) ;;;
    appendLog (cat ["You taxed the people: happiness -"; show delta; "."]) warn.

Definition command_pay (s : St) : Handler FightState :=
  if negb (can_pay s) then ret tt
  else
    set (fun prev =>
      with_strength (Z.max 0 (strength prev - 1))
        (with_happiness (clamp (happiness prev + 5) 0 100)
          (with_money (money prev - 5) prev))) ;;;
    appendLog "You paid the people. Happiness +5." good.

Definition command_expand (s : St) : Handler FightState :=
  if negb (can_expand s) then
    appendLog (if number s >=? 6 then "You are already at the top Age."
               else "You cannot afford to expand or are too exhausted.") muted
  else set_fn expand_updater.

Definition startFight (diff : Difficulty) (s : St) : Handler FightState :=
  if negb (can_fight s) then
    appendLog "Too exhausted to fight. Sleep to restore strength." muted
  else
    set (fun prev =>
      with_fight (mkFight (Some (ENEMY diff)) false 0 false)
        (with_phealth 100
          (with_ehealth (health (ENEMY diff))
            (with_strength (strength prev - 1) prev)))).

(** The updater of [updateFightBars]: the poison tick. *)
Definition poison_tick : Upd FightState :=
  fun prev =>
    match cfg (fight prev) with
    | None => prev
    | Some _ =>
        let e := ehealth prev in
        let t := poisonTurns (fight prev) in
        if (t >? 0) && (e >? 0) then
          with_fight (with_poisonTurns (t - 1) (fight prev))
            (with_ehealth (Z.max 0 (e - 5)) prev)
        else
          with_fight (with_poisonTurns t (fight prev)) (with_ehealth e prev)
    end.

Definition updateFightBars : Handler FightState := set poison_tick.

Definition use_potion (key : InvKey) : Upd FightState :=
  fun prev => with_inventory (inv_set key (inv_get key (inventory prev) - 1) (inventory prev)) prev.

(** The last updater of [playerAction]: the settlement. *)
Definition settle (c : EnemyCfg) : Updater FightState :=
  fun prev =>
    if (ehealth prev <=? 0) || (phealth prev <=? 0) then
      if ehealth prev <=? 0 then
        reward <- rand (coins_min c) (coins_max c) ;;
        ret (with_fight (with_over true (fight prev))
              (with_wfight (wfight prev + 1) (with_money (money prev + reward) prev)))
      else
        ret (with_fight (with_over true (fight prev))
              (with_lfight (lfight prev + 1) prev))
    else ret prev.

Definition resolve_turn (c : EnemyCfg) (stunnedNow : bool) (pdamage : Z) (s : St)
  : Handler FightState :=
  (if pdamage >=? 0
   then set (fun prev => with_ehealth (Z.max 0 (ehealth prev - pdamage)) prev)
   else ret tt) ;;;
  (if stunned (fight s) then
     set (fun prev => with_fight (with_stunned false (fight prev)) prev)
   else
     raw <- rand (damage_min c) (damage_max c) ;;
     let edmg := if pdamage <? 0 then Z.max 0 (raw + pdamage) else raw in
     set (fun prev => with_phealth (Z.max 0 (phealth prev - edmg)) prev)) ;;;
  (if stunnedNow
   then set (fun prev => with_fight (with_stunned true (fight prev)) prev)
   else ret tt) ;;;
  updateFightBars ;;;
  set_fn (settle c).

Definition playerAction (action : Main.Action) (s : St) : Handler FightState :=
  match cfg (fight s) with
  | None => ret tt
  | Some c =>
      if over (fight s) then ret tt
      else
        match action with
        | Main.strike =>
            pdamage <- rand (minDmg s) (maxDmg s) ;;
            resolve_turn c false pdamage s
        | Main.block =>
            blk <- rand 10 30 ;;
            resolve_turn c false (- blk) s
        | Main.heal =>
            (if hpotion (inventory s) >? 0
             then set (fun prev => use_potion K_hpotion (with_phealth 100 prev))
             else ret tt) ;;;
            updateFightBars
        | Main.dmg_pot =>
            if dpotion (inventory s) >? 0 then
              x <- rand (minDmg s) (maxDmg s) ;;
              set (use_potion K_dpotion) ;;;
              resolve_turn c false (x + 10) s
            else ret tt
        | Main.lightning =>
            (if lightning_potion (inventory s) >? 0
             then set (use_potion K_lightning_potion)
             else ret tt) ;;;
            updateFightBars
        | Main.sleep =>
            (if sleep_potion (inventory s) >? 0
             then set (use_potion K_sleep_potion)
             else ret tt) ;;;
            updateFightBars
        | Main.poison =>
            (if poison_potion (inventory s) >? 0
             then set (fun prev =>
                    use_potion K_poison_potion
                      (with_fight (with_poisonTurns 3 (fight prev)) prev))
             else ret tt) ;;;
            updateFightBars
        end
  end.

Definition handler (c : Main.Command) : St -> Handler FightState :=
  match c with
  | Main.Sleep => command_sleep
  | Main.Tax => command_tax
  | Main.Pay => command_pay
  | Main.Expand => command_expand
  | Main.BuyStack key price qty name => buyStack key price qty name
  | Main.BuyWeapon era wid => buyWeapon era wid
  | Main.BuyMerchant => buyMerchant
  | Main.DismissMerchant => dismissMerchant
  | Main.StartFight diff => startFight diff
  | Main.PlayerAction action => playerAction action
  | Main.TogglePolicy name => togglePolicy name
  | Main.Save => save
  end.

Definition exec (c : Main.Command) (s : St) (r : Rng) : St := fst (dispatch (handler c) s r).

Inductive reachable : St -> Prop :=
| reach_init : forall d, 80 <= d <= 150 -> reachable (initialState d)
| reach_exec : forall s c r, reachable s -> reachable (exec c s r).

End V3.

(** ** The quantity box of the shop

    [ShopRow] keeps [Math.max(1, Number(value))] of what is typed in its
    box: a number from 1 up, whole or not.  [buyStack] adds it to the
    counter, and a potion action tests the counter against 0 and takes 1
    off.  In binary64: *)

Module Fraction.

(** [Math.max(1, v)]. *)
Definition quantity (v : float) : float :=
  if PrimFloat.ltb v 1 then 1%float else v.

(** [prev.inventory[key] + qty]. *)
Definition stocked (counter qty : float) : float := PrimFloat.add counter qty.

(** [if (s.inventory.hpotion > 0) ... hpotion: prev.inventory.hpotion - 1]. *)
Definition potion_used (counter : float) : float :=
  if PrimFloat.ltb 0 counter then PrimFloat.sub counter 1 else counter.

End Fraction.

(** ** Persistence

    [save] writes [JSON.stringify(s)] and [load] installs [JSON.parse(raw)].
    The object graph of a state is a JSON value; [JSON_stringify] is the
    compact text that [JSON.stringify] writes for it, and [JSON_parse] reads
    the compact form back (integers only, escapes up to [\u007f]; anything
    else is rejected).  Strings are sequences of bytes; bytes above 127 are
    copied as they are. *)

#[local] Unset Elimination Schemes.

Inductive json : Type :=
| JNull
| JBool (b : bool)
| JNum (z : Z)
| JStr (s : string)
| JArr (l : list json)
| JObj (l : list (string * json)).

#[local] Set Elimination Schemes.

Definition dquote : ascii := Eval cbv in ascii_of_nat 34.
Definition backslash : ascii := Eval cbv in ascii_of_nat 92.

Definition hex_digit (n : nat) : ascii :=
  nth n ["0"; "1"; "2"; "3"; "4"; "5"; "6"; "7"; "8"; "9"; "a"; "b"; "c"; "d"; "e"; "f"]%char
    "0"%char.

(** [QuoteJSONString], one character. *)
Definition escape_char (c : ascii) : string :=
  let n := nat_of_ascii c in
  if Ascii.eqb c dquote then String backslash (String dquote EmptyString)
  else if Ascii.eqb c backslash then String backslash (String backslash EmptyString)
  else if (n =? 8)%nat then String backslash "b"
  else if (n =? 12)%nat then String backslash "f"
  else if (n =? 10)%nat then String backslash "n"
  else if (n =? 13)%nat then String backslash "r"
  else if (n =? 9)%nat then String backslash "t"
  else if (n <? 32)%nat then
    String backslash
      (String "u" (String "0" (String "0"
         (String (hex_digit (n / 16)) (String (hex_digit (n mod 16)) EmptyString)))))
  else String c EmptyString.

Fixpoint escape_string (s : string) : string :=
  match s with
  | EmptyString => EmptyString
  | String c s' => String.append (escape_char c) (escape_string s')
  end.

Definition quote (s : string) : string :=
  String dquote (String.append (escape_string s) (String dquote EmptyString)).

(** The elements of an array or the members of an object, comma-separated. *)
Fixpoint join (l : list string) : string :=
  match l with
  | [] => EmptyString
  | [x] => x
  | x :: l' => String.append x (String "," (join l'))
  end.

Fixpoint JSON_stringify (j : json) : string :=
  match j with
  | JNull => "null"
  | JBool true => "true"
  | JBool false => "false"
  | JNum z => show z
  | JStr s => quote s
  | JArr l => String "[" (String.append (join (map JSON_stringify l)) "]")
  | JObj l =>
      String "{"
        (String.append
           (join (map (fun kv => String.append (quote (fst kv))
                                   (String ":" (JSON_stringify (snd kv)))) l))
           "}")
  end.

(** *** Reading *)

Definition hex_value (c : ascii) : option nat :=
  let n := nat_of_ascii c in
  if (48 <=? n)%nat && (n <=? 57)%nat then Some (n - 48)%nat
  else if (97 <=? n)%nat && (n <=? 102)%nat then Some (n - 87)%nat
  else if (65 <=? n)%nat && (n <=? 70)%nat then Some (n - 55)%nat
  else None.

Definition cons_char (c : ascii) (r : option (string * string)) : option (string * string) :=
  match r with
  | Some (str, tail) => Some (String c str, tail)
  | None => None
  end.

(** The characters of a string literal, after its opening quote. *)
Fixpoint parse_chars (s : string) : option (string * string) :=
  match s with
  | EmptyString => None
  | String c s1 =>
      if Ascii.eqb c dquote then Some (EmptyString, s1)
      else if Ascii.eqb c backslash then
        match s1 with
        | EmptyString => None
        | String e s2 =>
            if Ascii.eqb e dquote then cons_char dquote (parse_chars s2)
            else if Ascii.eqb e backslash then cons_char backslash (parse_chars s2)
            else if Ascii.eqb e "/" then cons_char "/" (parse_chars s2)
            else if Ascii.eqb e "b" then cons_char (ascii_of_nat 8) (parse_chars s2)
            else if Ascii.eqb e "f" then cons_char (ascii_of_nat 12) (parse_chars s2)
            else if Ascii.eqb e "n" then cons_char (ascii_of_nat 10) (parse_chars s2)
            else if Ascii.eqb e "r" then cons_char (ascii_of_nat 13) (parse_chars s2)
            else if Ascii.eqb e "t" then cons_char (ascii_of_nat 9) (parse_chars s2)
            else if Ascii.eqb e "u" then
              match s2 with
              | String h1 (String h2 (String h3 (String h4 s3))) =>
                  match hex_value h1, hex_value h2, hex_value h3, hex_value h4 with
                  | Some a, Some b, Some c', Some d =>
                      let n := (((a * 16 + b) * 16 + c') * 16 + d)%nat in
                      if (n <? 128)%nat then cons_char (ascii_of_nat n) (parse_chars s3)
                      else None
                  | _, _, _, _ => None
                  end
              | _ => None
              end
            else None
        end
      else if (nat_of_ascii c <? 32)%nat then None
      else cons_char c (parse_chars s1)
  end.

Definition digit_of_char (c : ascii) (d : Decimal.uint) : option Decimal.uint :=
  uint_of_char c (Some d).

(** The longest run of digits at the head of [s]. *)
Fixpoint parse_digits (s : string) : Decimal.uint * string :=
  match s with
  | EmptyString => (Decimal.Nil, EmptyString)
  | String c s' =>
      match digit_of_char c Decimal.Nil with
      | None => (Decimal.Nil, s)
      | Some _ =>
          let (d, tail) := parse_digits s' in
          match digit_of_char c d with
          | Some d' => (d', tail)
          | None => (Decimal.Nil, s)
          end
      end
  end.

Definition parse_number (s : string) : option (Z * string) :=
  match s with
  | String "-" s' =>
      match parse_digits s' with
      | (Decimal.Nil, _) => None
      | (d, tail) => Some (Z.of_int (Decimal.Neg d), tail)
      end
  | _ =>
      match parse_digits s with
      | (Decimal.Nil, _) => None
      | (d, tail) => Some (Z.of_int (Decimal.Pos d), tail)
      end
  end.

(** [s] after the word [w], if it starts with it. *)
Fixpoint expect (w s : string) : option string :=
  match w with
  | EmptyString => Some s
  | String c w' =>
      match s with
      | String c' s' => if Ascii.eqb c c' then expect w' s' else None
      | EmptyString => None
      end
  end.

Definition head_is (c : ascii) (s : string) : bool :=
  match s with
  | String c' _ => Ascii.eqb c' c
  | EmptyString => false
  end.

Definition string_tail (s : string) : string :=
  match s with
  | String _ s' => s'
  | EmptyString => EmptyString
  end.

(** An object from its members in the order read, a repeated key keeping
    its first place and its last value. *)
Definition build_object (l : list (string * json)) : list (string * json) :=
  fold_left (fun o kv => assign (fst kv) (snd kv) o) l [].

Fixpoint parse_value (fuel : nat) (s : string) : option (json * string) :=
  match fuel with
  | O => None
  | S fuel' =>
      match s with
      | EmptyString => None
      | String c s1 =>
          if Ascii.eqb c "n" then
            match expect "ull" s1 with Some tail => Some (JNull, tail) | None => None end
          else if Ascii.eqb c "t" then
            match expect "rue" s1 with Some tail => Some (JBool true, tail) | None => None end
          else if Ascii.eqb c "f" then
            match expect "alse" s1 with Some tail => Some (JBool false, tail) | None => None end
          else if Ascii.eqb c dquote then
            match parse_chars s1 with
            | Some (str, tail) => Some (JStr str, tail)
            | None => None
            end
          else if Ascii.eqb c "[" then
            if head_is "]" s1 then Some (JArr [], string_tail s1)
            else
              match parse_elements fuel' s1 with
              | Some (l, tail) => Some (JArr l, tail)
              | None => None
              end
          else if Ascii.eqb c "{" then
            if head_is "}" s1 then Some (JObj [], string_tail s1)
            else
              match parse_members fuel' s1 with
              | Some (l, tail) => Some (JObj (build_object l), tail)
              | None => None
              end
          else
            match parse_number s with
            | Some (z, tail) => Some (JNum z, tail)
            | None => None
            end
      end
  end
with parse_elements (fuel : nat) (s : string) : option (list json * string) :=
  match fuel with
  | O => None
  | S fuel' =>
      match parse_value fuel' s with
      | Some (v, String c tail) =>
          if Ascii.eqb c "," then
            match parse_elements fuel' tail with
            | Some (l, tail') => Some (v :: l, tail')
            | None => None
            end
          else if Ascii.eqb c "]" then Some ([v], tail)
          else None
      | _ => None
      end
  end
with parse_members (fuel : nat) (s : string) : option (list (string * json) * string) :=
  match fuel with
  | O => None
  | S fuel' =>
      match s with
      | String q s1 =>
          if Ascii.eqb q dquote then
            match parse_chars s1 with
            | Some (k, String colon s2) =>
                if Ascii.eqb colon ":" then
                  match parse_value fuel' s2 with
                  | Some (v, String c tail) =>
                      if Ascii.eqb c "," then
                        match parse_members fuel' tail with
                        | Some (l, tail') => Some ((k, v) :: l, tail')
                        | None => None
                        end
                      else if Ascii.eqb c "}" then Some ([(k, v)], tail)
                      else None
                  | _ => None
                  end
                else None
            | _ => None
            end
          else None
      | EmptyString => None
      end
  end.

Definition JSON_parse (s : string) : option json :=
  match parse_value (S (String.length s)) s with
  | Some (j, EmptyString) => Some j
  | _ => None
  end.

(** *** The state as a JSON value *)

Definition json_of_option {A} (f : A -> json) (o : option A) : json :=
  match o with Some a => f a | None => JNull end.

Definition json_of_tag (t : Tag) : json :=
  JStr match t with
       | event => "event" | good => "good" | warn => "warn" | danger => "danger"
       | system => "system" | merchant => "merchant" | muted => "muted"
       end.

Definition json_of_log (e : LogEntry.t) : json :=
  JObj [("text", JStr (LogEntry.text e)); ("tag", json_of_tag (LogEntry.tag e));
        ("id", JNum (LogEntry.id e))].

Definition json_of_cfg (c : EnemyCfg) : json :=
  JObj [("health", JNum (health c)); ("damage_min", JNum (damage_min c));
        ("damage_max", JNum (damage_max c)); ("coins_min", JNum (coins_min c));
        ("coins_max", JNum (coins_max c))].

Definition json_of_policy (p : Policy) : json :=
  JObj [("locked", JBool (locked p)); ("active", JBool (active p)); ("desc", JStr (desc p))].

Definition json_of_inventory (i : Inventory) : json :=
  JObj [("hpotion", JNum (hpotion i)); ("dpotion", JNum (dpotion i));
        ("mpotion", JNum (mpotion i)); ("spotion", JNum (spotion i));
        ("lightning_potion", JNum (lightning_potion i));
        ("sleep_potion", JNum (sleep_potion i));
        ("poison_potion", JNum (poison_potion i));
        ("bread", JNum (bread i)); ("meat", JNum (meat i));
        ("fruit", JNum (fruit i)); ("cheese", JNum (cheese i))].

Definition json_of_effect (e : Effect) : json :=
  JStr match e with eff_happiness => "happiness" | eff_maxstrength => "maxstrength" end.

Definition json_of_offer (p : MerchantOffer) : json :=
  match p with
  | WeaponOffer name bonus price =>
      JObj [("kind", JStr "weapon"); ("name", JStr name); ("bonus", JNum bonus);
            ("price", JNum price)]
  | UniqueOffer name effect value price =>
      JObj [("kind", JStr "unique"); ("name", JStr name);
            ("effect", json_of_option json_of_effect effect);
            ("value", JNum value); ("price", JNum price)]
  end.

Definition json_of_state {F} (json_of_fight : F -> json) (s : State F) : json :=
  JObj [("name", JStr (name s)); ("day", JNum (day s)); ("death_day", JNum (death_day s));
        ("money", JNum (money s)); ("exmoney", JNum (exmoney s)); ("pmoney", JNum (pmoney s));
        ("people", JNum (people s)); ("maxpeople", JNum (maxpeople s));
        ("happiness", JNum (happiness s)); ("phealth", JNum (phealth s));
        ("maxphealth", JNum (maxphealth s)); ("strength", JNum (strength s));
        ("maxstrength", JNum (maxstrength s)); ("ehealth", JNum (ehealth s));
        ("inventory", json_of_inventory (inventory s));
        ("currentEra", JStr (currentEra s)); ("currentSword", JStr (currentSword s));
        ("minDmg", JNum (minDmg s)); ("maxDmg", JNum (maxDmg s));
        ("wfight", JNum (wfight s)); ("lfight", JNum (lfight s));
        ("merchant_relationship", JNum (merchant_relationship s));
        ("merchant_weapon_log",
           JObj (map (fun kv => (fst kv, JBool (snd kv))) (merchant_weapon_log s)));
        ("last_merchant_offer_type", json_of_option JStr (last_merchant_offer_type s));
        ("number", JNum (number s));
        ("owned_weapon",
           JObj (map (fun kv => (show (fst kv), JNum (snd kv))) (owned_weapon s)));
        ("policies",
           JObj (map (fun kv => (fst kv, json_of_policy (snd kv))) (policies s)));
        ("logs", JArr (map json_of_log (logs s)));
        ("pendingMerchant", json_of_option json_of_offer (pendingMerchant s));
        ("fight", json_of_fight (fight s))].

(** [JSON.stringify(s)] and [JSON.parse(raw)] on the state of [src/main.tsx]. *)
Definition json_of_fight (f : Main.FightState) : json :=
  JObj [("cfg", json_of_option json_of_cfg (Main.cfg f)); ("stunned", JBool (Main.stunned f));
        ("poisonTurns", JNum (Main.poisonTurns f))].

Definition to_json (s : Main.St) : json := json_of_state json_of_fight s.

Definition serialize (s : Main.St) : string := JSON_stringify (to_json s).

(** * Predicates of the verification

    What the theorems below are stated with: the weakest-precondition
    calculus of the queue monad, the invariants, the buckets of the resolver
    in the words of the specification, the prices, and the concrete games
    used as examples. *)

(** ** A weakest-precondition calculus for the queue monad *)

Section WpDef.
Context {Q : Type}.

(** [wp c post qpost]: whatever the draws, the value of [c] satisfies [post]
    and every update it enqueues satisfies [qpost]. *)
Definition wp {A} (c : W Q A) (post : A -> Prop) (qpost : Q -> Prop) : Prop :=
  forall r, post (val (c r)) /\ Forall qpost (queued (c r)).

End WpDef.

(** ** Invariants through [dispatch] *)

Section PreservationDef.
Context {F : Type}.
Variable P : State F -> Prop.

Definition preserves (f : Upd F) : Prop := forall x, P x -> P (f x).

Definition updater_ok (u : Updater F) : Prop :=
  forall x, P x -> wp (u x) P preserves.

Definition handler_ok (h : Handler F) : Prop :=
  wp h (fun _ => True) updater_ok.

End PreservationDef.

(** ** The numeric invariant *)

Definition inv_nonneg (i : Inventory) : Prop :=
  0 <= hpotion i /\ 0 <= dpotion i /\ 0 <= mpotion i /\ 0 <= spotion i /\
  0 <= lightning_potion i /\ 0 <= sleep_potion i /\ 0 <= poison_potion i /\
  0 <= bread i /\ 0 <= meat i /\ 0 <= fruit i /\ 0 <= cheese i.

Section InvariantDef.
Context {F : Type}.

(** [cap f]: the health of the enemy of the fight [f]; [fight_ok f]: what
    the variant keeps true of its fight record. *)
Variable cap : F -> Z.
Variable fight_ok : F -> Prop.

Definition Inv (s : State F) : Prop :=
  0 <= happiness s <= 100 /\
  0 <= phealth s <= 100 /\
  0 <= ehealth s <= cap (fight s) /\
  fight_ok (fight s) /\
  inv_nonneg (inventory s) /\
  strength s <= maxstrength s /\
  0 <= maxstrength s /\
  0 <= people s /\
  0 <= maxpeople s.

End InvariantDef.

Arguments Inv {F} cap fight_ok s.

Module MainInv.
Import Main.

Definition enemy_cap (f : FightState) : Z :=
  match cfg f with Some c => health c | None => 100 end.

Definition cfg_known (f : FightState) : Prop :=
  forall c, cfg f = Some c -> exists d, c = ENEMY d.

(** The invariant of [src/main.tsx]. *)
Definition MInv : St -> Prop := Inv enemy_cap cfg_known.

End MainInv.

(** ** The keys of the three maps of the ledger, and the merchant's standing *)

Section KeyInvariantDef.
Context {F : Type}.

(** [pk]: the policy names of the variant. *)
Variable pk : list string.

(** The policies are the ones of [pk], no key of a map is repeated, and the
    standing with the merchant is between 0 and 5. *)
Definition Keys (s : State F) : Prop :=
  map fst (policies s) = pk /\
  NoDup (map fst (merchant_weapon_log s)) /\
  NoDup (map fst (owned_weapon s)) /\
  0 <= merchant_relationship s <= 5.

End KeyInvariantDef.

(** The policy names of [src/main.tsx]. *)
Definition policy_keys : list string := map fst Main.initial_policies.

Definition MKeys : Main.St -> Prop := Keys policy_keys.

(** ** The random-event resolver, bucket by bucket *)

(** The buckets of the resolver, in the words of the specification. *)
Inductive Bucket : Type :=
| Protest | RogueFaction | MerchantVisit | Disaster | RoyalDecision
| Relic | PolicyUnlock | Festival | Treasure | CalmDay.

(** The inclusive ranges 1-10, 11-20, 21-30, 31-40, 41-50, 51-55, 56-60,
    61-70, 71-80 and 81-100. *)
Definition bucket_of (roll : Z) : Bucket :=
  if roll <=? 10 then Protest
  else if roll <=? 20 then RogueFaction
  else if roll <=? 30 then MerchantVisit
  else if roll <=? 40 then Disaster
  else if roll <=? 50 then RoyalDecision
  else if roll <=? 55 then Relic
  else if roll <=? 60 then PolicyUnlock
  else if roll <=? 70 then Festival
  else if roll <=? 80 then Treasure
  else CalmDay.

Section BucketsDef.
Context {F : Type}.
Implicit Types s : State F.

(** Two ledgers that differ at most by their log. *)
Definition same_ledger s1 s2 : Prop := with_logs [] s1 = with_logs [] s2.


(** [s'] is [s] with exactly one entry appended to the log. *)
Definition one_entry (text : string) (tag : Tag) s s' : Prop :=
  logs s' = slice_last 600 (logs s ++ [LogEntry.mk text tag (next_log_id (logs s))]).

End BucketsDef.

(** The tags that carry a valence. *)
Definition valence (t : Tag) : Prop :=
  t = good \/ t = warn \/ t = danger \/ t = system \/ t = muted.

(** ** The merchant *)

(** Every name the merchant can offer, with its base price. *)
Definition base_prices : list (string * Z) :=
  map (fun w => (Catalog.name w, Catalog.price w)) (flat_map snd MERCHANT_BY_ERA)
  ++ map (fun p => (offer_name p, offer_price p)) RARE_ITEMS.

(** The discount in exact integer arithmetic:
    [base - floor(base * discPct / 100)]. *)
Definition exact_final (base discPct : Z) : Z := base - (base * discPct) / 100.

(** [Math.floor(base * (discPct / 100))] as binary64 computes it. *)
Definition float_discount (base discPct : Z) : Z :=
  Math_floor (PrimFloat.mul (float_of_Z base)
                (PrimFloat.div (float_of_Z discPct) (float_of_Z 100))).

Definition relationships : list Z := [0; 1; 2; 3; 4; 5].

(** The entry that a refused purchase appends to the log [l]. *)
Definition refusal (l : list LogEntry.t) : LogEntry.t :=
  LogEntry.mk "You cannot afford it." warn (next_log_id l).

(** ** The combat resolver *)

(** The four actions that end the turn without an enemy attack. *)
Definition short_circuit (a : Main.Action) : Prop :=
  a = Main.heal \/ a = Main.lightning \/ a = Main.sleep \/ a = Main.poison.

(** The potion an action spends and what it does besides, [src/main.tsx]. *)
Definition main_potion_effect (a : Main.Action) (s : Main.St) : Main.St :=
  match a with
  | Main.heal =>
      if hpotion (inventory s) >? 0
      then Main.use_potion K_hpotion (with_phealth 100 s) else s
  | Main.lightning =>
      if lightning_potion (inventory s) >? 0
      then Main.use_potion K_lightning_potion s else s
  | Main.sleep =>
      if sleep_potion (inventory s) >? 0
      then Main.use_potion K_sleep_potion s else s
  | Main.poison =>
      if poison_potion (inventory s) >? 0
      then Main.use_potion K_poison_potion
             (with_fight (Main.with_poisonTurns 3 (fight s)) s)
      else s
  | _ => s
  end.

(** The same for the variant with the [over] flag. *)
Definition v3_potion_effect (a : Main.Action) (s : V3.St) : V3.St :=
  match a with
  | Main.heal =>
      if hpotion (inventory s) >? 0
      then V3.use_potion K_hpotion (with_phealth 100 s) else s
  | Main.lightning =>
      if lightning_potion (inventory s) >? 0
      then V3.use_potion K_lightning_potion s else s
  | Main.sleep =>
      if sleep_potion (inventory s) >? 0
      then V3.use_potion K_sleep_potion s else s
  | Main.poison =>
      if poison_potion (inventory s) >? 0
      then V3.use_potion K_poison_potion
             (with_fight (V3.with_poisonTurns 3 (fight s)) s)
      else s
  | _ => s
  end.




(** ** The order of Sleep *)

Section SleepOrderDef.
Context {F : Type}.
Implicit Types s prev next : State F.

(** The order the specification gives to Sleep: food, then the resolver on
    the ledger after the food, then the policy upkeep, the death-day line
    last.  (The daily incident is kept next to the food, where the code has
    it.) *)
Definition sleep_as_specified s (r : Rng) : State F :=
  let a := consume_food s r in
  let b := daily_incident (val a) (rest a) in
  let e := dispatch random_event (val b) (rest b) in
  let u := policy_upkeep (fst e) (snd e) in
  let d := apply_all (queued a ++ queued b ++ queued u) (val u) in
  if day d >=? death_day d
  then appendLog_upd "Your time has come. Your kingdom now lives on in legend." danger d
  else d.

(** The state on which the resolver's updaters run. *)
Definition after_upkeep s (r : Rng) : Out (Upd F) (State F) :=
  sleep_updater s (rest (random_event s r)).

(** The update that the death-day check issues. *)
Definition terminal_line : Upd F :=
  appendLog_upd "Your time has come. Your kingdom now lives on in legend." danger.

(** An updater that issues no update of its own. *)
Definition quiet (u : Updater F) : Prop := forall x r, queued (u x r) = [].

(** Updates whose effect on the log depends on the log alone. *)
Definition log_blind_upd (f : Upd F) : Prop :=
  forall x y : State F, logs x = logs y -> logs (f x) = logs (f y).

Definition log_blind (u : Updater F) : Prop :=
  forall (x y : State F) r, logs x = logs y ->
    logs (val (u x r)) = logs (val (u y r)) /\
    queued (u x r) = queued (u y r) /\
    rest (u x r) = rest (u y r) /\
    Forall log_blind_upd (queued (u x r)).

End SleepOrderDef.

(** ** Concrete runs *)

Module Runs.
Import Main.

(** A game that ends up without money and with Charity Relief active: a
    night that unlocks the policy, two hungry nights, a tax that empties the
    treasury, the policy switched on. *)
Definition charity_state : St :=
  exec (TogglePolicy "Charity Relief")
    (exec Tax
       (exec Sleep
          (exec Sleep
             (exec Sleep (initialState 100) [55; 1; 50])
             [90; 50])
          [90; 50])
       [])
    [].

(** Draws that give a treasure of 275 and no daily incident, in either order. *)
Definition treasure_draws : Rng := [75; 75; 75].

(** An Easy fight won by seven strikes of 15. *)
Definition strike15 : Rng := [10; 0; 0].

Definition won_fight : St :=
  fold_left (fun x _ => exec (PlayerAction strike) x strike15)
    (repeat tt 7) (exec (StartFight EASY) (initialState 100) []).

(** Eight nights, each unlocking one policy. *)
Definition unlock_draws : Rng := [55; 0; 50].

Definition all_unlocked : St :=
  fold_left (fun x _ => exec Sleep x unlock_draws) (repeat tt 8) (initialState 100).

(** The eve of the day of death. *)
Definition last_night : St := with_day 99 (initialState 100).

(** A pending Ancient Scroll and an empty purse. *)
Definition broke_with_offer : St :=
  with_money 0
    (with_pendingMerchant (Some (UniqueOffer "Ancient Scroll" (Some eff_maxstrength) 1 1000))
       (initialState 100)).

(** A started fight with one health potion in stock. *)
Definition hurt_with_potion : St :=
  with_phealth 40
    (with_inventory (inv_set K_hpotion 1 (inventory (initialState 100)))
       (exec (StartFight EASY) (initialState 100) [])).

Definition hurt_with_potion_v3 : V3.St :=
  with_phealth 40
    (with_inventory (inv_set K_hpotion 1 (inventory (V3.initialState 100)))
       (V3.exec (StartFight EASY) (V3.initialState 100) [])).

End Runs.

(** ** JSON values without a repeated key *)

(** Induction on a value, with the values of an array or an object. *)
Section JsonInduction.
Variable P : json -> Prop.
Hypothesis Hnull : P JNull.
Hypothesis Hbool : forall b, P (JBool b).
Hypothesis Hnum : forall z, P (JNum z).
Hypothesis Hstr : forall s, P (JStr s).
Hypothesis Harr : forall l, Forall P l -> P (JArr l).
Hypothesis Hobj : forall l, Forall (fun kv => P (snd kv)) l -> P (JObj l).

Fixpoint json_induction (j : json) : P j :=
  match j with
  | JNull => Hnull
  | JBool b => Hbool b
  | JNum z => Hnum z
  | JStr s => Hstr s
  | JArr l =>
      Harr l ((fix go (l : list json) : Forall P l :=
                 match l with
                 | [] => Forall_nil _
                 | x :: l' => Forall_cons x (json_induction x) (go l')
                 end) l)
  | JObj l =>
      Hobj l ((fix go (l : list (string * json)) : Forall (fun kv => P (snd kv)) l :=
                 match l with
                 | [] => Forall_nil _
                 | kv :: l' => Forall_cons kv (json_induction (snd kv)) (go l')
                 end) l)
  end.
End JsonInduction.

(** Objects without a repeated key, at every depth. *)
Fixpoint wf_json (j : json) : Prop :=
  match j with
  | JArr l => (fix all (l : list json) : Prop :=
                 match l with [] => True | x :: l' => wf_json x /\ all l' end) l
  | JObj l => NoDup (map fst l) /\
              (fix all (l : list (string * json)) : Prop :=
                 match l with [] => True | kv :: l' => wf_json (snd kv) /\ all l' end) l
  | _ => True
  end.

(** The text that follows a value does not go on with a digit. *)
Definition no_digit (s : string) : Prop :=
  match s with
  | EmptyString => True
  | String c _ => digit_of_char c Decimal.Nil = None
  end.

(** What the induction proves of a value: with fuel above the length of
    its text, the text is read back as the value, up to the tail. *)
Definition reads_back (j : json) : Prop :=
  wf_json j ->
  forall tail fuel,
    no_digit tail ->
    (String.length (JSON_stringify j) < fuel)%nat ->
    parse_value fuel (String.append (JSON_stringify j) tail) = Some (j, tail).

(** The text of one member of an object. *)
Definition member_text (kv : string * json) : string :=
  String.append (quote (fst kv)) (String ":" (JSON_stringify (snd kv))).

(** * More of the ledger: bookkeeping

    What follows covers parts of the code that the properties above leave
    aside: the discipline of the log, the books of the eras, the treasury,
    the calendar, the shop, the policies panel, the merchant's choice of an
    offer, persistence, and the gated variant. *)

(** ** The log *)

(** The ids of a log grow from each entry to the next. *)
Definition ids_increasing (l : list LogEntry.t) : Prop :=
  forall i j a b, (i < j)%nat -> nth_error l i = Some a -> nth_error l j = Some b ->
    LogEntry.id a < LogEntry.id b.

(** A log as [appendLog] keeps it: at most 600 entries, ids from 1 upwards
    and growing. *)
Definition log_ok (l : list LogEntry.t) : Prop :=
  (List.length l <= 600)%nat /\ ids_increasing l /\
  (forall e, In e l -> 1 <= LogEntry.id e).

(** ** The books of the eras *)

(** The era reached after [number + 1] expansions: [ERAS], with the last
    era for whatever comes after. *)
Definition era_name (number : Z) : string :=
  nth (Z.to_nat (number + 1)) ("Stone Age" :: ERA_SEQ) "Modern Age".

Section BooksDef.
Context {F : Type}.
Implicit Types s : State F.

(** At most seven expansions are made; the price of the next one and the
    room for people double with each, and the era is the one of the count. *)
Definition era_books s : Prop :=
  -1 <= number s <= 6 /\
  exmoney s = 5000 * 2 ^ (number s + 1) /\
  maxpeople s = 50 * 2 ^ (number s + 1) /\
  currentEra s = era_name (number s).

(** No locked policy is active. *)
Definition policies_ok (ps : list (string * Policy)) : Prop :=
  forall k p, In (k, p) ps -> locked p = true -> active p = false.

(** A pending weapon adds to the damage, it takes nothing off. *)
Definition offer_ok (o : option MerchantOffer) : Prop :=
  forall name bonus price, o = Some (WeaponOffer name bonus price) -> 0 < bonus.

Definition Books s : Prop :=
  log_ok (logs s) /\
  era_books s /\
  policies_ok (policies s) /\
  offer_ok (pendingMerchant s) /\
  (5 <= minDmg s /\ maxDmg s = minDmg s + 10) /\
  0 <= money s /\
  0 <= strength s /\
  0 <= maxstrength s.

End BooksDef.

(** ** The calendar *)

Section CalendarDef.
Context {F : Type}.

(** What a night sets: the day [d] and the strength back at its maximum;
    and what no command touches: the day of death and the name. *)
Definition Calendar (d dd : Z) (nm : string) (rested : bool) (x : State F) : Prop :=
  day x = d /\ death_day x = dd /\ name x = nm /\
  (rested = true -> strength x = maxstrength x).

End CalendarDef.

(** A move of a game: a command with its draws and, when React computes the
    first update of the command at once, the draws of that update. *)
Definition Move : Type := Main.Command * option Rng * Rng.

Definition move (x : Main.St) (m : Move) : Main.St :=
  match m with
  | (c, None, r) => Main.exec c x r
  | (c, Some r1, r) => Main.exec_eager c x r1 r
  end.

(** A game: moves from the left. *)
Definition run (l : list Move) (s : Main.St) : Main.St := fold_left move l s.

Definition is_sleep (c : Main.Command) : bool :=
  match c with Main.Sleep => true | _ => false end.


(** ** Persistence: [load], [clearSave] and the cell of [localStorage]

    [load] installs whatever object [JSON.parse] returns.  The embedding
    follows it on the texts that [JSON.stringify] writes and whose value has
    every field of a state, of the expected kind; on any other text it gives
    [None]: the object that JavaScript would install there is no state of
    this development, and whether [JSON.parse] would throw is not decided
    by the fragment of JSON that [JSON_parse] reads. *)

Module Decode.

Definition obind {A B} (o : option A) (f : A -> option B) : option B :=
  match o with Some a => f a | None => None end.

Notation "x <-? c ;; k" := (obind c (fun x => k))
  (at level 61, c at next level, right associativity).

(** [o[k]] on a value. *)
Definition field (k : string) (j : json) : option json :=
  match j with JObj l => lookup k l | _ => None end.

Definition as_num (j : json) : option Z := match j with JNum z => Some z | _ => None end.
Definition as_str (j : json) : option string := match j with JStr s => Some s | _ => None end.
Definition as_bool (j : json) : option bool := match j with JBool b => Some b | _ => None end.

Definition num (k : string) (j : json) : option Z := x <-? field k j ;; as_num x.
Definition str (k : string) (j : json) : option string := x <-? field k j ;; as_str x.
Definition bool_ (k : string) (j : json) : option bool := x <-? field k j ;; as_bool x.

(** A value or [null]. *)
Definition nullable {A} (f : json -> option A) (j : json) : option (option A) :=
  match j with JNull => Some None | _ => option_map Some (f j) end.

Fixpoint all_some {A B} (f : A -> option B) (l : list A) : option (list B) :=
  match l with
  | [] => Some []
  | a :: l' => b <-? f a ;; bs <-? all_some f l' ;; Some (b :: bs)
  end.

(** The members of an object, each value read by [f]. *)
Definition members {A} (f : json -> option A) (j : json) : option (list (string * A)) :=
  match j with
  | JObj l => all_some (fun kv => v <-? f (snd kv) ;; Some (fst kv, v)) l
  | _ => None
  end.

Definition elements {A} (f : json -> option A) (j : json) : option (list A) :=
  match j with JArr l => all_some f l | _ => None end.

(** The number that a property name spells, when it is the name that the
    number gets as a key. *)
Definition key_number (k : string) : option Z :=
  match NilZero.int_of_string k with
  | Some d => if String.eqb (show (Z.of_int d)) k then Some (Z.of_int d) else None
  | None => None
  end.

Definition tag_of_json (j : json) : option Tag :=
  s <-? as_str j ;;
  if String.eqb s "event" then Some event
  else if String.eqb s "good" then Some good
  else if String.eqb s "warn" then Some warn
  else if String.eqb s "danger" then Some danger
  else if String.eqb s "system" then Some system
  else if String.eqb s "merchant" then Some merchant
  else if String.eqb s "muted" then Some muted
  else None.

Definition log_of_json (j : json) : option LogEntry.t :=
  text <-? str "text" j ;;
  tag <-? (x <-? field "tag" j ;; tag_of_json x) ;;
  id <-? num "id" j ;;
  Some (LogEntry.mk text tag id).

Definition cfg_of_json (j : json) : option EnemyCfg :=
  h <-? num "health" j ;;
  dmin <-? num "damage_min" j ;;
  dmax <-? num "damage_max" j ;;
  cmin <-? num "coins_min" j ;;
  cmax <-? num "coins_max" j ;;
  Some (mkEnemyCfg h dmin dmax cmin cmax).

Definition policy_of_json (j : json) : option Policy :=
  l <-? bool_ "locked" j ;;
  a <-? bool_ "active" j ;;
  d <-? str "desc" j ;;
  Some (mkPolicy l a d).

Definition inventory_of_json (j : json) : option Inventory :=
  hp <-? num "hpotion" j ;;
  dp <-? num "dpotion" j ;;
  mp <-? num "mpotion" j ;;
  sp <-? num "spotion" j ;;
  lp <-? num "lightning_potion" j ;;
  sl <-? num "sleep_potion" j ;;
  pp <-? num "poison_potion" j ;;
  br <-? num "bread" j ;;
  me <-? num "meat" j ;;
  fr <-? num "fruit" j ;;
  ch <-? num "cheese" j ;;
  Some (mkInventory hp dp mp sp lp sl pp br me fr ch).

Definition effect_of_json (j : json) : option Effect :=
  s <-? as_str j ;;
  if String.eqb s "happiness" then Some eff_happiness
  else if String.eqb s "maxstrength" then Some eff_maxstrength
  else None.

Definition offer_of_json (j : json) : option MerchantOffer :=
  kind <-? str "kind" j ;;
  if String.eqb kind "weapon" then
    n <-? str "name" j ;;
    b <-? num "bonus" j ;;
    p <-? num "price" j ;;
    Some (WeaponOffer n b p)
  else if String.eqb kind "unique" then
    n <-? str "name" j ;;
    e <-? (x <-? field "effect" j ;; nullable effect_of_json x) ;;
    v <-? num "value" j ;;
    p <-? num "price" j ;;
    Some (UniqueOffer n e v p)
  else None.

Definition fight_of_json (j : json) : option Main.FightState :=
  c <-? (x <-? field "cfg" j ;; nullable cfg_of_json x) ;;
  st <-? bool_ "stunned" j ;;
  pt <-? num "poisonTurns" j ;;
  Some (Main.mkFight c st pt).

Definition owned_of_json (j : json) : option (list (Z * Z)) :=
  l <-? members as_num j ;;
  all_some (fun kv => k <-? key_number (fst kv) ;; Some (k, snd kv)) l.

(** The state that a parsed object is, when it has every field. *)
Definition state_of_json (j : json) : option Main.St :=
  name <-? str "name" j ;;
  day <-? num "day" j ;;
  death_day <-? num "death_day" j ;;
  money <-? num "money" j ;;
  exmoney <-? num "exmoney" j ;;
  pmoney <-? num "pmoney" j ;;
  people <-? num "people" j ;;
  maxpeople <-? num "maxpeople" j ;;
  happiness <-? num "happiness" j ;;
  phealth <-? num "phealth" j ;;
  maxphealth <-? num "maxphealth" j ;;
  strength <-? num "strength" j ;;
  maxstrength <-? num "maxstrength" j ;;
  ehealth <-? num "ehealth" j ;;
  inventory <-? (x <-? field "inventory" j ;; inventory_of_json x) ;;
  currentEra <-? str "currentEra" j ;;
  currentSword <-? str "currentSword" j ;;
  minDmg <-? num "minDmg" j ;;
  maxDmg <-? num "maxDmg" j ;;
  wfight <-? num "wfight" j ;;
  lfight <-? num "lfight" j ;;
  merchant_relationship <-? num "merchant_relationship" j ;;
  merchant_weapon_log <-? (x <-? field "merchant_weapon_log" j ;; members as_bool x) ;;
  last_merchant_offer_type <-?
    (x <-? field "last_merchant_offer_type" j ;; nullable as_str x) ;;
  number <-? num "number" j ;;
  owned_weapon <-? (x <-? field "owned_weapon" j ;; owned_of_json x) ;;
  policies <-? (x <-? field "policies" j ;; members policy_of_json x) ;;
  logs <-? (x <-? field "logs" j ;; elements log_of_json x) ;;
  pendingMerchant <-? (x <-? field "pendingMerchant" j ;; nullable offer_of_json x) ;;
  fight <-? (x <-? field "fight" j ;; fight_of_json x) ;;
  Some (mkState name day death_day money exmoney pmoney people maxpeople happiness phealth
          maxphealth strength maxstrength ehealth inventory currentEra currentSword
          minDmg maxDmg wfight lfight merchant_relationship merchant_weapon_log
          last_merchant_offer_type number owned_weapon policies logs pendingMerchant fight).

End Decode.

Module Persist.
Import Main.

(** [localStorage[SAVE_KEY]]. *)
Definition Storage : Type := option string.

(** [save]: what it leaves in the cell; its log line is [save]. *)
Definition save_cell (s : St) (cell : Storage) : Storage := Some (serialize s).

(** [clearSave]. *)
Definition clearSave_cell (cell : Storage) : Storage := None.

Definition clearSave (s : St) : Handler FightState := appendLog "Save cleared." system.

(** The object that [JSON.parse(raw)] returns, as a state. *)
Definition parsed_state (raw : string) : option St :=
  match JSON_parse raw with
  | Some j => if String.eqb (JSON_stringify j) raw then Decode.state_of_json j else None
  | None => None
  end.

(** [load]; its value is what it returns.  [None] where the cell holds a
    text that is not the JSON of a state: what [JSON.parse] and the component
    make of such a text is outside this model. *)
Definition load (cell : Storage) : option (W (Updater FightState) bool) :=
  match cell with
  | None => Some (appendLog "No save found." system ;;; ret false)
  | Some raw =>
      if String.eqb raw EmptyString then Some (appendLog "No save found." system ;;; ret false)
      else
        match parsed_state raw with
        | Some parsed =>
            Some (set (fun _ => parsed) ;;; appendLog "Game loaded." system ;;; ret true)
        | None => None
        end
  end.

(** A handler that returns a value, run from the rendered state. *)
Definition dispatch_val {A} (h : W (Updater FightState) A) (s : St) (r : Rng) : A * St :=
  let o1 := h r in
  let o2 := run_queue (queued o1) s (rest o1) in
  (val o1, apply_all (queued o2) (val o2)).

End Persist.

(** ** The gated variant *)

Module V3Inv.
Import V3.

Definition enemy_cap (f : FightState) : Z :=
  match cfg f with Some c => health c | None => 100 end.

Definition cfg_known (f : FightState) : Prop :=
  forall c, cfg f = Some c -> exists d, c = ENEMY d.

(** The invariant of the variant: the numeric bounds and the books. *)
Definition VInv (s : St) : Prop := Inv enemy_cap cfg_known s /\ Books s.

(** A command whose first update React computes at once. *)
Definition exec_eager (c : Main.Command) (s : St) (r1 r : Rng) : St :=
  fst (dispatch_eager (handler c) s r1 r).

(** The states of a game of the variant, whichever way React takes. *)
Inductive played : St -> Prop :=
| played_init : forall d, 80 <= d <= 150 -> played (initialState d)
| played_queued : forall s c r, played s -> played (exec c s r)
| played_eager : forall s c r1 r, played s -> played (exec_eager c s r1 r).

End V3Inv.

(** * Properties *)

Arguments show : simpl never.
Arguments cat : simpl never.
Arguments slice_last : simpl never.

(** ** A weakest-precondition calculus for the queue monad *)

Section Wp.
Context {Q : Type}.

Lemma wp_ret {A} (a : A) (post : A -> Prop) (qpost : Q -> Prop) :
  post a -> wp (ret a) post qpost.
Proof. intros H r; split; [exact H | constructor]. Qed.

Lemma wp_bind {A B} (c : W Q A) (k : A -> W Q B) (post : B -> Prop) (qpost : Q -> Prop) :
  wp c (fun a => wp (k a) post qpost) qpost -> wp (bind c k) post qpost.
Proof.
  intros H r. destruct (H r) as [Hk Hq]. destruct (Hk (rest (c r))) as [Hp Hq2].
  split; [exact Hp | apply Forall_app; split; assumption].
Qed.

Lemma wp_Math_random (post : Z -> Prop) (qpost : Q -> Prop) :
  (forall u, post u) -> wp Math_random post qpost.
Proof. intros H r; split; [apply H | constructor]. Qed.

Lemma rand_range (a b u : Z) : a <= b -> a <= a + u mod (b - a + 1) <= b.
Proof. intros H. pose proof (Z.mod_pos_bound u (b - a + 1)). lia. Qed.

Lemma wp_rand (a b : Z) (post : Z -> Prop) (qpost : Q -> Prop) :
  a <= b -> (forall x, a <= x <= b -> post x) -> wp (rand a b) post qpost.
Proof.
  intros Hab H. unfold rand. apply wp_bind, wp_Math_random. intros u.
  apply wp_ret, H, rand_range, Hab.
Qed.

Lemma wp_rand_any (a b : Z) (post : Z -> Prop) (qpost : Q -> Prop) :
  (forall x, post x) -> wp (rand a b) post qpost.
Proof.
  intros H. unfold rand. apply wp_bind, wp_Math_random. intros u. apply wp_ret, H.
Qed.

Lemma wp_random_index (n : nat) (post : nat -> Prop) (qpost : Q -> Prop) :
  (forall i, post i) -> wp (random_index n) post qpost.
Proof.
  intros H. unfold random_index. apply wp_bind, wp_Math_random. intros u.
  apply wp_ret, H.
Qed.

Lemma wp_random_lt_half (post : bool -> Prop) (qpost : Q -> Prop) :
  (forall b, post b) -> wp random_lt_half post qpost.
Proof.
  intros H. unfold random_lt_half. apply wp_bind, wp_Math_random. intros u.
  apply wp_ret, H.
Qed.

Lemma wp_enqueue (q : Q) (post : unit -> Prop) (qpost : Q -> Prop) :
  qpost q -> post tt -> wp (enqueue q) post qpost.
Proof. intros Hq Hp r; split; [exact Hp | repeat constructor; exact Hq]. Qed.

End Wp.

(** ** Invariants through [dispatch] *)

Section Preservation.
Context {F : Type}.
Variable P : State F -> Prop.

Lemma apply_all_preserves (d : list (Upd F)) (s : State F) :
  Forall (preserves P) d -> P s -> P (apply_all d s).
Proof.
  unfold apply_all. revert s. induction d as [|f d IH]; intros s Hd Hs; simpl.
  - exact Hs.
  - inversion Hd; subst. apply IH; auto.
Qed.

Lemma run_queue_preserves (q : list (Updater F)) (s : State F) (r : Rng) :
  Forall (updater_ok P) q -> P s ->
  P (val (run_queue q s r)) /\ Forall (preserves P) (queued (run_queue q s r)).
Proof.
  revert s r. induction q as [|u q IH]; intros s r Hq Hs; simpl.
  - split; [exact Hs | constructor].
  - inversion Hq as [|? ? Hu Hq']; subst.
    destruct (Hu s Hs r) as [H1 H2].
    destruct (IH (val (u s r)) (rest (u s r)) Hq' H1) as [H3 H4].
    split; [exact H3 | apply Forall_app; split; assumption].
Qed.

Lemma dispatch_preserves (h : State F -> Handler F) (s : State F) (r : Rng) :
  (handler_ok P) (h s) -> P s -> P (fst (dispatch h s r)).
Proof.
  intros Hh Hs. unfold dispatch. simpl.
  destruct (Hh r) as [_ Hq].
  destruct (run_queue_preserves (queued (h s r)) s (rest (h s r)) Hq Hs) as [H1 H2].
  apply apply_all_preserves; assumption.
Qed.

Lemma updater_ok_lift (f : Upd F) : (preserves P) f -> (updater_ok P) (lift f).
Proof. intros Hf x Hx. apply wp_ret. apply Hf, Hx. Qed.

Lemma wp_set_handler (f : Upd F) (post : unit -> Prop) :
  (preserves P) f -> post tt -> wp (Q := Updater F) (set f) post (updater_ok P).
Proof. intros Hf Hp. apply wp_enqueue; [apply updater_ok_lift, Hf | exact Hp]. Qed.

Lemma wp_set_updater (f : Upd F) (post : unit -> Prop) :
  (preserves P) f -> post tt -> wp (Q := Upd F) (set f) post (preserves P).
Proof. intros Hf Hp. apply wp_enqueue; [exact Hf | exact Hp]. Qed.

Lemma wp_set_fn (u : Updater F) (post : unit -> Prop) :
  (updater_ok P) u -> post tt -> wp (set_fn u) post (updater_ok P).
Proof. intros Hu Hp. apply wp_enqueue; assumption. Qed.

End Preservation.

Section WpMore.
Context {Q : Type}.

Lemma wp_mono {A} (c : W Q A) (post post' : A -> Prop) (qpost : Q -> Prop) :
  wp c post qpost -> (forall a, post a -> post' a) -> wp c post' qpost.
Proof. intros H Himp r. destruct (H r). split; auto. Qed.

Lemma wp_seq {A B} (mid : A -> Prop) (c : W Q A) (k : A -> W Q B) (post : B -> Prop) (qpost : Q -> Prop) :
  wp c mid qpost -> (forall a, mid a -> wp (k a) post qpost) -> wp (bind c k) post qpost.
Proof. intros Hc Hk. apply wp_bind. eapply wp_mono; [exact Hc | exact Hk]. Qed.

End WpMore.

(** ** The numeric invariant *)

Section Invariant.
Context {F : Type}.

Variable cap : F -> Z.
Variable fight_ok : F -> Prop.

Lemma Inv_appendLog text tag : preserves (Inv cap fight_ok) (appendLog_upd text tag).
Proof. intros x Hx. unfold appendLog_upd, Inv in *. simpl. exact Hx. Qed.

Lemma wp_appendLog_u text tag (post : unit -> Prop) :
  post tt -> wp (Q := Upd F) (appendLog text tag) post (preserves (Inv cap fight_ok)).
Proof. intros Hp. apply wp_set_updater; [apply Inv_appendLog | exact Hp]. Qed.

Lemma wp_appendLog_h text tag (post : unit -> Prop) :
  post tt -> wp (Q := Updater F) (appendLog text tag) post (updater_ok (Inv cap fight_ok)).
Proof. intros Hp. apply wp_set_handler; [apply Inv_appendLog | exact Hp]. Qed.

End Invariant.


Ltac inv_solve :=
  unfold Inv, inv_nonneg, with_bread, clamp in *; simpl in *;
  repeat match goal with H : _ /\ _ |- _ => destruct H end;
  repeat match goal with |- _ /\ _ => split end;
  solve [assumption | lia].

Ltac wp_step :=
  lazymatch goal with
  | |- wp (bind _ _) _ _ => apply wp_bind
  | |- wp (ret _) _ _ => apply wp_ret
  | |- wp (rand _ _) _ _ =>
      first [ apply wp_rand; [lia | intros ? ?]
            | apply wp_rand_any; intros ? ]
  | |- wp random_lt_half _ _ => apply wp_random_lt_half; intros ?
  | |- wp (random_index _) _ _ => apply wp_random_index; intros ?
  | |- wp (appendLog _ _) _ (preserves _) => apply wp_appendLog_u
  | |- wp (appendLog _ _) _ (updater_ok _) => apply wp_appendLog_h
  | |- wp (set _) _ (updater_ok _) => apply wp_set_handler; [intros ? ? | ]
  | |- wp (set _) _ (preserves _) => apply wp_set_updater; [intros ? ? | ]
  | |- wp (set_fn _) _ _ => apply wp_set_fn; [intros ? ? | ]
  | |- wp (showMerchantOffer _) _ _ => unfold showMerchantOffer
  | |- wp (if ?b then _ else _) _ _ => destruct b eqn:?
  | |- wp (match ?x with _ => _ end) _ _ => destruct x eqn:?
  | |- wp (let _ := _ in _) _ _ => cbv zeta
  end.

Ltac wp_go := repeat wp_step; try exact I; try inv_solve.

Section Shared.
Context {F : Type}.
Variable cap : F -> Z.
Variable fight_ok : F -> Prop.
Local Abbreviation InvC := (Inv cap fight_ok).

Lemma consume_food_ok x : InvC x -> wp (consume_food x) InvC (preserves InvC).
Proof.
  intros Hx. unfold consume_food. cbv zeta. wp_go.
Qed.

Lemma daily_incident_ok x : InvC x -> wp (daily_incident x) InvC (preserves InvC).
Proof. intros Hx. unfold daily_incident. wp_go. Qed.

Lemma flavour_lines_ok x : wp (flavour_lines x) (fun _ => True) (preserves InvC).
Proof. unfold flavour_lines. wp_go. Qed.

Lemma policy_upkeep_ok x : InvC x -> wp (policy_upkeep x) InvC (preserves InvC).
Proof.
  intros Hx. unfold policy_upkeep.
  repeat (apply wp_seq with (mid := InvC); [wp_go | clear x Hx; intros x Hx]).
  apply wp_bind. wp_go.
Qed.

Lemma sleep_updater_ok : updater_ok InvC sleep_updater.
Proof.
  intros x Hx. unfold sleep_updater.
  apply wp_seq with (mid := InvC); [apply consume_food_ok, Hx | clear x Hx; intros x Hx].
  apply wp_seq with (mid := InvC); [apply daily_incident_ok, Hx | clear x Hx; intros x Hx].
  apply wp_seq with (mid := fun _ => True); [apply flavour_lines_ok | intros _ _].
  destruct (day x >=? death_day x).
  - wp_go.
  - apply policy_upkeep_ok, Hx.
Qed.

Lemma merchant_event_ok s : handler_ok InvC (merchant_event s).
Proof.
  unfold handler_ok, merchant_event.
  apply wp_seq with (mid := fun _ => True); [wp_go | intros offerType _].
  cbv zeta. wp_go.
Qed.

Lemma random_event_ok s : handler_ok InvC (random_event s).
Proof.
  unfold handler_ok, random_event.
  wp_step. wp_step.
  repeat (lazymatch goal with
          | |- wp (if ?b then _ else _) _ _ => destruct b eqn:?
          end;
          [ try (wp_go; fail) | ]).
  all: try apply merchant_event_ok.
  all: wp_go.
Qed.

Lemma command_sleep_ok s : handler_ok InvC (command_sleep s).
Proof.
  unfold handler_ok, command_sleep. apply wp_bind.
  apply wp_set_fn; [apply sleep_updater_ok | apply random_event_ok].
Qed.

Lemma expand_updater_ok : updater_ok InvC expand_updater.
Proof. intros x Hx. unfold expand_updater. cbv zeta. wp_go. Qed.

Lemma buyStack_ok key price qty name s : handler_ok InvC (buyStack key price qty name s).
Proof.
  unfold handler_ok, buyStack. cbv zeta. wp_go.
  destruct key; inv_solve.
Qed.

Lemma buyWeapon_ok era wid s : handler_ok InvC (buyWeapon era wid s).
Proof. unfold handler_ok, buyWeapon. wp_go. Qed.

Lemma buyMerchant_ok s : handler_ok InvC (buyMerchant s).
Proof.
  unfold handler_ok, buyMerchant. wp_go.
  destruct effect as [[|]|]; inv_solve.
Qed.

Lemma dismissMerchant_ok s : handler_ok InvC (dismissMerchant s).
Proof. unfold handler_ok, dismissMerchant. wp_go. Qed.

Lemma togglePolicy_ok name s : handler_ok InvC (togglePolicy name s).
Proof. unfold handler_ok, togglePolicy. wp_go. Qed.

Lemma save_ok s : handler_ok InvC (save s).
Proof. unfold handler_ok, save. wp_go. Qed.

End Shared.

(** ** [src/main.tsx]: the invariant of the game *)

Section QueueFacts.
Context {F : Type}.

Lemma queued_bind {Q A B} (c : W Q A) (k : A -> W Q B) (r : Rng) :
  queued (bind c k r) = queued (c r) ++ queued (k (val (c r)) (rest (c r))).
Proof. reflexivity. Qed.

(** The first updater of the queue runs on the snapshot itself. *)
Lemma dispatch_first (P : State F -> Prop) (h : State F -> Handler F) s r u q :
  queued (h s r) = u :: q ->
  wp (u s) P (preserves P) ->
  Forall (updater_ok P) q ->
  P (fst (dispatch h s r)).
Proof.
  intros Hq Hu Hrest. unfold dispatch. simpl. rewrite Hq. simpl.
  destruct (Hu (rest (h s r))) as [H1 H2].
  destruct (run_queue_preserves P q _ (rest (u s (rest (h s r)))) Hrest H1) as [H3 H4].
  apply apply_all_preserves; [apply Forall_app; split; assumption | exact H3].
Qed.

End QueueFacts.

Section MainPreservation.
Import Main MainInv.

Lemma command_tax_ok s : handler_ok MInv (command_tax s).
Proof. unfold handler_ok, command_tax, MInv. wp_go. Qed.

Lemma command_pay_ok s : handler_ok MInv (command_pay s).
Proof. unfold handler_ok, command_pay, MInv. wp_go. Qed.

Lemma command_expand_ok s : handler_ok MInv (command_expand s).
Proof.
  unfold handler_ok, command_expand, MInv. wp_go.
  apply expand_updater_ok; assumption.
Qed.

Lemma startFight_ok diff s : handler_ok MInv (startFight diff s).
Proof.
  unfold handler_ok, startFight, MInv. wp_go.
  unfold Inv, inv_nonneg, enemy_cap, cfg_known in *; simpl in *.
  repeat match goal with H : _ /\ _ |- _ => destruct H end.
  repeat match goal with |- _ /\ _ => split end;
    try assumption; try lia; try (destruct diff; simpl; lia).
  intros c Hc. inversion Hc. eauto.
Qed.

Lemma poison_tick_ok : preserves MInv poison_tick.
Proof.
  intros x Hx. unfold poison_tick, MInv in *.
  cbv zeta. destruct ((poisonTurns (fight x) >? 0) && (ehealth x >? 0)) eqn:E.
  - apply andb_prop in E. destruct E as [_ E]. apply Z.gtb_lt in E.
    unfold Inv, enemy_cap, cfg_known in *; simpl in *.
    repeat match goal with H : _ /\ _ |- _ => destruct H end.
    repeat match goal with |- _ /\ _ => split end; solve [assumption | lia].
  - unfold Inv, enemy_cap, cfg_known in *; simpl in *.
    repeat match goal with H : _ /\ _ |- _ => destruct H end.
    repeat match goal with |- _ /\ _ => split end; solve [assumption | lia].
Qed.

Lemma updateFightBars_ok : handler_ok MInv updateFightBars.
Proof.
  unfold handler_ok, updateFightBars. apply wp_set_handler; [apply poison_tick_ok | exact I].
Qed.

Lemma post_ok c x : wp (post c x) (fun _ => True) (preserves MInv).
Proof.
  unfold post, MInv. wp_go.
Qed.

Lemma resolve_turn_ok d stunnedNow pdamage s :
  handler_ok MInv (resolve_turn (ENEMY d) stunnedNow pdamage s).
Proof.
  unfold handler_ok, resolve_turn.
  apply wp_seq with (mid := fun _ => True).
  { destruct (pdamage >=? 0) eqn:E; [|apply wp_ret; exact I].
    apply Z.geb_le in E. apply wp_set_handler; [|exact I].
    intros x Hx. unfold MInv in *. inv_solve. }
  intros _ _.
  apply wp_seq with (mid := fun _ => True).
  { destruct (stunned (fight s)).
    - apply wp_set_handler; [|exact I].
      intros x Hx. unfold MInv, Inv in *; simpl in *. exact Hx.
    - apply wp_bind, wp_rand; [destruct d; simpl; lia|]. intros raw Hraw. cbv zeta.
      apply wp_set_handler; [|exact I].
      intros x Hx. unfold MInv in *.
      assert (0 <= raw) by (destruct d; simpl in Hraw; lia).
      destruct (pdamage <? 0); inv_solve. }
  intros _ _.
  apply wp_seq with (mid := fun _ => True).
  { destruct stunnedNow; [|apply wp_ret; exact I].
    apply wp_set_handler; [|exact I].
    intros x Hx. unfold MInv, Inv in *; simpl in *. exact Hx. }
  intros _ _.
  apply wp_seq with (mid := fun _ => True); [apply updateFightBars_ok|].
  intros _ _.
  apply wp_set_fn; [|exact I].
  intros x Hx. apply wp_bind. eapply wp_mono; [apply post_ok|].
  intros _ _. apply wp_ret. exact Hx.
Qed.

Lemma use_potion_ok key x :
  MInv x -> 0 < inv_get key (inventory x) -> MInv (use_potion key x).
Proof.
  intros Hx Hk. unfold use_potion, MInv, Inv, inv_nonneg in *.
  destruct key; simpl in *;
    repeat match goal with H : _ /\ _ |- _ => destruct H end;
    repeat match goal with |- _ /\ _ => split end; solve [assumption | lia].
Qed.

Lemma with_phealth_ok x : MInv x -> MInv (with_phealth 100 x).
Proof. intros Hx. unfold MInv in *. inv_solve. Qed.

Lemma with_poisonTurns_ok x :
  MInv x -> MInv (with_fight (with_poisonTurns 3 (fight x)) x).
Proof.
  intros Hx. unfold MInv, Inv, enemy_cap, cfg_known in *; simpl in *. exact Hx.
Qed.

(** A potion action: the updater that spends the potion runs first, on the
    snapshot, in which the potion was counted. *)
Lemma potion_then_tick (f : Upd FightState) (b : bool) s r :
  MInv s -> (b = true -> MInv (f s)) ->
  MInv (fst (dispatch (fun _ => (if b then set f else ret tt) ;;; updateFightBars) s r)).
Proof.
  intros Hs Hf. destruct b.
  - eapply dispatch_first.
    + reflexivity.
    + apply wp_ret. apply Hf. reflexivity.
    + constructor; [apply updater_ok_lift, poison_tick_ok | constructor].
  - apply dispatch_preserves; [|exact Hs].
    apply wp_bind, wp_ret. apply updateFightBars_ok.
Qed.

Lemma playerAction_inv action s r :
  MInv s -> MInv (fst (dispatch (playerAction action) s r)).
Proof.
  intros Hs.
  assert (Hk : forall c, cfg (fight s) = Some c -> exists d, c = ENEMY d)
    by (destruct Hs as (_ & _ & _ & Hk & _); exact Hk).
  change (dispatch (playerAction action) s r)
    with (dispatch (fun _ => playerAction action s) s r).
  unfold playerAction.
  destruct (cfg (fight s)) as [c|] eqn:Hc; [|exact Hs].
  destruct (Hk c eq_refl) as [d ->].
  destruct action.
  - apply dispatch_preserves; [|exact Hs].
    apply wp_bind, wp_rand_any. intros u. apply resolve_turn_ok.
  - apply dispatch_preserves; [|exact Hs].
    apply wp_bind, wp_rand_any. intros u. apply resolve_turn_ok.
  - apply (potion_then_tick (fun prev => use_potion K_hpotion (with_phealth 100 prev)));
      [exact Hs|]. intros E. apply Z.gtb_lt in E.
    apply use_potion_ok; [apply with_phealth_ok, Hs | simpl; lia].
  - destruct (dpotion (inventory s) >? 0) eqn:E.
    + apply Z.gtb_lt in E. eapply dispatch_first.
      * reflexivity.
      * apply wp_ret. apply use_potion_ok; [exact Hs | simpl; lia].
      * pose proof (resolve_turn_ok d false
                      (minDmg s + hd 0 r mod (maxDmg s - minDmg s + 1) + 10) s (tl r))
          as [_ H].
        exact H.
    + exact Hs.
  - apply (potion_then_tick (use_potion K_lightning_potion)); [exact Hs|].
    intros E. apply Z.gtb_lt in E. apply use_potion_ok; [exact Hs | simpl; lia].
  - apply (potion_then_tick (use_potion K_sleep_potion)); [exact Hs|].
    intros E. apply Z.gtb_lt in E. apply use_potion_ok; [exact Hs | simpl; lia].
  - apply (potion_then_tick
             (fun prev => use_potion K_poison_potion
                            (with_fight (with_poisonTurns 3 (fight prev)) prev)));
      [exact Hs|].
    intros E. apply Z.gtb_lt in E.
    apply use_potion_ok; [apply with_poisonTurns_ok, Hs | simpl; lia].
Qed.

End MainPreservation.

(** ** The random-event resolver, bucket by bucket *)


Ltac eval_queue :=
  cbn -[Z.leb Z.ltb Z.geb Z.gtb Z.eqb Z.add Z.modulo Z.sub Z.mul Z.div Z.max Z.min Z.opp
        Z.to_nat Z.of_nat clamp show cat slice_last String.eqb nth_error
        locked_keys policy lookup has_key discountedPrice weighted_pool filter
        merchant_event unlock appendLog_upd].

Section BucketProofs.
Context {F : Type}.
Implicit Types s : State F.

Lemma same_ledger_log text tag s1 s2 :
  same_ledger s1 s2 -> same_ledger (appendLog_upd text tag s1) s2.
Proof. unfold same_ledger, appendLog_upd. simpl. auto. Qed.

Lemma same_ledger_refl s : same_ledger s s.
Proof. reflexivity. Qed.


Lemma random_index_lt (n : nat) u : (0 < n)%nat -> (Z.to_nat (u mod Z.of_nat n) < n)%nat.
Proof. intros Hn. pose proof (Z.mod_pos_bound u (Z.of_nat n)). lia. Qed.

Lemma nth_error_In_some {A} (l : list A) i x : nth_error l i = Some x -> In x l.
Proof. apply nth_error_In. Qed.



End BucketProofs.

(** ** The merchant *)

Section MerchantProofs.
Context {F : Type}.
Implicit Types s : State F.

Lemma lookup_In {V} k (o : list (string * V)) v : lookup k o = Some v -> In v (map snd o).
Proof.
  induction o as [|[k' v'] o IH]; simpl; [discriminate|].
  destruct (String.eqb k k'); [intros [= ->]; auto | auto].
Qed.

Lemma weighted_pool_In pool sel : In sel (weighted_pool pool) -> In sel pool.
Proof.
  unfold weighted_pool. rewrite in_flat_map. intros (w & Hw & Hsel).
  apply repeat_spec in Hsel. subst. exact Hw.
Qed.

Lemma weighted_pool_length pool :
  In pool (map snd MERCHANT_BY_ERA) -> List.length (weighted_pool pool) = 6%nat.
Proof.
  simpl. intros H.
  repeat (destruct H as [H|H]; [subst pool; reflexivity|]). destruct H.
Qed.

Lemma rare_nonempty (l : option string) :
  (0 < List.length (filter (fun x => negb (is_last (offer_name x) l)) RARE_ITEMS))%nat.
Proof.
  destruct l as [y|]; [|simpl; lia].
  unfold RARE_ITEMS. cbn [filter offer_name is_last].
  destruct (String.eqb_spec "Golden Cheese" y) as [<-|]; simpl;
    [lia | destruct (negb _); simpl; try destruct (negb _); simpl; lia].
Qed.

Lemma pool_prices pool sel :
  In pool (map snd MERCHANT_BY_ERA) -> In sel pool ->
  In (Catalog.name sel, Catalog.price sel) base_prices.
Proof.
  intros Hp Hs. unfold base_prices. apply in_or_app. left.
  apply in_map_iff. exists sel. split; [reflexivity|].
  apply in_flat_map. apply in_map_iff in Hp. destruct Hp as ([k p] & <- & Hk).
  exists (k, p). split; assumption.
Qed.

Lemma rare_prices (l : option string) sel :
  In sel (filter (fun x => negb (is_last (offer_name x) l)) RARE_ITEMS) ->
  In (offer_name sel, offer_price sel) base_prices.
Proof.
  intros H. apply filter_In in H. destruct H as [H _].
  unfold base_prices. apply in_or_app. right.
  apply in_map_iff. exists sel. split; [reflexivity | exact H].
Qed.

(** [merchant_event] always leaves one offer, of a listed item at its
    discounted price, and one log line tagged [merchant]. *)
Lemma merchant_event_offer s r :
  exists p base text,
    In (offer_name p, base) base_prices /\
    offer_price p = fst (discountedPrice s base) /\
    fst (dispatch merchant_event s r) =
      appendLog_upd text merchant
        (with_last_merchant_offer_type
           (Some (match p with WeaponOffer _ _ _ => "weapon" | _ => offer_name p end))
           (with_pendingMerchant (Some p) s)).
Proof.
  unfold dispatch, merchant_event.
  set (c0 := has_key (currentEra s) MERCHANT_BY_ERA
             && negb (has_key (currentEra s) (merchant_weapon_log s))).
  set (rare := filter (fun x => negb (is_last (offer_name x) (last_merchant_offer_type s)))
                 RARE_ITEMS).
  assert (Hunique : forall r0,
    exists p base text,
      In (offer_name p, base) base_prices /\
      offer_price p = fst (discountedPrice s base) /\
      (let o1 := (i <- random_index (List.length rare) ;;
                  match nth_error rare i with
                  | None => ret tt
                  | Some sel =>
                      let final := fst (discountedPrice s (offer_price sel)) in
                      appendLog (cat ["Merchant offers "; offer_name sel; ". Price ";
                                      show final; " coins."]) merchant ;;;
                      showMerchantOffer (with_price final sel) ;;;
                      set (with_last_merchant_offer_type (Some (offer_name sel)))
                  end) r0 in
       let o2 := run_queue (queued o1) s (rest o1) in
       apply_all (queued o2) (val o2)) =
      appendLog_upd text merchant
        (with_last_merchant_offer_type
           (Some (match p with WeaponOffer _ _ _ => "weapon" | _ => offer_name p end))
           (with_pendingMerchant (Some p) s))).
  { intros r0. eval_queue.
    destruct (nth_error rare (Z.to_nat (hd 0 r0 mod Z.of_nat (List.length rare))))
      as [sel|] eqn:EN.
    - pose proof (nth_error_In _ _ EN) as Hin.
      pose proof (rare_prices _ _ Hin) as Hp.
      apply filter_In in Hin. destruct Hin as [Hin _].
      exists (with_price (fst (discountedPrice s (offer_price sel))) sel),
        (offer_price sel). eexists.
      simpl in Hin.
      destruct Hin as [<-|[<-|[<-|[]]]]; (split; [exact Hp|]); split; reflexivity.
    - exfalso. apply nth_error_None in EN.
      pose proof (rare_nonempty (last_merchant_offer_type s)).
      pose proof (random_index_lt (List.length rare) (hd 0 r0)). fold rare in H. lia. }
  destruct c0 eqn:Ec0.
  - eval_queue.
    destruct ((1 + hd 0 r mod (100 - 1 + 1) <=? 3)
              && negb (is_last "weapon" (last_merchant_offer_type s))) eqn:Ew.
    + apply andb_prop in Ew. destruct Ew as [_ Ew].
      apply negb_true_iff in Ew. rewrite Ew.
      cbn [String.eqb Ascii.eqb Bool.eqb andb].
      unfold c0 in Ec0. apply andb_prop in Ec0. destruct Ec0 as [Ek _].
      unfold has_key in Ek.
      destruct (lookup (currentEra s) MERCHANT_BY_ERA) as [pool|] eqn:EP; [|discriminate].
      pose proof (lookup_In _ _ _ EP) as Hpool.
      pose proof (weighted_pool_length _ Hpool) as Hlen.
      eval_queue. rewrite Hlen.
      destruct (nth_error (weighted_pool pool) (Z.to_nat (hd 0 (tl r) mod Z.of_nat 6)))
        as [sel|] eqn:EN.
      * pose proof (weighted_pool_In _ _ (nth_error_In _ _ EN)) as Hsel.
        destruct (discountedPrice s (Catalog.price sel)) as [final discPct] eqn:ED.
        exists (WeaponOffer (Catalog.name sel) (Catalog.bonus sel) final),
          (Catalog.price sel). eexists.
        split; [apply (pool_prices pool); assumption|].
        split; [cbn [offer_price]; rewrite ED; reflexivity|].
        reflexivity.
      * exfalso. apply nth_error_None in EN. rewrite Hlen in EN.
        pose proof (random_index_lt 6 (hd 0 (tl r))). lia.
    + assert (Hu : is_last "unique" (last_merchant_offer_type s) = true
                   \/ is_last "unique" (last_merchant_offer_type s) = false)
        by (destruct (is_last "unique" (last_merchant_offer_type s)); auto).
      destruct Hu as [Hu|Hu]; rewrite Hu; cbn [String.eqb Ascii.eqb Bool.eqb andb];
        apply (Hunique (tl r)).
  - eval_queue.
    assert (Hu : is_last "unique" (last_merchant_offer_type s) = true
                 \/ is_last "unique" (last_merchant_offer_type s) = false)
      by (destruct (is_last "unique" (last_merchant_offer_type s)); auto).
    destruct Hu as [Hu|Hu]; rewrite Hu; cbn [String.eqb Ascii.eqb Bool.eqb andb];
      apply (Hunique r).
Qed.

End MerchantProofs.

(** ** C6: the merchant's discount *)

Section Discount.
Context {F : Type}.
Implicit Types s : State F.

Lemma discountedPrice_eq s base :
  discountedPrice s base =
    (base - float_discount base (merchant_relationship s * 6), merchant_relationship s * 6).
Proof. reflexivity. Qed.

(** On the listed prices and the six relationship levels the binary64
    product has the floor of the exact one. *)
Lemma float_discount_exact rel base :
  In rel relationships -> In base (map snd base_prices) ->
  float_discount base (rel * 6) = (base * (rel * 6)) / 100.
Proof.
  intros Hrel Hbase.
  assert (H : forallb (fun rel => forallb (fun base =>
                 float_discount base (rel * 6) =? (base * (rel * 6)) / 100)
                 (map snd base_prices)) relationships = true)
    by (vm_compute; reflexivity).
  rewrite forallb_forall in H. specialize (H rel Hrel).
  rewrite forallb_forall in H. specialize (H base Hbase).
  apply Z.eqb_eq in H. exact H.
Qed.

Lemma relationship_listed rel : 0 <= rel <= 5 -> In rel relationships.
Proof.
  intros H. unfold relationships.
  assert (rel = 0 \/ rel = 1 \/ rel = 2 \/ rel = 3 \/ rel = 4 \/ rel = 5) by lia.
  simpl. intuition auto.
Qed.

(** C6.  Whatever the draws, the offer that [merchant_event] leaves pending
    is a listed item whose price is [base - floor(base * discPct / 100)] with
    [discPct = merchant_relationship * 6] (relationship between 0 and 5, as
    the game keeps it); with relationship 3 the discount is 18 and a base
    price of 1000 gives 820. *)
Theorem merchant_discount s r :
  0 <= merchant_relationship s <= 5 ->
  (exists p base,
      pendingMerchant (fst (dispatch merchant_event s r)) = Some p /\
      In (offer_name p, base) base_prices /\
      snd (discountedPrice s base) = merchant_relationship s * 6 /\
      offer_price p = exact_final base (merchant_relationship s * 6)) /\
  (merchant_relationship s = 3 -> discountedPrice s 1000 = (820, 18)).
Proof.
  intros Hrel. split.
  - destruct (merchant_event_offer s r) as (p & base & text & Hin & Hprice & Hs').
    exists p, base. rewrite Hs'. split; [reflexivity|]. split; [exact Hin|].
    split; [reflexivity|].
    rewrite Hprice, discountedPrice_eq. cbn [fst]. unfold exact_final.
    rewrite float_discount_exact; [reflexivity | apply relationship_listed, Hrel |].
    apply in_map_iff. exists (offer_name p, base). split; [reflexivity | exact Hin].
  - intros H3. rewrite discountedPrice_eq, H3. vm_compute. reflexivity.
Qed.

End Discount.

(** ** C7: a merchant purchase that cannot be paid *)

Section Refusal.
Context {F : Type}.
Implicit Types s : State F.

(** C7.  With a pending offer dearer than the money at hand, [buyMerchant]
    returns the ledger with one [warn] entry appended to its log (the log
    keeping its last 600 entries) and nothing else changed; a second call
    appends a second entry and again changes nothing else. *)
Theorem buyMerchant_refusal s p r1 r2 :
  pendingMerchant s = Some p ->
  money s < offer_price p ->
  let s1 := fst (dispatch buyMerchant s r1) in
  let s2 := fst (dispatch buyMerchant s1 r2) in
  s1 = with_logs (slice_last 600 (logs s ++ [refusal (logs s)])) s /\
  s2 = with_logs (slice_last 600 (logs s1 ++ [refusal (logs s1)])) s /\
  LogEntry.tag (refusal (logs s)) = warn /\
  same_ledger s1 s /\ same_ledger s2 s /\
  snd (dispatch buyMerchant s r1) = r1.
Proof.
  intros Hp Hm s1 s2.
  assert (Hm' : (money s <? offer_price p) = true) by (apply Z.ltb_lt; exact Hm).
  assert (Hr : snd (dispatch buyMerchant s r1) = r1)
    by (unfold dispatch, buyMerchant; rewrite Hp, Hm'; reflexivity).
  assert (H1 : s1 = with_logs (slice_last 600 (logs s ++ [refusal (logs s)])) s)
    by (subst s1; unfold dispatch, buyMerchant; rewrite Hp, Hm'; reflexivity).
  clearbody s1.
  assert (H2 : s2 = with_logs (slice_last 600 (logs s1 ++ [refusal (logs s1)])) s).
  { subst s2. unfold dispatch, buyMerchant.
    assert (Hp1 : pendingMerchant s1 = Some p) by (rewrite H1; exact Hp).
    assert (Hm1 : (money s1 <? offer_price p) = true) by (rewrite H1; exact Hm').
    rewrite Hp1, Hm1. eval_queue. unfold appendLog_upd. rewrite H1. reflexivity. }
  clearbody s2.
  split; [exact H1|]. split; [exact H2|]. split; [reflexivity|].
  split; [rewrite H1; reflexivity|]. split; [rewrite H2; reflexivity|].
  exact Hr.
Qed.

End Refusal.

(** ** C9: the log line of the resolver *)

Section ResolverLog.
Context {F : Type}.
Implicit Types s : State F.

Lemma one_entry_appendLog text tag s x :
  logs x = logs s -> one_entry text tag s (appendLog_upd text tag x).
Proof. intros H. unfold one_entry, appendLog_upd. simpl. rewrite H. reflexivity. Qed.

Lemma one_entry_length text tag s s' :
  one_entry text tag s s' -> (List.length (logs s) < 600)%nat ->
  List.length (logs s') = S (List.length (logs s)).
Proof.
  unfold one_entry, slice_last. intros H Hl. rewrite H.
  rewrite length_skipn, length_app. cbn [List.length]. lia.
Qed.

(** C9, as the code has it.  Every bucket but the merchant's appends exactly
    one entry, tagged with a valence, except the policy bucket when no policy
    is locked any more: then nothing is appended and the ledger is returned
    as it was.  (The merchant's bucket appends its one [merchant] entry.) *)
Theorem random_event_log s r :
  let roll := val (rand (Q := Updater F) 1 100 r) in
  let s' := fst (dispatch random_event s r) in
  (bucket_of roll = PolicyUnlock -> locked_keys (policies s) = [] -> s' = s) /\
  (bucket_of roll = PolicyUnlock -> locked_keys (policies s) <> [] ->
     exists text, one_entry text system s s') /\
  (bucket_of roll = MerchantVisit -> exists text, one_entry text merchant s s') /\
  (bucket_of roll <> PolicyUnlock -> bucket_of roll <> MerchantVisit ->
     exists text tag, valence tag /\ one_entry text tag s s').
Proof.
  intros roll s'. subst roll s'.
  unfold dispatch, random_event, bucket_of. eval_queue.
  set (roll := 1 + hd 0 r mod (100 - 1 + 1)).
  destruct (roll <=? 10) eqn:E1.
  { repeat split; try discriminate. intros _ _. eval_queue.
    do 2 eexists. split; [right; left; reflexivity|].
    apply one_entry_appendLog. reflexivity. }
  destruct (roll <=? 20) eqn:E2.
  { repeat split; try discriminate. intros _ _. eval_queue.
    destruct (1 + hd 0 (tl r) mod (10 - 1 + 1) <=? 6) eqn:E; eval_queue.
    - do 2 eexists. split; [left; reflexivity|].
      apply one_entry_appendLog. reflexivity.
    - do 2 eexists. split; [right; left; reflexivity|].
      apply one_entry_appendLog. reflexivity. }
  destruct (roll <=? 30) eqn:E3.
  { repeat split; try discriminate; try (intros H; exfalso; apply H; reflexivity).
    intros _.
    destruct (merchant_event_offer s (tl r)) as (p & base & text & _ & _ & Hs').
    exists text.
    change (one_entry text merchant s (fst (dispatch merchant_event s (tl r)))).
    rewrite Hs'. apply one_entry_appendLog. reflexivity.
    intros _ H; exfalso; apply H; reflexivity. }
  destruct (roll <=? 40) eqn:E4.
  { repeat split; try discriminate. intros _ _. eval_queue.
    destruct (hd 0 (tl r) mod 2 =? 0); eval_queue;
      (do 2 eexists; split; [right; left; reflexivity|];
       apply one_entry_appendLog; reflexivity). }
  destruct (roll <=? 50) eqn:E5.
  { repeat split; try discriminate. intros _ _. eval_queue.
    do 2 eexists. split; [left; reflexivity|].
    apply one_entry_appendLog. reflexivity. }
  destruct (roll <=? 55) eqn:E6.
  { repeat split; try discriminate. intros _ _. eval_queue.
    destruct (hd 0 (tl r) mod 2 =? 0); eval_queue.
    - do 2 eexists. split; [right; left; reflexivity|].
      apply one_entry_appendLog. reflexivity.
    - do 2 eexists. split; [left; reflexivity|].
      apply one_entry_appendLog. reflexivity. }
  destruct (roll <=? 60) eqn:E7.
  { split; [|split; [|split]]; try discriminate.
    - intros _ EL. rewrite EL. reflexivity.
    - intros _ HL.
      destruct (locked_keys (policies s)) as [|k0 ks] eqn:EL; [contradiction|].
      eval_queue.
      destruct (nth_error (k0 :: ks) (Z.to_nat (hd 0 (tl r) mod Z.of_nat (S (List.length ks)))))
        as [key|] eqn:EN.
      + eval_queue. eexists. apply one_entry_appendLog. reflexivity.
      + exfalso. apply nth_error_None in EN.
        pose proof (random_index_lt (S (List.length ks)) (hd 0 (tl r))).
        simpl in EN. lia.
    - intros H; exfalso; apply H; reflexivity. }
  destruct (roll <=? 70) eqn:E8.
  { repeat split; try discriminate. intros _ _. eval_queue.
    do 2 eexists. split; [left; reflexivity|].
    apply one_entry_appendLog. reflexivity. }
  destruct (roll <=? 80) eqn:E9.
  { repeat split; try discriminate. intros _ _. eval_queue.
    do 2 eexists. split; [left; reflexivity|].
    apply one_entry_appendLog. reflexivity. }
  repeat split; try discriminate. intros _ _. eval_queue.
  do 2 eexists. split; [do 4 right; reflexivity|].
  apply one_entry_appendLog. reflexivity.
Qed.

End ResolverLog.

(** ** C10: the daily incident of [command_sleep] *)

Section Incident.
Context {F : Type}.
Implicit Types prev next : State F.

Lemma sleep_updater_phases prev r0 :
  let a := consume_food prev r0 in
  let b := daily_incident (val a) (rest a) in
  let c := flavour_lines (val b) (rest b) in
  val (sleep_updater prev r0) =
    if day (val b) >=? death_day (val b) then val b
    else val (policy_upkeep (val b) (rest c)).
Proof.
  intros a b c. unfold sleep_updater. cbn [bind val queued rest].
  fold a. fold b. fold c. destruct (day (val b) >=? death_day (val b)); reflexivity.
Qed.

(** C10.  Between the food and the death-day check, [command_sleep] draws
    [r] in [[1,100]] and applies at most one incident: bandits on 1-15, a
    festival on 16-30, travellers on 31-40, nothing above. *)
Theorem daily_incident_spec next r :
  let roll := val (rand (Q := Upd F) 1 100 r) in
  let o := daily_incident next r in
  1 <= roll <= 100 /\
  (roll <= 15 ->
     exists loss, 50 <= loss <= 200 /\
       val o = with_money (Z.max 0 (money next - loss)) next) /\
  (15 < roll <= 30 ->
     exists g, 5 <= g <= 15 /\
       val o = with_happiness (clamp (happiness next + g) 0 100) next /\
       (0 <= happiness next -> happiness (val o) = Z.min 100 (happiness next + g))) /\
  (30 < roll <= 40 ->
     exists p, 3 <= p <= 10 /\
       val o = with_people (Z.min (maxpeople next) (people next + p)) next) /\
  (40 < roll -> val o = next /\ queued o = []) /\
  (forall prev r0,
     let a := consume_food prev r0 in
     let b := daily_incident (val a) (rest a) in
     let c := flavour_lines (val b) (rest b) in
     val (sleep_updater prev r0) =
       if day (val b) >=? death_day (val b) then val b
       else val (policy_upkeep (val b) (rest c))).
Proof.
  intros roll o.
  assert (Hroll : 1 <= roll <= 100) by exact (rand_range 1 100 (hd 0 r) ltac:(lia)).
  split; [exact Hroll|].
  assert (Hphases := sleep_updater_phases).
  subst o. unfold daily_incident.
  change (val (rand (Q := Upd F) 1 100 r)) with (1 + hd 0 r mod (100 - 1 + 1)) in roll.
  cbn [bind val queued rest rand Math_random ret app]. fold roll. clearbody roll.
  split; [|split; [|split; [|split]]].
  - intros H. apply Z.leb_le in H. rewrite H. eval_queue.
    eexists. split; [apply rand_range; lia | reflexivity].
  - intros [H1 H2]. apply Z.leb_gt in H1. apply Z.leb_le in H2. rewrite H1, H2. eval_queue.
    eexists. split; [apply rand_range; lia|]. split; [reflexivity|].
    intros Hh. cbn [happiness with_happiness]. unfold clamp.
    pose proof (rand_range 5 15 (hd 0 (tl r)) ltac:(lia)). lia.
  - intros [H1 H2]. apply Z.leb_le in H2.
    assert (H0 : (roll <=? 15) = false) by (apply Z.leb_gt; lia).
    apply Z.leb_gt in H1. rewrite H0, H1, H2. eval_queue.
    eexists. split; [apply rand_range; lia | reflexivity].
  - intros H.
    assert (H0 : (roll <=? 15) = false) by (apply Z.leb_gt; lia).
    assert (H1 : (roll <=? 30) = false) by (apply Z.leb_gt; lia).
    assert (H2 : (roll <=? 40) = false) by (apply Z.leb_gt; lia).
    rewrite H0, H1, H2. split; reflexivity.
  - exact Hphases.
Qed.

End Incident.

(** ** C5: the four actions that end the turn at once *)

(** C5.  Heal, lightning, sleep potion and poison apply their potion (when
    there is one), then the poison tick, and return: no draw is consumed, no
    enemy attack takes place, the player's health does not go down, and a
    heal with a potion in stock leaves it at exactly 100.  Both variants. *)
Theorem short_circuit_actions (a : Main.Action) (s : Main.St) (s3 : V3.St) (r : Rng) :
  short_circuit a ->
  phealth s <= 100 -> phealth s3 <= 100 ->
  Main.cfg (fight s) <> None ->
  V3.cfg (fight s3) <> None -> V3.over (fight s3) = false ->
  (dispatch (Main.playerAction a) s r = (Main.poison_tick (main_potion_effect a s), r) /\
   phealth s <= phealth (Main.exec (Main.PlayerAction a) s r) /\
   (a = Main.heal -> 0 < hpotion (inventory s) ->
      phealth (Main.exec (Main.PlayerAction a) s r) = 100)) /\
  (dispatch (V3.playerAction a) s3 r = (V3.poison_tick (v3_potion_effect a s3), r) /\
   phealth s3 <= phealth (V3.exec (Main.PlayerAction a) s3 r) /\
   (a = Main.heal -> 0 < hpotion (inventory s3) ->
      phealth (V3.exec (Main.PlayerAction a) s3 r) = 100)).
Proof.
  intros Ha Hp Hp3 Hc Hc3 Ho3. split.
  - assert (E : dispatch (Main.playerAction a) s r
                = (Main.poison_tick (main_potion_effect a s), r)).
    { unfold dispatch, Main.playerAction.
      destruct (Main.cfg (fight s)) as [c|]; [|contradiction].
      destruct Ha as [ -> | [ -> | [ -> | -> ]]]; cbn [main_potion_effect];
        match goal with |- context [if ?b then _ else _] => destruct b end; reflexivity. }
    split; [exact E|]. unfold Main.exec. cbn [Main.handler]. rewrite E. cbn [fst].
    split.
    + unfold Main.poison_tick. cbv zeta.
      destruct ((Main.poisonTurns (fight (main_potion_effect a s)) >? 0)
                && (ehealth (main_potion_effect a s) >? 0));
        cbn [phealth with_fight with_ehealth];
        destruct Ha as [ -> | [ -> | [ -> | -> ]]]; cbn [main_potion_effect];
        match goal with |- context [if ?b then _ else _] => destruct b end;
        simpl; lia.
    + intros -> Hh. apply Z.gtb_lt in Hh. cbn [main_potion_effect]. rewrite Hh.
      unfold Main.poison_tick. cbv zeta.
      match goal with |- context [if ?b then _ else _] => destruct b end; reflexivity.
  - assert (E : dispatch (V3.playerAction a) s3 r
                = (V3.poison_tick (v3_potion_effect a s3), r)).
    { unfold dispatch, V3.playerAction.
      destruct (V3.cfg (fight s3)) as [c|]; [|contradiction]. rewrite Ho3.
      destruct Ha as [ -> | [ -> | [ -> | -> ]]]; cbn [v3_potion_effect];
        match goal with |- context [if ?b then _ else _] => destruct b end; reflexivity. }
    split; [exact E|]. unfold V3.exec. cbn [V3.handler]. rewrite E. cbn [fst].
    split.
    + unfold V3.poison_tick.
      destruct (V3.cfg (fight (v3_potion_effect a s3)));
        [cbv zeta;
         destruct ((V3.poisonTurns (fight (v3_potion_effect a s3)) >? 0)
                   && (ehealth (v3_potion_effect a s3) >? 0));
         cbn [phealth with_fight with_ehealth] |];
        destruct Ha as [ -> | [ -> | [ -> | -> ]]]; cbn [v3_potion_effect];
        match goal with |- context [if ?b then _ else _] => destruct b end;
        simpl; lia.
    + intros -> Hh. apply Z.gtb_lt in Hh. cbn [v3_potion_effect]. rewrite Hh.
      unfold V3.poison_tick. cbv zeta.
      repeat match goal with |- context [match ?b with _ => _ end] => destruct b end;
        reflexivity.
Qed.

(** ** C3: where the resolver stands in [command_sleep] *)

Section SleepOrder.
Context {F : Type}.
Implicit Types s prev next : State F.

Lemma consume_food_day prev r : day (val (consume_food prev r)) = day prev + 1.
Proof.
  unfold consume_food. cbv zeta.
  destruct (bread (inventory prev) >=? _); reflexivity.
Qed.

Lemma consume_food_death_day prev r :
  death_day (val (consume_food prev r)) = death_day prev.
Proof.
  unfold consume_food. cbv zeta.
  destruct (bread (inventory prev) >=? _); reflexivity.
Qed.

Lemma daily_incident_day next r : day (val (daily_incident next r)) = day next.
Proof.
  unfold daily_incident. cbn [bind val queued rest rand Math_random ret].
  repeat match goal with |- context [if ?b then _ else _] => destruct b end; reflexivity.
Qed.

Lemma daily_incident_death_day next r :
  death_day (val (daily_incident next r)) = death_day next.
Proof.
  unfold daily_incident. cbn [bind val queued rest rand Math_random ret].
  repeat match goal with |- context [if ?b then _ else _] => destruct b end; reflexivity.
Qed.

(** The updater of Sleep, phase by phase. *)
Lemma sleep_updater_order s r0 :
  let a := consume_food s r0 in
  let b := daily_incident (val a) (rest a) in
  let c := flavour_lines (val b) (rest b) in
  (death_day s <= day s + 1 ->
     sleep_updater s r0 =
       mkOut (val b) (queued a ++ queued b ++ queued c ++ [terminal_line]) (rest c)) /\
  (day s + 1 < death_day s ->
     let u := policy_upkeep (val b) (rest c) in
     sleep_updater s r0 =
       mkOut (val u) (queued a ++ queued b ++ queued c ++ queued u) (rest u)).
Proof.
  intros a b c.
  assert (Hd : day (val b) = day s + 1)
    by (subst b; rewrite daily_incident_day; subst a; apply consume_food_day).
  assert (Hdd : death_day (val b) = death_day s)
    by (subst b; rewrite daily_incident_death_day; subst a; apply consume_food_death_day).
  unfold sleep_updater. unfold bind. cbn [val queued rest].
  fold a. fold b. fold c. rewrite Hd, Hdd.
  split; intros H.
  - assert (E : (day s + 1 >=? death_day s) = true) by (apply Z.geb_le; lia).
    rewrite E. reflexivity.
  - assert (E : (day s + 1 >=? death_day s) = false)
      by (destruct (day s + 1 >=? death_day s) eqn:E'; [apply Z.geb_le in E'; lia | reflexivity]).
    rewrite E. reflexivity.
Qed.

End SleepOrder.

(** *** The log of a night *)

(** A step of the calculus with the obligation of an enqueued update left
    open. *)
Ltac gwp_step tac :=
  lazymatch goal with
  | |- wp (bind _ _) _ _ => apply wp_bind
  | |- wp (ret _) _ _ => apply wp_ret
  | |- wp (rand _ _) _ _ => apply wp_rand_any; intros ?
  | |- wp random_lt_half _ _ => apply wp_random_lt_half; intros ?
  | |- wp (random_index _) _ _ => apply wp_random_index; intros ?
  | |- wp (appendLog _ _) _ _ => unfold appendLog, set; apply wp_enqueue; [tac | ]
  | |- wp (set _) _ _ => unfold set; apply wp_enqueue; [tac | ]
  | |- wp (set_fn _) _ _ => unfold set_fn; apply wp_enqueue; [tac | ]
  | |- wp (enqueue _) _ _ => apply wp_enqueue; [tac | ]
  | |- wp (showMerchantOffer _) _ _ => unfold showMerchantOffer
  | |- wp (merchant_event _) _ _ => unfold merchant_event
  | |- wp (if ?b then _ else _) _ _ => destruct b eqn:?
  | |- wp (match ?x with _ => _ end) _ _ => destruct x eqn:?
  | |- wp (let _ := _ in _) _ _ => cbv zeta
  end.

Ltac gwp_go tac := repeat (gwp_step tac); try exact I.

Section SleepLog.
Context {F : Type}.
Implicit Types s x y : State F.

Lemma run_queue_quiet (q : list (Updater F)) x r :
  Forall quiet q -> queued (run_queue q x r) = [].
Proof.
  revert x r. induction q as [|u q IH]; intros x r Hq; [reflexivity|].
  inversion Hq as [|? ? Hu Hq']; subst. cbn [run_queue queued].
  rewrite Hu, IH by exact Hq'. reflexivity.
Qed.

(** Past the protest, the updaters of the resolver issue nothing. *)
Lemma resolver_quiet s r X r' :
  10 < val (rand (Q := Updater F) 1 100 r) ->
  queued (run_queue (queued (random_event s r)) X r') = [].
Proof.
  intros Hroll. apply run_queue_quiet.
  unfold random_event. rewrite queued_bind. cbn [rand bind Math_random ret val queued rest app] in *.
  set (roll := 1 + hd 0 r mod (100 - 1 + 1)) in *.
  assert (E : (roll <=? 10) = false) by (apply Z.leb_gt; exact Hroll).
  rewrite E.
  match goal with
  | |- Forall quiet (queued (?k (tl r))) =>
      assert (H : wp k (fun _ => True) quiet)
        by (gwp_go ltac:(intros ? ?; reflexivity));
      exact (proj2 (H (tl r)))
  end.
Qed.

(** The protest issues its one line from inside its updater. *)
Lemma resolver_protest s r X r' :
  val (rand (Q := Updater F) 1 100 r) <= 10 ->
  exists text, queued (run_queue (queued (random_event s r)) X r') = [appendLog_upd text warn].
Proof.
  intros Hroll. unfold random_event. rewrite queued_bind.
  cbn [rand bind Math_random ret val queued rest app] in *.
  set (roll := 1 + hd 0 r mod (100 - 1 + 1)) in *.
  assert (E : (roll <=? 10) = true) by (apply Z.leb_le; exact Hroll).
  rewrite E. eexists. reflexivity.
Qed.

Lemma resolver_deferred s r X r' :
  queued (run_queue (queued (random_event s r)) X r') = [] \/
  exists text tag,
    queued (run_queue (queued (random_event s r)) X r') = [appendLog_upd text tag].
Proof.
  destruct (Z_le_gt_dec (val (rand (Q := Updater F) 1 100 r)) 10) as [H|H].
  - right. destruct (resolver_protest s r X r' H) as [text Ht]. exists text, warn. exact Ht.
  - left. apply resolver_quiet. lia.
Qed.

Lemma slice_last_snoc (l : list LogEntry.t) e :
  exists l', slice_last 600 (l ++ [e]) = l' ++ [e].
Proof.
  unfold slice_last. rewrite length_app. cbn [List.length].
  exists (skipn (List.length l + 1 - 600) l).
  rewrite skipn_app.
  replace (List.length l + 1 - 600 - List.length l)%nat with 0%nat by lia.
  reflexivity.
Qed.

Lemma slice_last_snoc2 (l : list LogEntry.t) e e2 :
  exists l', slice_last 600 ((l ++ [e]) ++ [e2]) = l' ++ [e; e2].
Proof.
  rewrite <- app_assoc. cbn [app].
  unfold slice_last. rewrite length_app. cbn [List.length].
  exists (skipn (List.length l + 2 - 600) l).
  rewrite skipn_app.
  replace (List.length l + 2 - 600 - List.length l)%nat with 0%nat by lia.
  reflexivity.
Qed.

Lemma logs_appendLog text tag x :
  logs (appendLog_upd text tag x) =
    slice_last 600 (logs x ++ [LogEntry.mk text tag (next_log_id (logs x))]).
Proof. reflexivity. Qed.

Lemma apply_all_app (d1 d2 : list (Upd F)) x :
  apply_all (d1 ++ d2) x = apply_all d2 (apply_all d1 x).
Proof. unfold apply_all. apply fold_left_app. Qed.

(** A handler that passes an updater to [set] and goes on, in the two
    ways. *)
Lemma dispatch_set_fn (u : Updater F) (k : State F -> Handler F) s r :
  dispatch (fun s0 => set_fn u ;;; k s0) s r =
    (let o := u s (rest (k s r)) in
     let q := run_queue (queued (k s r)) (val o) (rest o) in
     (apply_all (queued o ++ queued q) (val q), rest q)).
Proof. reflexivity. Qed.

Lemma dispatch_eager_set_fn (u : Updater F) (k : State F -> Handler F) s r1 r :
  dispatch_eager (fun s0 => set_fn u ;;; k s0) s r1 r =
    (let q := run_queue (queued (k s r)) (val (u s r1)) (rest (k s r)) in
     (apply_all (queued q) (val q), rest q)).
Proof. reflexivity. Qed.

Lemma command_sleep_queued s r :
  dispatch command_sleep s r =
    (let q := run_queue (queued (random_event s r))
                (val (after_upkeep s r)) (rest (after_upkeep s r)) in
     (apply_all (queued (after_upkeep s r) ++ queued q) (val q), rest q)).
Proof. exact (dispatch_set_fn sleep_updater random_event s r). Qed.

Lemma command_sleep_eager s r1 r :
  dispatch_eager command_sleep s r1 r =
    (let q := run_queue (queued (random_event s r))
                (val (sleep_updater s r1)) (rest (random_event s r)) in
     (apply_all (queued q) (val q), rest q)).
Proof. exact (dispatch_eager_set_fn sleep_updater random_event s r1 r). Qed.

(** Run from the queue, the updater of the last night has its terminal
    line in the log, last or followed by the line of a protest. *)
Lemma terminal_line_logged s r :
  death_day s <= day s + 1 ->
  exists l e tail,
    logs (fst (dispatch command_sleep s r)) = l ++ e :: tail /\
    LogEntry.text e = "Your time has come. Your kingdom now lives on in legend." /\
    LogEntry.tag e = danger /\
    (List.length tail <= 1)%nat.
Proof.
  intros Hd. rewrite command_sleep_queued. cbv zeta. cbn [fst].
  unfold after_upkeep.
  destruct (sleep_updater_order s (rest (random_event s r))) as [H1 _].
  rewrite (H1 Hd). cbn [val queued rest].
  set (a := consume_food s (rest (random_event s r))).
  set (b := daily_incident (val a) (rest a)).
  set (c := flavour_lines (val b) (rest b)).
  set (q := run_queue (queued (random_event s r)) (val b) (rest c)).
  rewrite !apply_all_app.
  set (Y := apply_all (queued c) (apply_all (queued b) (apply_all (queued a) (val q)))).
  change (apply_all [terminal_line] Y) with (terminal_line Y).
  destruct (resolver_deferred s r (val b) (rest c)) as [Hq | (text & tag & Hq)];
    fold q in Hq; rewrite Hq.
  - change (apply_all [] (terminal_line Y)) with (terminal_line Y).
    unfold terminal_line. rewrite logs_appendLog.
    destruct (slice_last_snoc (logs Y)
                (LogEntry.mk "Your time has come. Your kingdom now lives on in legend."
                   danger (next_log_id (logs Y)))) as [l' Hl].
    rewrite Hl. eexists l', _, []. repeat split. simpl. lia.
  - change (apply_all [appendLog_upd text tag] (terminal_line Y))
      with (appendLog_upd text tag (terminal_line Y)).
    unfold terminal_line. rewrite !logs_appendLog.
    destruct (slice_last_snoc (logs Y)
                (LogEntry.mk "Your time has come. Your kingdom now lives on in legend."
                   danger (next_log_id (logs Y)))) as [l' Hl].
    rewrite Hl.
    match goal with
    | |- context [slice_last 600 ((l' ++ [?e]) ++ [?e2])] =>
        destruct (slice_last_snoc2 l' e e2) as [l'' Hl2]
    end.
    rewrite Hl2. eexists l'', _, [_]. repeat split. simpl. lia.
Qed.

Ltac same_logs := first [assumption | reflexivity].

(** The updater of Sleep returns the log it was given: its lines are only
    issued. *)
Lemma consume_food_logs L x :
  logs x = L -> wp (consume_food x) (fun y => logs y = L) (fun _ : Upd F => True).
Proof. intros Hx. unfold consume_food. cbv zeta. gwp_go ltac:(exact I); same_logs. Qed.

Lemma daily_incident_logs L x :
  logs x = L -> wp (daily_incident x) (fun y => logs y = L) (fun _ : Upd F => True).
Proof. intros Hx. unfold daily_incident. gwp_go ltac:(exact I); same_logs. Qed.

Lemma flavour_lines_logs x :
  wp (flavour_lines x) (fun _ => True) (fun _ : Upd F => True).
Proof. unfold flavour_lines. gwp_go ltac:(exact I). Qed.

Lemma policy_upkeep_logs L x :
  logs x = L -> wp (policy_upkeep x) (fun y => logs y = L) (fun _ : Upd F => True).
Proof.
  intros Hx. unfold policy_upkeep.
  repeat (apply wp_seq with (mid := fun y => logs y = L);
          [gwp_go ltac:(exact I); same_logs | clear x Hx; intros x Hx]).
  apply wp_bind. gwp_go ltac:(exact I); same_logs.
Qed.

Lemma sleep_updater_logs s r : logs (val (sleep_updater s r)) = logs s.
Proof.
  assert (H : wp (sleep_updater s) (fun y => logs y = logs s) (fun _ : Upd F => True)).
  { unfold sleep_updater.
    apply wp_seq with (mid := fun y => logs y = logs s);
      [apply consume_food_logs; reflexivity | intros x Hx].
    apply wp_seq with (mid := fun y => logs y = logs s);
      [apply daily_incident_logs, Hx | clear x Hx; intros x Hx].
    apply wp_seq with (mid := fun _ => True); [apply flavour_lines_logs | intros _ _].
    destruct (day x >=? death_day x).
    - gwp_go ltac:(exact I). exact Hx.
    - apply policy_upkeep_logs, Hx. }
  exact (proj1 (H r)).
Qed.

Lemma appendLog_blind text tag : log_blind_upd (appendLog_upd (F := F) text tag).
Proof. intros x y H. rewrite !logs_appendLog, H. reflexivity. Qed.

Lemma log_blind_lift (f : Upd F) : log_blind_upd f -> log_blind (lift f).
Proof.
  intros Hf x y r H. cbn. split; [apply Hf, H|].
  split; [reflexivity|]. split; [reflexivity | constructor].
Qed.

Lemma apply_all_blind (d : list (Upd F)) x y :
  Forall log_blind_upd d -> logs x = logs y -> logs (apply_all d x) = logs (apply_all d y).
Proof.
  unfold apply_all. revert x y. induction d as [|f d IH]; intros x y Hd H; [exact H|].
  inversion Hd as [|? ? Hf Hd']; subst. cbn [fold_left]. apply IH; [exact Hd' | apply Hf, H].
Qed.

Lemma run_queue_blind (q : list (Updater F)) x y r :
  Forall log_blind q -> logs x = logs y ->
  logs (val (run_queue q x r)) = logs (val (run_queue q y r)) /\
  queued (run_queue q x r) = queued (run_queue q y r) /\
  rest (run_queue q x r) = rest (run_queue q y r) /\
  Forall log_blind_upd (queued (run_queue q x r)).
Proof.
  revert x y r. induction q as [|u q IH]; intros x y r Hq H.
  - cbn. repeat split; [exact H | constructor].
  - inversion Hq as [|? ? Hu Hq']; subst.
    destruct (Hu x y r H) as (H1 & H2 & H3 & H4).
    cbn [run_queue val queued rest]. rewrite <- H3, <- H2.
    destruct (IH (val (u x r)) (val (u y r)) (rest (u x r)) Hq' H1) as (I1 & I2 & I3 & I4).
    split; [exact I1|]. split; [rewrite I2; reflexivity|]. split; [exact I3|].
    apply Forall_app. split; assumption.
Qed.

(** The resolver reads the log only to append to it. *)
Lemma random_event_blind s : wp (random_event s) (fun _ => True) log_blind.
Proof.
  unfold random_event.
  gwp_go ltac:(first
    [ apply log_blind_lift;
      first [ apply appendLog_blind | intros ? ? Hl; exact Hl ]
    | intros ? ? ? Hl; cbn;
      (split; [exact Hl|]); (split; [reflexivity|]); (split; [reflexivity|]);
      repeat constructor; apply appendLog_blind ]).
Qed.

(** When React has computed the updater of Sleep at once, the log is the
    one that the resolver alone would have left. *)
Lemma eager_sleep_log s r1 r :
  logs (fst (dispatch_eager command_sleep s r1 r)) = logs (fst (dispatch random_event s r)).
Proof.
  rewrite command_sleep_eager. unfold dispatch. cbv zeta. cbn [fst].
  pose proof (proj2 (random_event_blind s r)) as Hq. cbv beta in Hq.
  destruct (run_queue_blind (queued (random_event s r)) (val (sleep_updater s r1)) s
              (rest (random_event s r)) Hq (sleep_updater_logs s r1))
    as (H1 & H2 & _ & H4).
  rewrite <- H2. apply apply_all_blind; assumption.
Qed.

(** C3, as the code has it.  One updater applies the food, the daily
    incident, the era lines, the death-day check and then the policy upkeep:
    once the day has reached [death_day] it issues the terminal danger line
    and returns at once, with no upkeep and none of its draws.  The resolver
    is called after that updater has been passed to [set], and its updaters
    run on the ledger that the updater has returned, in the two ways React
    has of running the first update.  Run from the queue, the updater has
    its terminal line in the log, last or followed by the line of a protest;
    computed at once, its lines are dropped and the log is the one that the
    resolver alone would have left. *)
Theorem sleep_order s r1 r :
  (forall r0,
     let a := consume_food s r0 in
     let b := daily_incident (val a) (rest a) in
     let c := flavour_lines (val b) (rest b) in
     (death_day s <= day s + 1 ->
        sleep_updater s r0 =
          mkOut (val b) (queued a ++ queued b ++ queued c ++ [terminal_line]) (rest c)) /\
     (day s + 1 < death_day s ->
        let u := policy_upkeep (val b) (rest c) in
        sleep_updater s r0 =
          mkOut (val u) (queued a ++ queued b ++ queued c ++ queued u) (rest u))) /\
  dispatch command_sleep s r =
    (let q := run_queue (queued (random_event s r))
                (val (after_upkeep s r)) (rest (after_upkeep s r)) in
     (apply_all (queued (after_upkeep s r) ++ queued q) (val q), rest q)) /\
  dispatch_eager command_sleep s r1 r =
    (let q := run_queue (queued (random_event s r))
                (val (sleep_updater s r1)) (rest (random_event s r)) in
     (apply_all (queued q) (val q), rest q)) /\
  (death_day s <= day s + 1 ->
     exists l e tail,
       logs (fst (dispatch command_sleep s r)) = l ++ e :: tail /\
       LogEntry.text e = "Your time has come. Your kingdom now lives on in legend." /\
       LogEntry.tag e = danger /\
       (List.length tail <= 1)%nat) /\
  logs (fst (dispatch_eager command_sleep s r1 r)) = logs (fst (dispatch random_event s r)).
Proof.
  split; [intros r0; apply sleep_updater_order|].
  split; [apply command_sleep_queued|].
  split; [apply command_sleep_eager|].
  split; [apply terminal_line_logged | apply eager_sleep_log].
Qed.

End SleepLog.

(** ** C4: a fight that is over *)

Section FightOver.

(** [src/main.tsx] keeps no [over] flag: a strike after the enemy has
    fallen settles the victory once more. *)
Lemma main_strike_after_victory (s : Main.St) c r :
  Main.cfg (fight s) = Some c -> ehealth s <= 0 ->
  let s' := Main.exec (Main.PlayerAction Main.strike) s r in
  wfight s' = wfight s + 1 /\
  exists reward, money s' = money s + reward /\
    (coins_min c <= coins_max c -> coins_min c <= reward <= coins_max c).
Proof.
  intros Hc He s'. subst s'.
  unfold Main.exec, dispatch. cbn [Main.handler]. unfold Main.playerAction.
  rewrite Hc. unfold Main.resolve_turn, Main.updateFightBars.
  eval_queue.
  set (pdamage := minDmg s + hd 0 r mod (maxDmg s - minDmg s + 1)).
  assert (Hpost : forall x : Main.St, ehealth x <= 0 ->
            forall r1, let o := Main.post c x r1 in
            exists reward, queued o =
              [fun prev : Main.St =>
                 with_wfight (wfight prev + 1) (with_money (money prev + reward) prev)]
              /\ (coins_min c <= coins_max c -> coins_min c <= reward <= coins_max c)).
  { intros x Hx r1. unfold Main.post.
    assert (E : (ehealth x <=? 0) = true) by (apply Z.leb_le; exact Hx).
    rewrite E. cbn [orb]. eval_queue. eexists. split; [reflexivity|].
    intros Hr. apply rand_range. exact Hr. }
  assert (Htick : forall x : Main.St, ehealth x <= 0 ->
            ehealth (Main.poison_tick x) <= 0 /\
            wfight (Main.poison_tick x) = wfight x /\
            money (Main.poison_tick x) = money x).
  { intros x Hx. unfold Main.poison_tick. cbv zeta.
    assert (E : (ehealth x >? 0) = false)
      by (destruct (ehealth x >? 0) eqn:E'; [apply Z.gtb_lt in E'; lia | reflexivity]).
    rewrite E, andb_false_r. simpl. auto. }
  destruct (pdamage >=? 0) eqn:Ep; destruct (Main.stunned (fight s)) eqn:Est; eval_queue;
    match goal with
    | |- context [Main.post c (Main.poison_tick ?x) ?r1] =>
        assert (Hx : ehealth x <= 0)
          by (simpl; try (apply Z.geb_le in Ep); lia);
        destruct (Htick x Hx) as (Ht1 & Ht2 & Ht3);
        destruct (Hpost (Main.poison_tick x) Ht1 r1) as (reward & Hq & Hr);
        cbv zeta in Hq; rewrite Hq;
        cbn [apply_all fold_left app wfight money with_wfight with_money];
        rewrite Ht2, Ht3; simpl; split; [reflexivity | exists reward; split; [reflexivity | exact Hr]]
    end.
Qed.


End FightOver.

(** *** The variant with the flag settles a fight once *)

Section V3Fight.









End V3Fight.

(** ** C1: the invariant on every reachable ledger *)

Section MainReachable.
Import Main MainInv.

Lemma initialState_MInv d : MInv (initialState d).
Proof.
  unfold MInv, Inv, inv_nonneg, enemy_cap, cfg_known. simpl.
  repeat match goal with |- _ /\ _ => split end; try lia.
  intros c Hc. discriminate Hc.
Qed.

Lemma exec_MInv c s r : MInv s -> MInv (exec c s r).
Proof.
  intros Hs. unfold exec. destruct c; cbn [handler];
    try (apply playerAction_inv, Hs);
    (apply dispatch_preserves; [|exact Hs]).
  - apply command_sleep_ok.
  - apply command_tax_ok.
  - apply command_pay_ok.
  - apply command_expand_ok.
  - apply buyStack_ok.
  - apply buyWeapon_ok.
  - apply buyMerchant_ok.
  - apply dismissMerchant_ok.
  - apply startFight_ok.
  - apply togglePolicy_ok.
  - apply save_ok.
Qed.

Lemma reachable_MInv s : reachable s -> MInv s.
Proof.
  induction 1 as [d Hd | s c r Hs IH]; [apply initialState_MInv | apply exec_MInv, IH].
Qed.

Lemma enemy_cap_values (f : FightState) :
  cfg_known f -> enemy_cap f = 100 \/ enemy_cap f = 200 \/ enemy_cap f = 300.
Proof.
  unfold cfg_known, enemy_cap. intros H.
  destruct (cfg f) as [c|]; [|auto].
  destruct (H c eq_refl) as [[] ->]; simpl; auto.
Qed.

End MainReachable.

(** ** The first update computed at once *)

Section EagerFacts.
Context {F : Type}.
Variable P : State F -> Prop.

(** The first updater of the queue runs on the snapshot in either way. *)
Lemma dispatch_eager_first (h : State F -> Handler F) s r1 r u q :
  queued (h s r) = u :: q ->
  wp (u s) P (preserves P) ->
  Forall (updater_ok P) q ->
  P (fst (dispatch_eager h s r1 r)).
Proof.
  intros Hq Hu Hrest. unfold dispatch_eager. cbv zeta. rewrite Hq.
  destruct (Hu r1) as [H1 _].
  destruct (run_queue_preserves P q _ (rest (h s r)) Hrest H1) as [H3 H4].
  apply apply_all_preserves; assumption.
Qed.

Lemma dispatch_eager_preserves (h : State F -> Handler F) s r1 r :
  handler_ok P (h s) -> P s -> P (fst (dispatch_eager h s r1 r)).
Proof.
  intros Hh Hs. destruct (Hh r) as [_ Hq].
  destruct (queued (h s r)) as [|u q] eqn:E.
  - unfold dispatch_eager. cbv zeta. rewrite E. exact Hs.
  - inversion Hq as [|? ? Hu Hq']; subst.
    apply (dispatch_eager_first h s r1 r u q E); [apply Hu, Hs | exact Hq'].
Qed.

End EagerFacts.

Section MainEager.
Import Main MainInv.

Lemma potion_then_tick_eager (f : Upd FightState) (b : bool) s r1 r :
  MInv s -> (b = true -> MInv (f s)) ->
  MInv (fst (dispatch_eager
               (fun _ => (if b then set f else ret tt) ;;; updateFightBars) s r1 r)).
Proof.
  intros Hs Hf. destruct b.
  - eapply dispatch_eager_first.
    + reflexivity.
    + apply wp_ret. apply Hf. reflexivity.
    + constructor; [apply updater_ok_lift, poison_tick_ok | constructor].
  - apply dispatch_eager_preserves; [|exact Hs].
    apply wp_bind, wp_ret. apply updateFightBars_ok.
Qed.

Lemma playerAction_inv_eager action s r1 r :
  MInv s -> MInv (fst (dispatch_eager (playerAction action) s r1 r)).
Proof.
  intros Hs.
  assert (Hk : forall c, cfg (fight s) = Some c -> exists d, c = ENEMY d)
    by (destruct Hs as (_ & _ & _ & Hk & _); exact Hk).
  change (dispatch_eager (playerAction action) s r1 r)
    with (dispatch_eager (fun _ => playerAction action s) s r1 r).
  unfold playerAction.
  destruct (cfg (fight s)) as [c|] eqn:Hc; [|exact Hs].
  destruct (Hk c eq_refl) as [d ->].
  destruct action.
  - apply dispatch_eager_preserves; [|exact Hs].
    apply wp_bind, wp_rand_any. intros u. apply resolve_turn_ok.
  - apply dispatch_eager_preserves; [|exact Hs].
    apply wp_bind, wp_rand_any. intros u. apply resolve_turn_ok.
  - apply (potion_then_tick_eager (fun prev => use_potion K_hpotion (with_phealth 100 prev)));
      [exact Hs|]. intros E. apply Z.gtb_lt in E.
    apply use_potion_ok; [apply with_phealth_ok, Hs | simpl; lia].
  - destruct (dpotion (inventory s) >? 0) eqn:E.
    + apply Z.gtb_lt in E. eapply dispatch_eager_first.
      * reflexivity.
      * apply wp_ret. apply use_potion_ok; [exact Hs | simpl; lia].
      * pose proof (resolve_turn_ok d false
                      (minDmg s + hd 0 r mod (maxDmg s - minDmg s + 1) + 10) s (tl r))
          as [_ H].
        exact H.
    + exact Hs.
  - apply (potion_then_tick_eager (use_potion K_lightning_potion)); [exact Hs|].
    intros E. apply Z.gtb_lt in E. apply use_potion_ok; [exact Hs | simpl; lia].
  - apply (potion_then_tick_eager (use_potion K_sleep_potion)); [exact Hs|].
    intros E. apply Z.gtb_lt in E. apply use_potion_ok; [exact Hs | simpl; lia].
  - apply (potion_then_tick_eager
             (fun prev => use_potion K_poison_potion
                            (with_fight (with_poisonTurns 3 (fight prev)) prev)));
      [exact Hs|].
    intros E. apply Z.gtb_lt in E.
    apply use_potion_ok; [apply with_poisonTurns_ok, Hs | simpl; lia].
Qed.

Lemma exec_eager_MInv c s r1 r : MInv s -> MInv (exec_eager c s r1 r).
Proof.
  intros Hs. unfold exec_eager. destruct c; cbn [handler];
    try (apply playerAction_inv_eager, Hs);
    (apply dispatch_eager_preserves; [|exact Hs]).
  - apply command_sleep_ok.
  - apply command_tax_ok.
  - apply command_pay_ok.
  - apply command_expand_ok.
  - apply buyStack_ok.
  - apply buyWeapon_ok.
  - apply buyMerchant_ok.
  - apply dismissMerchant_ok.
  - apply startFight_ok.
  - apply togglePolicy_ok.
  - apply save_ok.
Qed.

Lemma played_MInv s : played s -> MInv s.
Proof.
  induction 1 as [d Hd | s c r Hs IH | s c r1 r Hs IH];
    [apply initialState_MInv | apply exec_MInv, IH | apply exec_eager_MInv, IH].
Qed.

Lemma reachable_played s : reachable s -> played s.
Proof.
  induction 1 as [d Hd | s c r Hs IH]; [apply played_init, Hd | apply played_queued, IH].
Qed.

End MainEager.

Section MainLedger.
Import Main MainInv.

(** C1, as the code has it.  After any command on any ledger of a game
    played with whole quantities, with any draws and whichever way React
    runs the command: happiness and the player's health stay in [[0,100]],
    the enemy's health stays between 0 and the health of the enemy of the
    fight in progress (100, 200 or 300; 100 before any fight), no inventory
    counter is negative, strength does not exceed its maximum and the
    population is not negative. *)
Theorem ledger_invariant s c r1 r s' :
  played s ->
  s' = exec c s r \/ s' = exec_eager c s r1 r ->
  0 <= happiness s' <= 100 /\
  0 <= phealth s' <= 100 /\
  0 <= ehealth s' <= enemy_cap (fight s') /\
  enemy_cap (fight s') <= 300 /\
  inv_nonneg (inventory s') /\
  strength s' <= maxstrength s' /\
  0 <= people s'.
Proof.
  intros Hs Hs'.
  assert (H : MInv s').
  { destruct Hs' as [-> | ->];
      [apply exec_MInv | apply exec_eager_MInv]; apply played_MInv, Hs. }
  destruct H as (Hh & Hp & He & Hk & Hi & Hst & _ & Hpe & _).
  pose proof (enemy_cap_values _ Hk).
  repeat match goal with |- _ /\ _ => split end; try assumption; lia.
Qed.

Lemma ledger_invariant_witness :
  let s' := exec_eager (StartFight HARD) (exec Sleep (initialState 100) [55; 1; 50]) [] [] in
  0 <= happiness s' <= 100 /\
  0 <= phealth s' <= 100 /\
  0 <= ehealth s' <= enemy_cap (fight s') /\
  enemy_cap (fight s') <= 300 /\
  inv_nonneg (inventory s') /\
  strength s' <= maxstrength s' /\
  0 <= people s'.
Proof.
  apply (ledger_invariant (exec Sleep (initialState 100) [55; 1; 50]) (StartFight HARD) [] []).
  - apply played_queued, played_init. lia.
  - right. reflexivity.
Defined.

(** C1 fails on the code: the bound [ehealth <= 100] fails as soon as a Medium or
    Hard fight starts. *)
Lemma ehealth_above_100 :
  reachable (initialState 100) /\
  ehealth (exec (StartFight HARD) (initialState 100) []) = 300 /\
  ~ (0 <= ehealth (exec (StartFight HARD) (initialState 100) []) <= 100).
Proof.
  split; [apply reach_init; lia|]. split; [reflexivity|].
  vm_compute. intros [_ H]. apply H. reflexivity.
Qed.

End MainLedger.

(** A quantity of one and a half: the counter is 1.5 after the purchase, and
    the second potion action, which finds 0.5, leaves it below zero. *)
Lemma fraction_below_zero :
  Fraction.stocked 0 (Fraction.quantity 1.5) = 1.5%float /\
  Fraction.potion_used (Fraction.stocked 0 (Fraction.quantity 1.5)) = 0.5%float /\
  Fraction.potion_used (Fraction.potion_used (Fraction.stocked 0 (Fraction.quantity 1.5)))
    = (-0.5)%float.
Proof. repeat split; vm_compute; reflexivity. Qed.

(** ** Concrete games *)

Section Concrete.
Import Main Runs.

Lemma charity_state_reachable : reachable charity_state.
Proof. unfold charity_state. repeat apply reach_exec. apply reach_init. lia. Qed.

Lemma won_fight_reachable : reachable won_fight.
Proof.
  unfold won_fight. cbn [fold_left repeat].
  repeat apply reach_exec. apply reach_init. lia.
Qed.

Lemma all_unlocked_reachable : reachable all_unlocked.
Proof.
  unfold all_unlocked. cbn [fold_left repeat].
  repeat apply reach_exec. apply reach_init. lia.
Qed.

(** C3 fails on the code: with no money and Charity Relief active, a night
    that finds a treasure of 275 ends with 275 coins, the upkeep having seen
    the empty treasury; in the specified order the relief would have been
    paid from the treasure, leaving 245 and four more points of happiness. *)
Lemma sleep_not_as_specified :
  reachable charity_state /\
  money (exec Sleep charity_state treasure_draws) = 275 /\
  happiness (exec Sleep charity_state treasure_draws) = 0 /\
  money (sleep_as_specified charity_state treasure_draws) = 245 /\
  happiness (sleep_as_specified charity_state treasure_draws) = 4 /\
  ~ same_ledger (exec Sleep charity_state treasure_draws)
      (sleep_as_specified charity_state treasure_draws).
Proof.
  split; [exact charity_state_reachable|].
  split; [vm_compute; reflexivity|].
  split; [vm_compute; reflexivity|].
  split; [vm_compute; reflexivity|].
  split; [vm_compute; reflexivity|].
  intros H. apply (f_equal money) in H. vm_compute in H. discriminate H.
Qed.

Lemma sleep_order_witness :
  exists l e tail,
    logs (fst (dispatch command_sleep last_night treasure_draws)) = l ++ e :: tail /\
    LogEntry.text e = "Your time has come. Your kingdom now lives on in legend." /\
    LogEntry.tag e = danger /\
    (List.length tail <= 1)%nat.
Proof.
  destruct (sleep_order last_night [] treasure_draws) as (_ & _ & _ & H & _).
  apply H. simpl. lia.
Defined.

(** C4 on [src/main.tsx]: the fight is won (one win, enemy at 0), and one
    more strike pays a second reward and counts a second win. *)
Theorem main_victory_settled_twice :
  reachable won_fight /\
  wfight won_fight = 1 /\ ehealth won_fight = 0 /\
  wfight (exec (PlayerAction strike) won_fight strike15) = 2 /\
  money (exec (PlayerAction strike) won_fight strike15) = money won_fight + 50.
Proof.
  split; [exact won_fight_reachable|].
  split; [vm_compute; reflexivity|].
  split; [vm_compute; reflexivity|].
  split; [vm_compute; reflexivity|].
  vm_compute. reflexivity.
Qed.

(** C9 fails on the code: with the eight policies unlocked, a roll of 56
    appends nothing. *)
Lemma policy_bucket_silent :
  reachable all_unlocked /\
  locked_keys (policies all_unlocked) = [] /\
  bucket_of (val (rand (Q := Updater FightState) 1 100 [55])) = PolicyUnlock /\
  logs (fst (dispatch random_event all_unlocked [55])) = logs all_unlocked /\
  ~ exists text tag,
      one_entry text tag all_unlocked (fst (dispatch random_event all_unlocked [55])).
Proof.
  split; [exact all_unlocked_reachable|].
  split; [vm_compute; reflexivity|].
  split; [vm_compute; reflexivity|].
  split; [vm_compute; reflexivity|].
  assert (E : List.length (logs (fst (dispatch random_event all_unlocked [55]))) = 24%nat)
    by (vm_compute; reflexivity).
  assert (E0 : List.length (logs all_unlocked) = 24%nat) by (vm_compute; reflexivity).
  intros (text & tag & H). apply one_entry_length in H; lia.
Qed.

Lemma random_event_log_witness :
  exists text, one_entry text system (initialState 100)
                 (fst (dispatch random_event (initialState 100) [55])).
Proof.
  apply (random_event_log (initialState 100) [55]).
  - vm_compute. reflexivity.
  - vm_compute. discriminate.
Defined.

Lemma merchant_discount_witness :
  discountedPrice (with_merchant_relationship 3 (initialState 100)) 1000 = (820, 18).
Proof.
  apply (merchant_discount (with_merchant_relationship 3 (initialState 100)) []).
  - simpl. lia.
  - reflexivity.
Defined.

Lemma buyMerchant_refusal_witness :
  same_ledger (fst (dispatch buyMerchant (fst (dispatch buyMerchant broke_with_offer [])) []))
    broke_with_offer.
Proof.
  apply (buyMerchant_refusal broke_with_offer
           (UniqueOffer "Ancient Scroll" (Some eff_maxstrength) 1 1000) [] []).
  - reflexivity.
  - simpl. lia.
Defined.

Lemma short_circuit_actions_witness :
  phealth (exec (PlayerAction heal) hurt_with_potion []) = 100.
Proof.
  apply (short_circuit_actions heal hurt_with_potion hurt_with_potion_v3 []).
  - left. reflexivity.
  - simpl. lia.
  - simpl. lia.
  - simpl. discriminate.
  - simpl. discriminate.
  - reflexivity.
  - reflexivity.
  - simpl. lia.
Defined.


Lemma daily_incident_spec_witness :
  exists loss, 50 <= loss <= 200 /\
    val (daily_incident (initialState 100) [9; 0]) =
      with_money (Z.max 0 (money (initialState 100) - loss)) (initialState 100).
Proof.
  apply (daily_incident_spec (initialState 100) [9; 0]).
  vm_compute. discriminate.
Defined.

End Concrete.

(** ** C8: the state through [JSON.stringify] and [JSON.parse] *)

Section JsonText.

Lemma append_assoc (a b c : string) :
  String.append (String.append a b) c = String.append a (String.append b c).
Proof. induction a as [|x a IH]; simpl; [reflexivity | rewrite IH; reflexivity]. Qed.

Lemma length_append (a b : string) :
  String.length (String.append a b) = (String.length a + String.length b)%nat.
Proof. induction a as [|x a IH]; simpl; [reflexivity | rewrite IH; reflexivity]. Qed.

Lemma parse_chars_escape_char c X :
  parse_chars (String.append (escape_char c) X) = cons_char c (parse_chars X).
Proof.
  destruct (Ascii.eqb_spec c dquote) as [->|H1]; [reflexivity|].
  destruct (Ascii.eqb_spec c backslash) as [->|H2]; [reflexivity|].
  destruct (Nat.ltb_spec (nat_of_ascii c) 32) as [H3|H3].
  - rewrite <- (ascii_nat_embedding c). remember (nat_of_ascii c) as n eqn:En.
    clear - H3.
    do 32 (destruct n as [|n]; [reflexivity|]). lia.
  - apply Ascii.eqb_neq in H1. apply Ascii.eqb_neq in H2.
    assert (E3 : (nat_of_ascii c <? 32)%nat = false) by (apply Nat.ltb_ge; exact H3).
    unfold escape_char. cbv zeta. rewrite H1, H2, E3.
    repeat match goal with
           | |- context [(nat_of_ascii c =? ?k)%nat] =>
               destruct (Nat.eqb_spec (nat_of_ascii c) k); [lia|]
           end.
    cbn [String.append parse_chars]. rewrite H1, H2, E3. reflexivity.
Qed.

Lemma parse_chars_escape s tail :
  parse_chars (String.append (escape_string s) (String dquote tail)) = Some (s, tail).
Proof.
  induction s as [|c s IH].
  - reflexivity.
  - cbn [escape_string]. rewrite append_assoc, parse_chars_escape_char, IH. reflexivity.
Qed.

Lemma parse_digits_print d tail :
  no_digit tail -> parse_digits (String.append (NilEmpty.string_of_uint d) tail) = (d, tail).
Proof.
  intros Ht. induction d; cbn; try (rewrite IHd; reflexivity).
  destruct tail as [|c tail]; [reflexivity|].
  cbn in Ht. cbn. rewrite Ht. reflexivity.
Qed.

Lemma show_parse z tail fuel :
  no_digit tail ->
  parse_value (S fuel) (String.append (show z) tail) = Some (JNum z, tail).
Proof.
  intros Ht. unfold show.
  pose proof (DecimalZ.of_to z) as Hz.
  destruct (Z.to_int z) as [d|d] eqn:Ed.
  - assert (Hd : d <> Decimal.Nil).
    { destruct z; simpl in Ed; inversion Ed; subst;
        [discriminate | apply DecimalPos.Unsigned.to_uint_nonnil].  }
    unfold NilZero.string_of_int, NilZero.string_of_uint.
    destruct d; [contradiction | ..];
      cbn [NilEmpty.string_of_uint String.append parse_value];
      cbn [Ascii.eqb Bool.eqb dquote];
      unfold parse_number; cbn [parse_digits digit_of_char uint_of_char];
      rewrite (parse_digits_print _ _ Ht); rewrite Hz; reflexivity.
  - assert (Hd : d <> Decimal.Nil).
    { destruct z; simpl in Ed; inversion Ed; subst.
      apply DecimalPos.Unsigned.to_uint_nonnil. }
    unfold NilZero.string_of_int, NilZero.string_of_uint.
    destruct d; [contradiction | ..];
      cbn [NilEmpty.string_of_uint String.append parse_value];
      cbn [Ascii.eqb Bool.eqb dquote];
      unfold parse_number; cbn [parse_digits digit_of_char uint_of_char];
      rewrite (parse_digits_print _ _ Ht); rewrite Hz; reflexivity.
Qed.

End JsonText.

Section JsonRoundTrip.

Lemma show_head z X :
  head_is "]" (String.append (show z) X) = false /\
  no_digit (String "," X) /\
  exists c s, show z = String c s.
Proof.
  unfold show.
  destruct (Z.to_int z) as [d|d] eqn:Ed.
  - assert (Hd : d <> Decimal.Nil).
    { destruct z; simpl in Ed; inversion Ed; subst;
        [discriminate | apply DecimalPos.Unsigned.to_uint_nonnil]. }
    unfold NilZero.string_of_int, NilZero.string_of_uint.
    destruct d; [contradiction | ..]; (split; [reflexivity|]; split; [reflexivity|]);
      cbn [NilEmpty.string_of_uint]; eauto.
  - unfold NilZero.string_of_int. split; [reflexivity|]. split; [reflexivity|]. eauto.
Qed.

Lemma stringify_head j X : head_is "]" (String.append (JSON_stringify j) X) = false.
Proof.
  destruct j as [|[|]|z|s|l|l]; try reflexivity.
  apply show_head.
Qed.

Lemma stringify_nonempty j : (0 < String.length (JSON_stringify j))%nat.
Proof.
  destruct j as [|[|]|z|s|l|l]; cbn; try lia.
  destruct (show_head z "") as (_ & _ & c & s & ->). cbn. lia.
Qed.

Lemma assign_fresh {V} k (v : V) o :
  ~ In k (map fst o) -> assign k v o = o ++ [(k, v)].
Proof.
  induction o as [|[k' v'] o IH]; simpl; intros H; [reflexivity|].
  destruct (String.eqb_spec k k') as [->|Hk]; [exfalso; apply H; left; reflexivity|].
  rewrite IH; [reflexivity | intros Hin; apply H; right; exact Hin].
Qed.

Lemma build_object_nodup (l : list (string * json)) :
  NoDup (map fst l) -> build_object l = l.
Proof.
  unfold build_object.
  assert (H : forall acc, NoDup (map fst (acc ++ l)) ->
            fold_left (fun o kv => assign (fst kv) (snd kv) o) l acc = acc ++ l).
  { induction l as [|[k v] l IH]; intros acc Hnd; simpl.
    - rewrite app_nil_r. reflexivity.
    - rewrite assign_fresh.
      + rewrite IH; rewrite <- app_assoc; [reflexivity | exact Hnd].
      + rewrite map_app in Hnd. simpl in Hnd. apply NoDup_remove_2 in Hnd.
        intros Hin. apply Hnd. apply in_or_app. left. exact Hin. }
  intros Hnd. apply (H []). exact Hnd.
Qed.

Lemma join_cons (x : string) (l : list string) :
  l <> [] -> join (x :: l) = String.append x (String "," (join l)).
Proof. destruct l; [contradiction | reflexivity]. Qed.

Lemma quote_append s X :
  String.append (quote s) X =
  String dquote (String.append (escape_string s) (String dquote X)).
Proof. unfold quote. cbn [String.append]. rewrite append_assoc. reflexivity. Qed.

Lemma elements_read_back (l : list json) :
  Forall reads_back l -> wf_json (JArr l) -> l <> [] ->
  forall tail fuel,
    (String.length (join (map JSON_stringify l)) + 1 < fuel)%nat ->
    parse_elements fuel (String.append (join (map JSON_stringify l)) (String "]" tail))
    = Some (l, tail).
Proof.
  induction l as [|v l IH]; intros Hall Hwf Hne tail fuel Hfuel; [contradiction|].
  inversion Hall as [|? ? Hv Hl]; subst. destruct Hwf as [Hwv Hwl].
  destruct fuel as [|fuel]; [lia|].
  destruct l as [|v' l].
  - cbn [map join] in *. cbn [parse_elements].
    rewrite (Hv Hwv (String "]" tail) fuel); [reflexivity | reflexivity | lia].
  - remember (v' :: l) as l' eqn:El'.
    assert (Hwl' : wf_json (JArr l')) by (subst l'; exact Hwl).
    assert (Hne' : l' <> []) by (subst l'; discriminate).
    assert (Hne'' : map JSON_stringify l' <> []) by (subst l'; discriminate).
    cbn [map] in Hfuel |- *. rewrite (join_cons _ _ Hne'') in Hfuel |- *.
    rewrite length_append in Hfuel. cbn [String.length] in Hfuel.
    rewrite append_assoc. cbn [String.append parse_elements].
    rewrite (Hv Hwv _ fuel); [| reflexivity | lia].
    cbn [Ascii.eqb Bool.eqb].
    rewrite (IH Hl Hwl' Hne' tail fuel); [reflexivity | lia].
Qed.

Lemma members_read_back (l : list (string * json)) :
  Forall (fun kv => reads_back (snd kv)) l ->
  (forall kv, In kv l -> wf_json (snd kv)) -> l <> [] ->
  forall tail fuel,
    (String.length (join (map member_text l)) + 1 < fuel)%nat ->
    parse_members fuel (String.append (join (map member_text l)) (String "}" tail))
    = Some (l, tail).
Proof.
  induction l as [|[k v] l IH]; intros Hall Hwf Hne tail fuel Hfuel; [contradiction|].
  inversion Hall as [|? ? Hv Hl]; subst. cbn [snd] in Hv.
  assert (Hwv : wf_json v) by (apply (Hwf (k, v)); left; reflexivity).
  assert (Hwl : forall kv, In kv l -> wf_json (snd kv))
    by (intros kv Hin; apply Hwf; right; exact Hin).
  destruct fuel as [|fuel]; [lia|].
  assert (Hmem : forall X,
            String.append (member_text (k, v)) X =
            String dquote (String.append (escape_string k)
              (String dquote (String ":" (String.append (JSON_stringify v) X))))).
  { intros X. unfold member_text, quote. cbn [fst snd String.append].
    rewrite !append_assoc. cbn [String.append]. reflexivity. }
  assert (Hlen : (String.length (JSON_stringify v) < String.length (member_text (k, v)))%nat).
  { unfold member_text, quote. cbn [fst snd String.length String.append].
    rewrite !length_append. cbn [String.length]. lia. }
  destruct l as [|kv' l].
  - cbn [map join] in *. rewrite Hmem. cbn [parse_members].
    replace (Ascii.eqb dquote dquote) with true by reflexivity.
    rewrite parse_chars_escape. cbn [Ascii.eqb Bool.eqb].
    rewrite (Hv Hwv (String "}" tail) fuel); [reflexivity | reflexivity | lia].
  - remember (kv' :: l) as l' eqn:El'.
    assert (Hne' : l' <> []) by (subst l'; discriminate).
    assert (Hne'' : map member_text l' <> []) by (subst l'; discriminate).
    cbn [map] in Hfuel |- *. rewrite (join_cons _ _ Hne'') in Hfuel |- *.
    rewrite length_append in Hfuel. cbn [String.length] in Hfuel.
    rewrite append_assoc. rewrite Hmem. cbn [String.append parse_members].
    replace (Ascii.eqb dquote dquote) with true by reflexivity.
    rewrite parse_chars_escape. cbn [Ascii.eqb Bool.eqb].
    rewrite (Hv Hwv _ fuel); [| reflexivity | lia].
    cbn [Ascii.eqb Bool.eqb].
    rewrite (IH Hl Hwl Hne' tail fuel); [reflexivity | lia].
Qed.

Lemma wf_members (l : list (string * json)) :
  wf_json (JObj l) -> NoDup (map fst l) /\ forall kv, In kv l -> wf_json (snd kv).
Proof.
  intros [Hnd Hall]. split; [exact Hnd|].
  induction l as [|kv l IH]; [intros ? []|].
  destruct Hall as [Hkv Hl]. inversion Hnd; subst.
  intros kv' [<-|Hin]; [exact Hkv | apply IH; assumption].
Qed.

Lemma value_reads_back j : reads_back j.
Proof.
  induction j as [|b|z|s|l IH|l IH] using json_induction;
    intros Hwf tail fuel Htail Hfuel; (destruct fuel as [|fuel]; [lia|]).
  - reflexivity.
  - destruct b; reflexivity.
  - apply show_parse. exact Htail.
  - cbn [JSON_stringify]. rewrite quote_append. cbn [parse_value].
    replace (Ascii.eqb dquote "n") with false by reflexivity.
    replace (Ascii.eqb dquote "t") with false by reflexivity.
    replace (Ascii.eqb dquote "f") with false by reflexivity.
    replace (Ascii.eqb dquote dquote) with true by reflexivity.
    rewrite parse_chars_escape. reflexivity.
  - cbn [JSON_stringify] in Hfuel |- *. cbn [String.append parse_value].
    cbn [Ascii.eqb Bool.eqb dquote].
    rewrite append_assoc. cbn [String.append].
    destruct l as [|v l].
    + reflexivity.
    + assert (Hh : head_is "]" (String.append (join (map JSON_stringify (v :: l)))
                                  (String "]" tail)) = false).
      { destruct l; cbn [map join]; [apply stringify_head|].
        rewrite append_assoc. apply stringify_head. }
      rewrite Hh.
      cbn [String.length] in Hfuel. rewrite length_append in Hfuel.
      cbn [String.length] in Hfuel.
      rewrite (elements_read_back (v :: l) IH Hwf ltac:(discriminate) tail fuel);
        [reflexivity | lia].
  - cbn [JSON_stringify] in Hfuel |- *. cbn [String.append parse_value].
    cbn [Ascii.eqb Bool.eqb dquote].
    rewrite append_assoc. cbn [String.append].
    destruct (wf_members l Hwf) as [Hnd Hall].
    change (map (fun kv : string * json =>
                   String.append (quote (fst kv)) (String ":" (JSON_stringify (snd kv)))) l)
      with (map member_text l) in *.
    destruct l as [|kv l].
    + reflexivity.
    + assert (Hh : head_is "}" (String.append (join (map member_text (kv :: l)))
                                  (String "}" tail)) = false).
      { cbn [map join]. destruct l; reflexivity. }
      rewrite Hh.
      cbn [String.length] in Hfuel. rewrite length_append in Hfuel.
      cbn [String.length] in Hfuel.
      rewrite (members_read_back (kv :: l) IH Hall ltac:(discriminate) tail fuel);
        [| lia].
      rewrite build_object_nodup by exact Hnd. reflexivity.
Qed.

(** Reading back what was written gives the value written. *)
Lemma JSON_round_trip j : wf_json j -> JSON_parse (JSON_stringify j) = Some j.
Proof.
  intros Hwf. unfold JSON_parse.
  pose proof (value_reads_back j Hwf EmptyString (S (String.length (JSON_stringify j))) I
                ltac:(lia)) as H.
  assert (E : String.append (JSON_stringify j) EmptyString = JSON_stringify j).
  { generalize (JSON_stringify j). intros s. induction s as [|c s IH]; simpl;
      [reflexivity | rewrite IH; reflexivity]. }
  rewrite E in H. rewrite H. reflexivity.
Qed.

End JsonRoundTrip.

(** ** The keys of the three maps of the ledger *)

Section AssocKeys.
Context {V : Type}.

Lemma lookup_key k (o : list (string * V)) v : lookup k o = Some v -> In k (map fst o).
Proof.
  induction o as [|[k' v'] o IH]; simpl; [discriminate|].
  destruct (String.eqb_spec k k') as [->|]; [left; reflexivity | right; auto].
Qed.

Lemma key_lookup k (o : list (string * V)) : In k (map fst o) -> exists v, lookup k o = Some v.
Proof.
  induction o as [|[k' v'] o IH]; simpl; [contradiction|].
  destruct (String.eqb_spec k k') as [->|Hn]; [eauto|].
  intros [E|Hin]; [congruence | auto].
Qed.

Lemma assign_keys k v (o : list (string * V)) :
  In k (map fst o) -> map fst (assign k v o) = map fst o.
Proof.
  induction o as [|[k' v'] o IH]; simpl; [contradiction|].
  destruct (String.eqb_spec k k') as [->|Hn]; [reflexivity|].
  intros [E|Hin]; [congruence|]. simpl. rewrite IH by exact Hin. reflexivity.
Qed.

Lemma assign_keys_new k v (o : list (string * V)) :
  ~ In k (map fst o) -> map fst (assign k v o) = map fst o ++ [k].
Proof.
  induction o as [|[k' v'] o IH]; simpl; [reflexivity|].
  destruct (String.eqb_spec k k') as [->|Hn]; [tauto|].
  intros Hin. simpl. rewrite IH by tauto. reflexivity.
Qed.

Lemma assign_NoDup k v (o : list (string * V)) :
  NoDup (map fst o) -> NoDup (map fst (assign k v o)).
Proof.
  intros Hnd. destruct (in_dec string_dec k (map fst o)) as [Hin|Hin].
  - rewrite assign_keys by exact Hin. exact Hnd.
  - rewrite assign_keys_new by exact Hin.
    apply NoDup_app; [exact Hnd | repeat constructor; intros [] | ].
    intros x Hx [<-|[]]. contradiction.
Qed.

Lemma assignZ_keys k v (o : list (Z * V)) :
  In k (map fst o) -> map fst (assignZ k v o) = map fst o.
Proof.
  induction o as [|[k' v'] o IH]; simpl; [contradiction|].
  destruct (Z.eqb_spec k k') as [->|Hn]; [reflexivity|].
  intros [E|Hin]; [congruence|]. simpl. rewrite IH by exact Hin. reflexivity.
Qed.

Lemma assignZ_keys_new k v (o : list (Z * V)) :
  ~ In k (map fst o) -> map fst (assignZ k v o) = map fst o ++ [k].
Proof.
  induction o as [|[k' v'] o IH]; simpl; [reflexivity|].
  destruct (Z.eqb_spec k k') as [->|Hn]; [tauto|].
  intros Hin. simpl. rewrite IH by tauto. reflexivity.
Qed.

Lemma assignZ_NoDup k v (o : list (Z * V)) :
  NoDup (map fst o) -> NoDup (map fst (assignZ k v o)).
Proof.
  intros Hnd. destruct (in_dec Z.eq_dec k (map fst o)) as [Hin|Hin].
  - rewrite assignZ_keys by exact Hin. exact Hnd.
  - rewrite assignZ_keys_new by exact Hin.
    apply NoDup_app; [exact Hnd | repeat constructor; intros [] | ].
    intros x Hx [<-|[]]. contradiction.
Qed.

End AssocKeys.

Lemma locked_keys_In k ps : In k (locked_keys ps) -> In k (map fst ps).
Proof.
  unfold locked_keys. rewrite !in_map_iff. intros (kv & E & Hin).
  apply filter_In in Hin. exists kv. tauto.
Qed.

Section KeyInvariant.
Context {F : Type}.

Variable pk : list string.

Lemma Keys_appendLog text tag : preserves (Keys (F := F) pk) (appendLog_upd text tag).
Proof. intros x Hx. unfold appendLog_upd, Keys in *. simpl. exact Hx. Qed.

End KeyInvariant.

Ltac keys_solve :=
  unfold Keys, with_bread in *; simpl in *;
  repeat match goal with H : _ /\ _ |- _ => destruct H end;
  repeat match goal with |- _ /\ _ => split end;
  solve [ assumption
        | apply assign_NoDup; assumption
        | apply assignZ_NoDup; assumption
        | lia ].

Ltac kwp_step :=
  lazymatch goal with
  | |- wp (bind _ _) _ _ => apply wp_bind
  | |- wp (ret _) _ _ => apply wp_ret
  | |- wp (rand _ _) _ _ => apply wp_rand_any; intros ?
  | |- wp random_lt_half _ _ => apply wp_random_lt_half; intros ?
  | |- wp (random_index _) _ _ => apply wp_random_index; intros ?
  | |- wp (appendLog _ _) _ (preserves _) =>
      apply wp_set_updater; [apply Keys_appendLog | ]
  | |- wp (appendLog _ _) _ (updater_ok _) =>
      apply wp_set_handler; [apply Keys_appendLog | ]
  | |- wp (set _) _ (updater_ok _) => apply wp_set_handler; [intros ? ? | ]
  | |- wp (set _) _ (preserves _) => apply wp_set_updater; [intros ? ? | ]
  | |- wp (set_fn _) _ _ => apply wp_set_fn; [intros ? ? | ]
  | |- wp (showMerchantOffer _) _ _ => unfold showMerchantOffer
  | |- wp (if ?b then _ else _) _ _ => destruct b eqn:?
  | |- wp (match ?x with _ => _ end) _ _ => destruct x eqn:?
  | |- wp (let _ := _ in _) _ _ => cbv zeta
  end.

Ltac kwp_go := repeat kwp_step; try exact I; try keys_solve.

Section SharedKeys.
Context {F : Type}.
Variable pk : list string.
Local Abbreviation KeysC := (Keys (F := F) pk).

Lemma consume_food_keys x : KeysC x -> wp (consume_food x) KeysC (preserves KeysC).
Proof. intros Hx. unfold consume_food. cbv zeta. kwp_go. Qed.

Lemma daily_incident_keys x : KeysC x -> wp (daily_incident x) KeysC (preserves KeysC).
Proof. intros Hx. unfold daily_incident. kwp_go. Qed.

Lemma flavour_lines_keys x : wp (flavour_lines x) (fun _ => True) (preserves KeysC).
Proof. unfold flavour_lines. kwp_go. Qed.

Lemma policy_upkeep_keys x : KeysC x -> wp (policy_upkeep x) KeysC (preserves KeysC).
Proof.
  intros Hx. unfold policy_upkeep.
  repeat (apply wp_seq with (mid := KeysC); [kwp_go | clear x Hx; intros x Hx]).
  apply wp_bind. kwp_go.
Qed.

Lemma sleep_updater_keys : updater_ok KeysC sleep_updater.
Proof.
  intros x Hx. unfold sleep_updater.
  apply wp_seq with (mid := KeysC); [apply consume_food_keys, Hx | clear x Hx; intros x Hx].
  apply wp_seq with (mid := KeysC); [apply daily_incident_keys, Hx | clear x Hx; intros x Hx].
  apply wp_seq with (mid := fun _ => True); [apply flavour_lines_keys | intros _ _].
  destruct (day x >=? death_day x).
  - kwp_go.
  - apply policy_upkeep_keys, Hx.
Qed.

Lemma merchant_event_keys s : handler_ok KeysC (merchant_event s).
Proof.
  unfold handler_ok, merchant_event.
  apply wp_seq with (mid := fun _ => True); [kwp_go | intros offerType _].
  cbv zeta. kwp_go.
Qed.

(** Unlocking a policy that the rendered state lists keeps the names. *)
Lemma unlock_keys s key :
  KeysC s -> In key (locked_keys (policies s)) -> preserves KeysC (unlock key).
Proof.
  intros Hs Hin x Hx. apply locked_keys_In in Hin.
  destruct Hs as (Hs & _). destruct Hx as (Hp & Hm & Ho & Hr).
  unfold unlock. cbv zeta. unfold Keys. simpl.
  split; [|split; [exact Hm | split; [exact Ho | exact Hr]]].
  rewrite assign_keys; [exact Hp | rewrite Hp, <- Hs; exact Hin].
Qed.

Lemma random_event_keys s : KeysC s -> handler_ok KeysC (random_event s).
Proof.
  intros Hs. unfold handler_ok, random_event.
  kwp_step. kwp_step.
  repeat (lazymatch goal with
          | |- wp (if ?b then _ else _) _ _ => destruct b eqn:?
          end;
          [ try (kwp_go; fail) | ]).
  all: try apply merchant_event_keys.
  all: kwp_go.
  match goal with
  | Hl : locked_keys (policies s) = _, Hn : nth_error _ _ = Some ?k, Hx : Keys _ ?x |- _ =>
      apply (unlock_keys s k Hs); [rewrite Hl; exact (nth_error_In _ _ Hn) | exact Hx]
  end.
Qed.

Lemma command_sleep_keys s : KeysC s -> handler_ok KeysC (command_sleep s).
Proof.
  intros Hs. unfold handler_ok, command_sleep. apply wp_bind.
  apply wp_set_fn; [apply sleep_updater_keys | apply random_event_keys, Hs].
Qed.

Lemma expand_updater_keys : updater_ok KeysC expand_updater.
Proof. intros x Hx. unfold expand_updater. cbv zeta. kwp_go. Qed.

Lemma buyStack_keys key price qty name s : handler_ok KeysC (buyStack key price qty name s).
Proof.
  unfold handler_ok, buyStack. cbv zeta. kwp_go.
Qed.

Lemma buyWeapon_keys era wid s : handler_ok KeysC (buyWeapon era wid s).
Proof. unfold handler_ok, buyWeapon. kwp_go. Qed.

Lemma buyMerchant_keys s : handler_ok KeysC (buyMerchant s).
Proof. unfold handler_ok, buyMerchant. kwp_go. Qed.

Lemma dismissMerchant_keys s : handler_ok KeysC (dismissMerchant s).
Proof. unfold handler_ok, dismissMerchant. kwp_go. Qed.

(** The row of a policy that the rendered state lists. *)
Lemma togglePolicy_keys name s : KeysC s -> handler_ok KeysC (togglePolicy name s).
Proof.
  intros Hs. unfold handler_ok, togglePolicy.
  destruct (lookup name (policies s)) as [data|] eqn:El; [|apply wp_ret; exact I].
  destruct (locked data); [apply wp_ret; exact I|].
  apply wp_bind. apply wp_set_handler; [|kwp_go].
  intros x Hx. apply lookup_key in El.
  destruct Hs as (Hs & _). destruct Hx as (Hp & Hm & Ho & Hr).
  unfold Keys. simpl.
  split; [|split; [exact Hm | split; [exact Ho | exact Hr]]].
  rewrite assign_keys; [exact Hp | rewrite Hp, <- Hs; exact El].
Qed.

Lemma save_keys s : handler_ok KeysC (save s).
Proof. unfold handler_ok, save. kwp_go. Qed.

End SharedKeys.

Section MainKeys.
Import Main.

Lemma command_tax_keys s : handler_ok MKeys (command_tax s).
Proof. unfold handler_ok, command_tax, MKeys. kwp_go. Qed.

Lemma command_pay_keys s : handler_ok MKeys (command_pay s).
Proof. unfold handler_ok, command_pay, MKeys. kwp_go. Qed.

Lemma command_expand_keys s : handler_ok MKeys (command_expand s).
Proof.
  unfold handler_ok, command_expand, MKeys. kwp_go.
  apply expand_updater_keys; assumption.
Qed.

Lemma startFight_keys diff s : handler_ok MKeys (startFight diff s).
Proof. unfold handler_ok, startFight, MKeys. kwp_go. Qed.

Lemma poison_tick_keys : preserves MKeys poison_tick.
Proof.
  intros x Hx. unfold poison_tick, MKeys in *. cbv zeta.
  destruct ((poisonTurns (fight x) >? 0) && (ehealth x >? 0)); keys_solve.
Qed.

Lemma use_potion_keys key x : MKeys x -> MKeys (use_potion key x).
Proof. intros Hx. unfold use_potion, MKeys in *. destruct key; keys_solve. Qed.

Lemma playerAction_keys action s : handler_ok MKeys (playerAction action s).
Proof.
  unfold handler_ok, playerAction, resolve_turn, updateFightBars, post, MKeys.
  destruct action; kwp_go.
  all: try (apply poison_tick_keys; assumption).
  all: try (apply use_potion_keys; keys_solve).
Qed.

Lemma initialState_keys d : MKeys (initialState d).
Proof.
  unfold MKeys, Keys, policy_keys.
  split; [reflexivity | split; [constructor | split; [|simpl; lia]]].
  simpl. repeat (constructor; [simpl; intuition congruence|]). constructor.
Qed.

Lemma exec_keys c s r : MKeys s -> MKeys (exec c s r).
Proof.
  intros Hs. unfold exec. apply dispatch_preserves; [|exact Hs].
  destruct c; cbn [handler].
  - apply command_sleep_keys, Hs.
  - apply command_tax_keys.
  - apply command_pay_keys.
  - apply command_expand_keys.
  - apply buyStack_keys.
  - apply buyWeapon_keys.
  - apply buyMerchant_keys.
  - apply dismissMerchant_keys.
  - apply startFight_keys.
  - apply playerAction_keys.
  - apply togglePolicy_keys, Hs.
  - apply save_keys.
Qed.

Lemma reachable_keys s : reachable s -> MKeys s.
Proof.
  induction 1 as [d Hd | s c r Hs IH]; [apply initialState_keys | apply exec_keys, IH].
Qed.

(** Every state of a game has the eight policies, under their names. *)
Lemma policy_keys_reachable s k :
  reachable s -> In k policy_keys -> exists p, lookup k (policies s) = Some p.
Proof.
  intros Hs Hk. apply key_lookup. destruct (reachable_keys s Hs) as (Hp & _).
  rewrite Hp. exact Hk.
Qed.

(** The standing with the merchant stays between 0 and 5. *)
Lemma reachable_relationship s : reachable s -> 0 <= merchant_relationship s <= 5.
Proof. intros Hs. destruct (reachable_keys s Hs) as (_ & _ & _ & Hr). exact Hr. Qed.

End MainKeys.

(** ** C8: the saved text and the state *)

Lemma show_inj a b : show a = show b -> a = b.
Proof.
  intros E.
  pose proof (show_parse a EmptyString 0 I) as Ha.
  pose proof (show_parse b EmptyString 0 I) as Hb.
  rewrite E in Ha. rewrite Ha in Hb. congruence.
Qed.

Lemma map_inj {A B} (f : A -> B) (l1 l2 : list A) :
  (forall a b, f a = f b -> a = b) -> map f l1 = map f l2 -> l1 = l2.
Proof.
  intros Hf. revert l2. induction l1 as [|a l1 IH]; intros [|b l2] H;
    try discriminate; [reflexivity|].
  simpl in H. injection H as H1 H2. f_equal; auto.
Qed.

Lemma json_of_tag_inj a b : json_of_tag a = json_of_tag b -> a = b.
Proof. destruct a, b; intros H; first [reflexivity | discriminate H]. Qed.

Lemma json_of_log_inj a b : json_of_log a = json_of_log b -> a = b.
Proof.
  destruct a as [x1 t1 i1], b as [x2 t2 i2]. unfold json_of_log. simpl.
  intros H. injection H as H1 H2 H3.
  assert (Ht : json_of_tag t1 = json_of_tag t2) by (unfold json_of_tag; f_equal; exact H2).
  apply json_of_tag_inj in Ht. congruence.
Qed.

Lemma json_of_cfg_inj a b : json_of_cfg a = json_of_cfg b -> a = b.
Proof. destruct a, b. unfold json_of_cfg. simpl. congruence. Qed.

Lemma json_of_policy_inj a b : json_of_policy a = json_of_policy b -> a = b.
Proof. destruct a, b. unfold json_of_policy. simpl. congruence. Qed.

Lemma json_of_inventory_inj a b : json_of_inventory a = json_of_inventory b -> a = b.
Proof. destruct a, b. unfold json_of_inventory. simpl. congruence. Qed.

Lemma json_of_offer_inj a b : json_of_offer a = json_of_offer b -> a = b.
Proof.
  destruct a as [n1 b1 p1 | n1 e1 v1 p1], b as [n2 b2 p2 | n2 e2 v2 p2];
    unfold json_of_offer; intros H; try discriminate H.
  - congruence.
  - injection H as H1 H2 H3 H4.
    destruct e1 as [[|]|], e2 as [[|]|]; try discriminate H2; congruence.
Qed.

Lemma json_of_option_inj {A} (f : A -> json) (a b : option A) :
  (forall x y, f x = f y -> x = y) -> (forall x, f x <> JNull) ->
  json_of_option f a = json_of_option f b -> a = b.
Proof.
  intros Hf Hn. destruct a, b; simpl; intros H.
  - f_equal. auto.
  - exfalso. eapply Hn. exact H.
  - exfalso. eapply Hn. symmetry. exact H.
  - reflexivity.
Qed.

Lemma json_of_fight_inj a b : json_of_fight a = json_of_fight b -> a = b.
Proof.
  destruct a as [c1 s1 p1], b as [c2 s2 p2]. unfold json_of_fight. simpl.
  intros H. injection H as H1 H2 H3.
  apply json_of_option_inj in H1;
    [congruence | apply json_of_cfg_inj | intros x; discriminate].
Qed.

Lemma to_json_inj s1 s2 : to_json s1 = to_json s2 -> s1 = s2.
Proof.
  unfold to_json, json_of_state. intros H. injection H. clear H. intros.
  repeat match goal with
         | H : json_of_option json_of_offer _ = _ |- _ =>
             apply json_of_option_inj in H;
             [| apply json_of_offer_inj
              | intros x; destruct x; discriminate]
         | H : json_of_option JStr _ = _ |- _ =>
             apply json_of_option_inj in H; [| congruence | discriminate]
         | H : map json_of_log _ = _ |- _ => apply map_inj in H; [|apply json_of_log_inj]
         | H : map (fun kv => (fst kv, JBool (snd kv))) _ = _ |- _ =>
             apply map_inj in H; [|intros [? ?] [? ?]; simpl; congruence]
         | H : map (fun kv => (show (fst kv), JNum (snd kv))) _ = _ |- _ =>
             apply map_inj in H;
             [|let E := fresh in
               intros [? ?] [? ?]; simpl; intros E; injection E as E ?;
               apply show_inj in E; congruence]
         | H : json_of_option json_of_cfg _ = _ |- _ =>
             apply json_of_option_inj in H;
             [| apply json_of_cfg_inj | intros x; discriminate]
         | H : map (fun kv => (fst kv, json_of_policy (snd kv))) _ = _ |- _ =>
             apply map_inj in H;
             [|let E := fresh in
               intros [? ?] [? ?]; simpl; intros E;
               match type of E with
               | (?k, json_of_policy ?p) = (?k', json_of_policy ?p') =>
                   assert (json_of_policy p = json_of_policy p') by congruence;
                   assert (k = k') by congruence;
                   assert (p = p') by (apply json_of_policy_inj; assumption);
                   congruence
               end]
         end.
  destruct s1, s2; simpl in *.
  repeat match goal with
         | i : Inventory |- _ => destruct i
         | f : Main.FightState |- _ => destruct f
         end.
  simpl in *. subst. reflexivity.
Qed.

Section SaveLoad.
Import Main.

Lemma wf_obj (l : list (string * json)) :
  NoDup (map fst l) -> Forall (fun kv => wf_json (snd kv)) l -> wf_json (JObj l).
Proof.
  intros Hnd Hall. split; [exact Hnd|]. clear Hnd.
  induction Hall as [|kv l Hkv Hall IH]; [exact I | split; assumption].
Qed.

Lemma wf_arr (l : list json) : Forall wf_json l -> wf_json (JArr l).
Proof. induction 1 as [|j l Hj Hall IH]; [exact I | split; assumption]. Qed.

Ltac distinct_keys :=
  cbn [map fst]; repeat (constructor; [simpl; intuition discriminate|]); constructor.

Ltac wf_fields :=
  apply wf_obj; [distinct_keys | repeat apply Forall_cons; try apply Forall_nil; cbn [snd]].

Lemma wf_map_leaves {A} (f : A -> string * json) (l : list A) :
  (forall a, wf_json (snd (f a))) -> NoDup (map fst (map f l)) -> wf_json (JObj (map f l)).
Proof.
  intros Hf Hnd. apply wf_obj; [exact Hnd|]. apply Forall_map, Forall_forall.
  intros a _. apply Hf.
Qed.

Lemma wf_json_of_log e : wf_json (json_of_log e).
Proof. unfold json_of_log. wf_fields; exact I. Qed.

Lemma wf_json_of_inventory i : wf_json (json_of_inventory i).
Proof. unfold json_of_inventory. wf_fields; exact I. Qed.

Lemma wf_json_of_policy p : wf_json (json_of_policy p).
Proof. unfold json_of_policy. wf_fields; exact I. Qed.

Lemma wf_json_of_cfg c : wf_json (json_of_cfg c).
Proof. unfold json_of_cfg. wf_fields; exact I. Qed.

Lemma wf_json_of_offer p : wf_json (json_of_offer p).
Proof.
  destruct p as [n b p | n e v p]; unfold json_of_offer; wf_fields; try exact I.
  destruct e as [[|]|]; exact I.
Qed.

Lemma wf_json_of_fight f : wf_json (json_of_fight f).
Proof.
  unfold json_of_fight. wf_fields; try exact I.
  destruct (cfg f); [apply wf_json_of_cfg | exact I].
Qed.

Lemma NoDup_map_inj {A B} (f : A -> B) (l : list A) :
  (forall a b, f a = f b -> a = b) -> NoDup l -> NoDup (map f l).
Proof.
  intros Hf. induction 1 as [|a l Hn Hnd IH]; simpl; constructor; [|exact IH].
  rewrite in_map_iff. intros (b & E & Hin). apply Hf in E. subst. contradiction.
Qed.

(** The value of a state with unrepeated keys has none repeated. *)
Lemma to_json_wf s : MKeys s -> wf_json (to_json s).
Proof.
  intros (Hp & Hm & Ho & _).
  unfold to_json, json_of_state. wf_fields; try exact I.
  - apply wf_json_of_inventory.
  - apply wf_map_leaves; [intros a; exact I|].
    rewrite map_map. cbn [fst]. exact Hm.
  - destruct (last_merchant_offer_type s); exact I.
  - apply wf_map_leaves; [intros a; exact I|].
    rewrite map_map. cbn [fst].
    rewrite <- (map_map fst show). apply NoDup_map_inj; [apply show_inj | exact Ho].
  - apply wf_map_leaves; [intros a; apply wf_json_of_policy|].
    rewrite map_map. change (NoDup (map fst (policies s))).
    rewrite Hp. unfold policy_keys. distinct_keys.
  - apply wf_arr, Forall_map, Forall_forall. intros e _. apply wf_json_of_log.
  - destruct (pendingMerchant s); [apply wf_json_of_offer | exact I].
  - apply wf_json_of_fight.
Qed.

(** C8. For every state [s] of a game, [JSON.parse(JSON.stringify(s))]
    succeeds and gives the value of [s], field by field, and that value
    is the value of no other state: nothing of the state is lost, at any
    depth (inventory, policies, merchant fields, fight). *)
Theorem save_load_round_trip s :
  reachable s ->
  JSON_parse (serialize s) = Some (to_json s) /\
  (forall s', to_json s' = to_json s -> s' = s).
Proof.
  intros Hs. split.
  - unfold serialize. apply JSON_round_trip, to_json_wf, reachable_keys, Hs.
  - intros s' E. apply to_json_inj, E.
Qed.

(** The text of a state after one night, read back. *)
Lemma save_load_computes :
  JSON_parse (serialize (exec Sleep (initialState 100) [55; 1; 50])) =
  Some (to_json (exec Sleep (initialState 100) [55; 1; 50])).
Proof. vm_compute. reflexivity. Qed.

Lemma save_load_round_trip_witness :
  JSON_parse (serialize (exec Sleep (initialState 100) [55; 1; 50])) =
  Some (to_json (exec Sleep (initialState 100) [55; 1; 50])).
Proof.
  apply (save_load_round_trip (exec Sleep (initialState 100) [55; 1; 50])).
  apply reach_exec, reach_init. lia.
Defined.

End SaveLoad.

(** * More of the ledger: bookkeeping *)

(** A step of the calculus with the lemma for [appendLog] left open. *)
Ltac pwp_step applog :=
  lazymatch goal with
  | |- wp (bind _ _) _ _ => apply wp_bind
  | |- wp (ret _) _ _ => apply wp_ret
  | |- wp (rand _ _) _ _ =>
      first [ apply wp_rand; [lia | intros ? ?]
            | apply wp_rand_any; intros ? ]
  | |- wp random_lt_half _ _ => apply wp_random_lt_half; intros ?
  | |- wp (random_index _) _ _ => apply wp_random_index; intros ?
  | |- wp (appendLog _ _) _ (preserves _) => apply wp_set_updater; [applog | ]
  | |- wp (appendLog _ _) _ (updater_ok _) => apply wp_set_handler; [applog | ]
  | |- wp (set _) _ (updater_ok _) => apply wp_set_handler; [intros ? ? | ]
  | |- wp (set _) _ (preserves _) => apply wp_set_updater; [intros ? ? | ]
  | |- wp (set_fn _) _ _ => apply wp_set_fn; [intros ? ? | ]
  | |- wp (showMerchantOffer _) _ _ => unfold showMerchantOffer
  | |- wp (if ?b then _ else _) _ _ => destruct b eqn:?
  | |- wp (match ?x with _ => _ end) _ _ => destruct x eqn:?
  | |- wp (let _ := _ in _) _ _ => cbv zeta
  end.

Ltac pwp_go applog solver := repeat (pwp_step applog); try exact I; try solver.

(** ** The log *)

Section LogFacts.

Lemma next_log_id_last l e : next_log_id (l ++ [e]) = LogEntry.id e + 1.
Proof. unfold next_log_id. rewrite rev_app_distr. reflexivity. Qed.

Lemma ids_increasing_last l e :
  ids_increasing (l ++ [e]) -> forall a, In a (l ++ [e]) -> LogEntry.id a <= LogEntry.id e.
Proof.
  intros Hinc a Ha. apply In_nth_error in Ha. destruct Ha as [i Hi].
  assert (Hlt : (i < List.length (l ++ [e]))%nat) by (apply nth_error_Some; congruence).
  rewrite length_app in Hlt. cbn [List.length] in Hlt.
  assert (He : nth_error (l ++ [e]) (List.length l) = Some e)
    by (rewrite nth_error_app2 by lia; rewrite Nat.sub_diag; reflexivity).
  destruct (Nat.eq_dec i (List.length l)) as [->|Hne].
  - rewrite He in Hi. injection Hi as <-. lia.
  - assert (H := Hinc i (List.length l) a e ltac:(lia) Hi He). lia.
Qed.

Lemma log_ok_nil : log_ok [].
Proof.
  split; [simpl; lia|]. split.
  - intros i j a b _ Hi. destruct i; discriminate Hi.
  - intros e [].
Qed.

Lemma next_log_id_above l :
  log_ok l -> 1 <= next_log_id l /\ forall a, In a l -> LogEntry.id a < next_log_id l.
Proof.
  intros (_ & Hinc & Hpos).
  destruct (rev l) as [|e t] eqn:Er.
  - assert (l = []) by (apply (f_equal (@rev _)) in Er; rewrite rev_involutive in Er; exact Er).
    subst l. unfold next_log_id. simpl. split; [lia | intros a []].
  - assert (El : l = rev t ++ [e])
      by (apply (f_equal (@rev _)) in Er; rewrite rev_involutive in Er; exact Er).
    rewrite El in *. rewrite next_log_id_last.
    split.
    + pose proof (Hpos e ltac:(apply in_or_app; right; left; reflexivity)). lia.
    + intros a Ha. pose proof (ids_increasing_last _ _ Hinc a Ha). lia.
Qed.

(** [appendLog] keeps the log in order. *)
Lemma log_ok_append text tag l :
  log_ok l -> log_ok (slice_last 600 (l ++ [LogEntry.mk text tag (next_log_id l)])).
Proof.
  intros Hok. destruct (next_log_id_above l Hok) as [Hone Habove].
  destruct Hok as (Hlen & Hinc & Hpos).
  set (e := LogEntry.mk text tag (next_log_id l)).
  assert (Hinc' : ids_increasing (l ++ [e])).
  { intros i j a b Hij Hi Hj.
    assert (Hjl : (j < List.length (l ++ [e]))%nat) by (apply nth_error_Some; congruence).
    rewrite length_app in Hjl. cbn [List.length] in Hjl.
    destruct (Nat.eq_dec j (List.length l)) as [->|Hne].
    - rewrite nth_error_app2 in Hj by lia. rewrite Nat.sub_diag in Hj.
      injection Hj as <-. rewrite nth_error_app1 in Hi by lia.
      apply nth_error_In in Hi. apply Habove in Hi. exact Hi.
    - rewrite nth_error_app1 in Hi by lia. rewrite nth_error_app1 in Hj by lia.
      exact (Hinc i j a b Hij Hi Hj). }
  assert (Hpos' : forall a, In a (l ++ [e]) -> 1 <= LogEntry.id a).
  { intros a Ha. apply in_app_or in Ha. destruct Ha as [Ha|[<-|[]]]; [auto | exact Hone]. }
  unfold slice_last. split; [|split].
  - rewrite length_skipn. lia.
  - intros i j a b Hij Hi Hj. rewrite nth_error_skipn in Hi, Hj.
    eapply Hinc'; [| exact Hi | exact Hj]. lia.
  - intros a Ha. apply Hpos'.
    rewrite <- (firstn_skipn (List.length (l ++ [e]) - 600) (l ++ [e])).
    apply in_or_app. right. exact Ha.
Qed.

End LogFacts.

(** ** The books through the shared handlers *)

Lemma era_name_next n :
  -1 <= n -> era_after (n + 1) (era_name n) = era_name (n + 1).
Proof.
  intros Hn. unfold era_after.
  assert (E : (n + 1 <? 0) = false) by (apply Z.ltb_ge; lia). rewrite E.
  assert (Hc : n = -1 \/ n = 0 \/ n = 1 \/ n = 2 \/ n = 3 \/ n = 4 \/ 5 <= n) by lia.
  destruct Hc as [->|[->|[->|[->|[->|[->|Hc]]]]]]; try reflexivity.
  unfold era_name.
  assert (E1 : nth_error ERA_SEQ (Z.to_nat (n + 1)) = None)
    by (apply nth_error_None; change (List.length ERA_SEQ) with 6%nat; lia).
  rewrite E1.
  assert (Hlen : List.length ("Stone Age" :: ERA_SEQ) = 7%nat) by reflexivity.
  rewrite (@nth_overflow _ ("Stone Age" :: ERA_SEQ) (Z.to_nat (n + 1 + 1)) "Modern Age")
    by (rewrite Hlen; lia).
  assert (Hc' : n = 5 \/ 6 <= n) by lia.
  destruct Hc' as [->|Hc']; [reflexivity|].
  apply nth_overflow. rewrite Hlen. lia.
Qed.

Lemma assign_In {V} k (v : V) o k' v' :
  In (k', v') (assign k v o) -> (k', v') = (k, v) \/ In (k', v') o.
Proof.
  induction o as [|[k0 v0] o IH]; simpl.
  - intros [H|[]]; left; symmetry; exact H.
  - destruct (String.eqb k k0).
    + intros [H|H]; [left; symmetry; exact H | right; right; exact H].
    + intros [H|H]; [right; left; exact H|].
      destruct (IH H) as [H'|H']; [left; exact H' | right; right; exact H'].
Qed.

Lemma policies_ok_assign k p ps :
  policies_ok ps -> (locked p = true -> active p = false) -> policies_ok (assign k p ps).
Proof.
  intros Hok Hp k' p' Hin. apply assign_In in Hin.
  destruct Hin as [E|Hin]; [injection E as -> ->; exact Hp | exact (Hok k' p' Hin)].
Qed.

Lemma offer_ok_unique n e v p : offer_ok (Some (UniqueOffer n e v p)).
Proof. intros name bonus price H. discriminate H. Qed.

Lemma offer_ok_none : offer_ok None.
Proof. intros name bonus price H. discriminate H. Qed.

Lemma offer_ok_weapon n b p : 0 < b -> offer_ok (Some (WeaponOffer n b p)).
Proof. intros Hb name bonus price H. injection H as _ <- _. exact Hb. Qed.

(** Every weapon of the merchant's table adds to the damage. *)
Lemma pool_bonus pool sel :
  In pool (map snd MERCHANT_BY_ERA) -> In sel pool -> 0 < Catalog.bonus sel.
Proof.
  simpl. intros Hp Hs.
  repeat (destruct Hp as [Hp|Hp];
          [subst pool; simpl in Hs;
           repeat (destruct Hs as [Hs|Hs]; [subst sel; simpl; lia|]); destruct Hs|]).
  destruct Hp.
Qed.

(** So does every weapon of the shop. *)
Lemma find_weapon_damage era wid w : find_weapon era wid = Some w -> 0 < Weapon.damage w.
Proof.
  unfold find_weapon. intros H. apply find_some in H. destruct H as [H _].
  simpl in H. repeat (destruct H as [H|H]; [subst w; simpl; lia|]). destruct H.
Qed.

Section BooksShared.
Context {F : Type}.
Implicit Types s x : State F.

Lemma Books_appendLog text tag : preserves (Books (F := F)) (appendLog_upd text tag).
Proof.
  intros x (Hl & Hrest). unfold appendLog_upd, Books. cbv zeta.
  split; [apply log_ok_append, Hl | exact Hrest].
Qed.

End BooksShared.

Ltac books_solve :=
  unfold Books, era_books, with_bread, clamp in *;
  cbn -[Z.add Z.sub Z.mul Z.pow Z.max Z.min Z.div era_name era_after] in *;
  repeat match goal with H : _ /\ _ |- _ => destruct H end;
  repeat match goal with |- _ /\ _ => split end;
  solve [ assumption | lia | apply offer_ok_unique | apply offer_ok_none ].

Ltac bwp_go := pwp_go ltac:(apply Books_appendLog) ltac:(books_solve).

Section BooksPass.
Context {F : Type}.
Implicit Types s x : State F.
Local Abbreviation BooksF := (Books (F := F)).

Lemma consume_food_books x : BooksF x -> wp (consume_food x) BooksF (preserves BooksF).
Proof. intros Hx. unfold consume_food. cbv zeta. bwp_go. Qed.

Lemma daily_incident_books x : BooksF x -> wp (daily_incident x) BooksF (preserves BooksF).
Proof. intros Hx. unfold daily_incident. bwp_go. Qed.

Lemma flavour_lines_books x : wp (flavour_lines x) (fun _ => True) (preserves BooksF).
Proof. unfold flavour_lines. bwp_go. Qed.

Lemma policy_upkeep_books x : BooksF x -> wp (policy_upkeep x) BooksF (preserves BooksF).
Proof.
  intros Hx. unfold policy_upkeep.
  repeat (apply wp_seq with (mid := BooksF); [bwp_go | clear x Hx; intros x Hx]).
  apply wp_bind. bwp_go.
Qed.

Lemma sleep_updater_books : updater_ok BooksF sleep_updater.
Proof.
  intros x Hx. unfold sleep_updater.
  apply wp_seq with (mid := BooksF); [apply consume_food_books, Hx | clear x Hx; intros x Hx].
  apply wp_seq with (mid := BooksF); [apply daily_incident_books, Hx | clear x Hx; intros x Hx].
  apply wp_seq with (mid := fun _ => True); [apply flavour_lines_books | intros _ _].
  destruct (day x >=? death_day x).
  - bwp_go.
  - apply policy_upkeep_books, Hx.
Qed.

End BooksPass.

Section BooksPass2.
Context {F : Type}.
Implicit Types s x : State F.
Local Abbreviation BooksG := (Books (F := F)).

Lemma with_offer_books p x : offer_ok (Some p) -> BooksG x -> BooksG (with_pendingMerchant (Some p) x).
Proof.
  intros Hp Hx. unfold Books, era_books in *. simpl.
  repeat match goal with H : _ /\ _ |- _ => destruct H end.
  repeat match goal with |- _ /\ _ => split end; assumption.
Qed.

Lemma merchant_event_books s : handler_ok BooksG (merchant_event s).
Proof.
  unfold handler_ok, merchant_event.
  apply wp_seq with (mid := fun _ => True); [bwp_go | intros offerType _].
  cbv zeta. destruct (String.eqb _ "weapon").
  - destruct (lookup (currentEra s) MERCHANT_BY_ERA) as [pool|] eqn:EP; [|apply wp_ret; exact I].
    pose proof (lookup_In _ _ _ EP) as Hpool.
    apply wp_bind, wp_random_index. intros i.
    destruct (nth_error (weighted_pool pool) i) as [sel|] eqn:EN; [|apply wp_ret; exact I].
    pose proof (pool_bonus pool sel Hpool (weighted_pool_In _ _ (nth_error_In _ _ EN))) as Hb.
    destruct (discountedPrice s (Catalog.price sel)) as [final discPct].
    apply wp_bind. apply wp_set_handler; [apply Books_appendLog|].
    apply wp_bind. unfold showMerchantOffer.
    apply wp_set_handler; [intros x Hx; apply with_offer_books;
                           [apply offer_ok_weapon, Hb | exact Hx]|].
    bwp_go.
  - apply wp_bind, wp_random_index. intros i.
    destruct (nth_error _ i) as [sel|] eqn:EN; [|apply wp_ret; exact I].
    cbv zeta. apply wp_bind. apply wp_set_handler; [apply Books_appendLog|].
    apply wp_bind. unfold showMerchantOffer.
    apply wp_set_handler.
    + intros x Hx. apply with_offer_books; [|exact Hx].
      apply nth_error_In, filter_In in EN. destruct EN as [EN _].
      simpl in EN. destruct EN as [<-|[<-|[<-|[]]]]; apply offer_ok_unique.
    + bwp_go.
Qed.

Lemma unlock_books key : preserves BooksG (unlock key).
Proof.
  intros x Hx. unfold unlock. cbv zeta.
  unfold Books, era_books in *. simpl.
  repeat match goal with H : _ /\ _ |- _ => destruct H end.
  repeat match goal with |- _ /\ _ => split end; try assumption.
  apply policies_ok_assign; [assumption | discriminate].
Qed.

Lemma random_event_books s : handler_ok BooksG (random_event s).
Proof.
  unfold handler_ok, random_event.
  pwp_step idtac. pwp_step idtac.
  repeat (lazymatch goal with
          | |- wp (if ?b then _ else _) _ _ => destruct b eqn:?
          end;
          [ try (bwp_go; fail) | ]).
  all: try apply merchant_event_books.
  all: bwp_go.
  apply unlock_books; assumption.
Qed.

Lemma command_sleep_books s : handler_ok BooksG (command_sleep s).
Proof.
  unfold handler_ok, command_sleep. apply wp_bind.
  apply wp_set_fn; [apply sleep_updater_books | apply random_event_books].
Qed.

(** One expansion more: the price and the room double, the era follows. *)
Lemma expand_books x :
  BooksG x -> number x < 6 -> exmoney x <= money x ->
  BooksG (with_strength (Z.max 0 (strength x - 1))
            (with_maxstrength (Z.max (maxstrength x) 4)
              (with_currentEra (era_after (number x + 1) (currentEra x))
                (with_number (number x + 1)
                  (with_maxpeople (maxpeople x * 2)
                    (with_exmoney (exmoney x * 2)
                      (with_money (money x - exmoney x) x))))))).
Proof.
  intros (Hl & (Hn & He & Hp & Hc) & Hpol & Ho & Hd & Hm & Hs & Hms) Hnum Hmoney.
  unfold Books, era_books. cbn -[Z.mul Z.pow Z.add Z.sub Z.max era_after era_name].
  repeat match goal with |- _ /\ _ => split end; try assumption; try lia.
  - rewrite He. replace (number x + 1 + 1) with (Z.succ (number x + 1)) by lia.
    rewrite Z.pow_succ_r by lia. lia.
  - rewrite Hp. replace (number x + 1 + 1) with (Z.succ (number x + 1)) by lia.
    rewrite Z.pow_succ_r by lia. lia.
  - rewrite Hc. apply era_name_next. lia.
Qed.

Lemma dismissMerchant_books s : handler_ok BooksG (dismissMerchant s).
Proof. unfold handler_ok, dismissMerchant. bwp_go. Qed.

Lemma togglePolicy_books name s : handler_ok BooksG (togglePolicy name s).
Proof.
  unfold handler_ok, togglePolicy.
  destruct (lookup name (policies s)) as [data|] eqn:El; [|apply wp_ret; exact I].
  destruct (locked data) eqn:Ed; [apply wp_ret; exact I|].
  apply wp_bind. apply wp_set_handler; [|bwp_go].
  intros x Hx. unfold Books, era_books in *. simpl.
  repeat match goal with H : _ /\ _ |- _ => destruct H end.
  repeat match goal with |- _ /\ _ => split end; try assumption.
  apply policies_ok_assign; [assumption | discriminate].
Qed.

Lemma save_books s : handler_ok BooksG (save s).
Proof. unfold handler_ok, save. bwp_go. Qed.

(** The purchases are paid from the treasury that the handler has seen. *)
Lemma buyStack_books key price qty name s r :
  BooksG s -> BooksG (fst (dispatch (buyStack key price qty name) s r)).
Proof.
  intros Hs. unfold dispatch, buyStack. cbv zeta.
  destruct (qty <=? 0); [exact Hs|].
  destruct (money s <? price * qty) eqn:Em; eval_queue.
  - apply Books_appendLog, Hs.
  - apply Z.ltb_ge in Em. apply Books_appendLog.
    destruct key; books_solve.
Qed.

Lemma buyWeapon_books era wid s r :
  BooksG s -> BooksG (fst (dispatch (buyWeapon era wid) s r)).
Proof.
  intros Hs. unfold dispatch, buyWeapon.
  destruct (find_weapon era wid) as [w|] eqn:Ew; [|exact Hs].
  pose proof (find_weapon_damage _ _ _ Ew) as Hw.
  destruct (wid <=? owned s era); eval_queue; [apply Books_appendLog, Hs|].
  destruct (money s <? Weapon.price w) eqn:Em; eval_queue; [apply Books_appendLog, Hs|].
  apply Z.ltb_ge in Em. apply Books_appendLog. books_solve.
Qed.

Lemma buyMerchant_books s r : BooksG s -> BooksG (fst (dispatch buyMerchant s r)).
Proof.
  intros Hs. unfold dispatch, buyMerchant.
  destruct (pendingMerchant s) as [p|] eqn:Ep; [|exact Hs].
  destruct (money s <? offer_price p) eqn:Em; eval_queue; [apply Books_appendLog, Hs|].
  apply Z.ltb_ge in Em.
  assert (Ho : offer_ok (Some p)) by (rewrite <- Ep; apply Hs).
  destruct p as [n b price | n e v price]; eval_queue; apply Books_appendLog.
  - pose proof (Ho n b price eq_refl). simpl in Em. books_solve.
  - simpl in Em. destruct e as [[|]|]; books_solve.
Qed.

(** The same when React computes the first update at once: it runs on the
    state that the handler has seen. *)
Lemma buyStack_books_eager key price qty name s r1 r :
  BooksG s -> BooksG (fst (dispatch_eager (buyStack key price qty name) s r1 r)).
Proof.
  intros Hs. unfold dispatch_eager, buyStack. cbv zeta.
  destruct (qty <=? 0); [exact Hs|].
  destruct (money s <? price * qty) eqn:Em; eval_queue.
  - apply Books_appendLog, Hs.
  - apply Z.ltb_ge in Em. apply Books_appendLog.
    destruct key; books_solve.
Qed.

Lemma buyWeapon_books_eager era wid s r1 r :
  BooksG s -> BooksG (fst (dispatch_eager (buyWeapon era wid) s r1 r)).
Proof.
  intros Hs. unfold dispatch_eager, buyWeapon.
  destruct (find_weapon era wid) as [w|] eqn:Ew; [|exact Hs].
  pose proof (find_weapon_damage _ _ _ Ew) as Hw.
  destruct (wid <=? owned s era); eval_queue; [apply Books_appendLog, Hs|].
  destruct (money s <? Weapon.price w) eqn:Em; eval_queue; [apply Books_appendLog, Hs|].
  apply Z.ltb_ge in Em. apply Books_appendLog. books_solve.
Qed.

Lemma buyMerchant_books_eager s r1 r :
  BooksG s -> BooksG (fst (dispatch_eager buyMerchant s r1 r)).
Proof.
  intros Hs. unfold dispatch_eager, buyMerchant.
  destruct (pendingMerchant s) as [p|] eqn:Ep; [|exact Hs].
  destruct (money s <? offer_price p) eqn:Em; eval_queue; [apply Books_appendLog, Hs|].
  apply Z.ltb_ge in Em.
  assert (Ho : offer_ok (Some p)) by (rewrite <- Ep; apply Hs).
  destruct p as [n b price | n e v price]; eval_queue; apply Books_appendLog.
  - pose proof (Ho n b price eq_refl). simpl in Em. books_solve.
  - simpl in Em. destruct e as [[|]|]; books_solve.
Qed.

End BooksPass2.

(** ** The books of [src/main.tsx] *)

Section MainBooks.
Import Main MainInv.
Local Abbreviation MBooks := (Books (F := FightState)).

Lemma command_tax_books s : handler_ok MBooks (command_tax s).
Proof. unfold handler_ok, command_tax. bwp_go. Qed.

Lemma command_pay_books s : handler_ok MBooks (command_pay s).
Proof. unfold handler_ok, command_pay. bwp_go. Qed.

Lemma command_expand_books s r : MBooks s -> MBooks (fst (dispatch command_expand s r)).
Proof.
  intros Hs. unfold dispatch, command_expand.
  destruct (number s >=? 6) eqn:En; eval_queue; [apply Books_appendLog, Hs|].
  destruct (money s <? exmoney s) eqn:Em; eval_queue; [apply Books_appendLog, Hs|].
  apply Z.ltb_ge in Em. unfold expand_updater. eval_queue.
  assert (Hn : number s < 6)
    by (destruct (Z.geb_spec (number s) 6); [discriminate En | lia]).
  apply Books_appendLog. apply expand_books; assumption.
Qed.

Lemma command_expand_books_eager s r1 r :
  MBooks s -> MBooks (fst (dispatch_eager command_expand s r1 r)).
Proof.
  intros Hs. unfold dispatch_eager, command_expand.
  destruct (number s >=? 6) eqn:En; eval_queue; [apply Books_appendLog, Hs|].
  destruct (money s <? exmoney s) eqn:Em; eval_queue; [apply Books_appendLog, Hs|].
  apply Z.ltb_ge in Em. unfold expand_updater. eval_queue.
  assert (Hn : number s < 6)
    by (destruct (Z.geb_spec (number s) 6); [discriminate En | lia]).
  apply expand_books; assumption.
Qed.

Lemma startFight_books diff s : handler_ok MBooks (startFight diff s).
Proof. unfold handler_ok, startFight. bwp_go. Qed.

Lemma poison_tick_books : preserves MBooks poison_tick.
Proof.
  intros x Hx. unfold poison_tick. cbv zeta.
  destruct ((poisonTurns (fight x) >? 0) && (ehealth x >? 0)); books_solve.
Qed.

Lemma use_potion_books key : preserves MBooks (use_potion key).
Proof. intros x Hx. unfold use_potion. destruct key; books_solve. Qed.

Lemma post_books d x : wp (post (ENEMY d) x) (fun _ => True) (preserves MBooks).
Proof.
  unfold post.
  destruct ((ehealth x <=? 0) || (phealth x <=? 0)); [|apply wp_ret; exact I].
  destruct (ehealth x <=? 0).
  - apply wp_bind, wp_rand; [destruct d; simpl; lia|]. intros reward Hr.
    assert (0 <= reward) by (destruct d; simpl in Hr; lia).
    apply wp_set_updater; [|exact I]. intros y Hy. books_solve.
  - apply wp_set_updater; [|exact I]. intros y Hy. books_solve.
Qed.

Lemma resolve_turn_books d stunnedNow pdamage s :
  handler_ok MBooks (resolve_turn (ENEMY d) stunnedNow pdamage s).
Proof.
  unfold handler_ok, resolve_turn, updateFightBars.
  repeat (apply wp_seq with (mid := fun _ => True); [bwp_go | intros _ _]).
  - apply poison_tick_books; assumption.
  - apply wp_set_fn; [|exact I].
    intros x Hx. apply wp_bind. eapply wp_mono; [apply post_books|].
    intros _ _. apply wp_ret. exact Hx.
Qed.

Lemma playerAction_books action s :
  cfg_known (fight s) -> handler_ok MBooks (playerAction action s).
Proof.
  intros Hk. unfold handler_ok, playerAction.
  destruct (cfg (fight s)) as [c|] eqn:Hc; [|apply wp_ret; exact I].
  destruct (Hk c Hc) as [d ->].
  unfold updateFightBars.
  destruct action; bwp_go.
  all: try (apply poison_tick_books; assumption).
  all: try (apply use_potion_books; books_solve).
  all: try apply resolve_turn_books.
Qed.

Lemma initialState_books d : MBooks (initialState d).
Proof.
  unfold Books, era_books. cbn -[Z.pow era_name].
  repeat match goal with |- _ /\ _ => split end;
    try lia; try reflexivity; try apply log_ok_nil; try apply offer_ok_none.
  intros k p Hin Hl. simpl in Hin.
  repeat (destruct Hin as [Hin|Hin]; [injection Hin as <- <-; reflexivity|]). destruct Hin.
Qed.

Lemma exec_books c s r : MInv s -> MBooks s -> MBooks (exec c s r).
Proof.
  intros Hi Hs. unfold exec. destruct c; cbn [handler].
  - apply dispatch_preserves; [apply command_sleep_books | exact Hs].
  - apply dispatch_preserves; [apply command_tax_books | exact Hs].
  - apply dispatch_preserves; [apply command_pay_books | exact Hs].
  - apply command_expand_books, Hs.
  - apply buyStack_books, Hs.
  - apply buyWeapon_books, Hs.
  - apply buyMerchant_books, Hs.
  - apply dispatch_preserves; [apply dismissMerchant_books | exact Hs].
  - apply dispatch_preserves; [apply startFight_books | exact Hs].
  - apply dispatch_preserves; [|exact Hs].
    apply playerAction_books. destruct Hi as (_ & _ & _ & Hk & _). exact Hk.
  - apply dispatch_preserves; [apply togglePolicy_books | exact Hs].
  - apply dispatch_preserves; [apply save_books | exact Hs].
Qed.

Lemma exec_eager_books c s r1 r : MInv s -> MBooks s -> MBooks (exec_eager c s r1 r).
Proof.
  intros Hi Hs. unfold exec_eager. destruct c; cbn [handler].
  - apply dispatch_eager_preserves; [apply command_sleep_books | exact Hs].
  - apply dispatch_eager_preserves; [apply command_tax_books | exact Hs].
  - apply dispatch_eager_preserves; [apply command_pay_books | exact Hs].
  - apply command_expand_books_eager, Hs.
  - apply buyStack_books_eager, Hs.
  - apply buyWeapon_books_eager, Hs.
  - apply buyMerchant_books_eager, Hs.
  - apply dispatch_eager_preserves; [apply dismissMerchant_books | exact Hs].
  - apply dispatch_eager_preserves; [apply startFight_books | exact Hs].
  - apply dispatch_eager_preserves; [|exact Hs].
    apply playerAction_books. destruct Hi as (_ & _ & _ & Hk & _). exact Hk.
  - apply dispatch_eager_preserves; [apply togglePolicy_books | exact Hs].
  - apply dispatch_eager_preserves; [apply save_books | exact Hs].
Qed.

(** Every state of a game keeps the books, whichever way React takes. *)
Lemma played_books s : played s -> MBooks s.
Proof.
  induction 1 as [d Hd | s c r Hs IH | s c r1 r Hs IH]; [apply initialState_books| |].
  - apply exec_books; [apply played_MInv, Hs | exact IH].
  - apply exec_eager_books; [apply played_MInv, Hs | exact IH].
Qed.

End MainBooks.

(** ** The calendar *)

Ltac cal_solve :=
  unfold Calendar, with_bread in *;
  cbn -[Z.add Z.sub Z.mul Z.max Z.min Z.div] in *;
  repeat match goal with H : _ /\ _ |- _ => destruct H end;
  repeat match goal with |- _ /\ _ => split end;
  solve [ assumption | lia | congruence | intros; discriminate | auto ].

Section CalendarShared.
Context {F : Type}.
Implicit Types s x : State F.
Variables (d dd : Z) (nm : string).

Lemma Calendar_appendLog b text tag :
  preserves (Calendar (F := F) d dd nm b) (appendLog_upd text tag).
Proof. intros x Hx. unfold appendLog_upd, Calendar in *. simpl. exact Hx. Qed.

End CalendarShared.

Ltac cwp_go := pwp_go ltac:(apply Calendar_appendLog) ltac:(cal_solve).

Section CalendarPass.
Context {F : Type}.
Implicit Types s x : State F.
Variables (d dd : Z) (nm : string).
Local Abbreviation Awake := (Calendar (F := F) d dd nm false).
Local Abbreviation Rested := (Calendar (F := F) (d + 1) dd nm true).

Lemma consume_food_cal x : Awake x -> wp (consume_food x) Rested (preserves Rested).
Proof. intros Hx. unfold consume_food. cbv zeta. cwp_go. Qed.

Lemma daily_incident_cal x : Rested x -> wp (daily_incident x) Rested (preserves Rested).
Proof. intros Hx. unfold daily_incident. cwp_go. Qed.

Lemma flavour_lines_cal x : wp (flavour_lines x) (fun _ => True) (preserves Rested).
Proof. unfold flavour_lines. cwp_go. Qed.

Lemma policy_upkeep_cal x : Rested x -> wp (policy_upkeep x) Rested (preserves Rested).
Proof.
  intros Hx. unfold policy_upkeep.
  repeat (apply wp_seq with (mid := Rested); [cwp_go | clear x Hx; intros x Hx]).
  apply wp_bind. cwp_go.
Qed.

Lemma sleep_updater_cal x : Awake x -> wp (sleep_updater x) Rested (preserves Rested).
Proof.
  intros Hx. unfold sleep_updater.
  apply wp_seq with (mid := Rested); [apply consume_food_cal, Hx | clear x Hx; intros x Hx].
  apply wp_seq with (mid := Rested); [apply daily_incident_cal, Hx | clear x Hx; intros x Hx].
  apply wp_seq with (mid := fun _ => True); [apply flavour_lines_cal | intros _ _].
  destruct (day x >=? death_day x).
  - cwp_go.
  - apply policy_upkeep_cal, Hx.
Qed.

End CalendarPass.

Section CalendarPass2.
Context {F : Type}.
Implicit Types s x : State F.
Variables (d dd : Z) (nm : string) (b : bool).
Local Abbreviation Cal := (Calendar (F := F) d dd nm b).

Lemma merchant_event_cal s : handler_ok Cal (merchant_event s).
Proof.
  unfold handler_ok, merchant_event.
  apply wp_seq with (mid := fun _ => True); [cwp_go | intros offerType _].
  cbv zeta. cwp_go.
Qed.

Lemma random_event_cal s : handler_ok Cal (random_event s).
Proof.
  unfold handler_ok, random_event.
  pwp_step idtac. pwp_step idtac.
  repeat (lazymatch goal with
          | |- wp (if ?b then _ else _) _ _ => destruct b eqn:?
          end;
          [ try (cwp_go; fail) | ]).
  all: try apply merchant_event_cal.
  all: cwp_go.
  all: unfold unlock; cal_solve.
Qed.

Lemma buyStack_cal key price qty name s : handler_ok Cal (buyStack key price qty name s).
Proof. unfold handler_ok, buyStack. cbv zeta. cwp_go. all: destruct key; cal_solve. Qed.

Lemma buyWeapon_cal era wid s : handler_ok Cal (buyWeapon era wid s).
Proof. unfold handler_ok, buyWeapon. cwp_go. Qed.

Lemma dismissMerchant_cal s : handler_ok Cal (dismissMerchant s).
Proof. unfold handler_ok, dismissMerchant. cwp_go. Qed.

Lemma togglePolicy_cal name s : handler_ok Cal (togglePolicy name s).
Proof. unfold handler_ok, togglePolicy. cwp_go. Qed.

Lemma save_cal s : handler_ok Cal (save s).
Proof. unfold handler_ok, save. cwp_go. Qed.

End CalendarPass2.

Section CalendarPass3.
Context {F : Type}.
Implicit Types s x : State F.
Variables (d dd : Z) (nm : string).
Local Abbreviation Awake1 := (Calendar (F := F) d dd nm false).

Lemma expand_updater_cal : updater_ok Awake1 expand_updater.
Proof. intros x Hx. unfold expand_updater. cbv zeta. cwp_go. Qed.

Lemma buyMerchant_cal s : handler_ok Awake1 (buyMerchant s).
Proof. unfold handler_ok, buyMerchant. cwp_go. Qed.

(** A night: the day moves on by one and the strength is restored,
    whatever the resolver does afterwards. *)
Lemma command_sleep_cal s r :
  Awake1 s -> Calendar (d + 1) dd nm true (fst (dispatch command_sleep s r)).
Proof.
  intros Hs.
  eapply dispatch_first.
  - reflexivity.
  - apply sleep_updater_cal, Hs.
  - apply (random_event_cal (d + 1) dd nm true s).
Qed.

Lemma command_sleep_cal_eager s r1 r :
  Awake1 s -> Calendar (d + 1) dd nm true (fst (dispatch_eager command_sleep s r1 r)).
Proof.
  intros Hs.
  eapply dispatch_eager_first.
  - reflexivity.
  - apply sleep_updater_cal, Hs.
  - apply (random_event_cal (d + 1) dd nm true s).
Qed.

End CalendarPass3.

Section MainCalendar.
Import Main.
Variables (d dd : Z) (nm : string).
Local Abbreviation MAwake := (Calendar (F := FightState) d dd nm false).

Lemma command_tax_cal s : handler_ok MAwake (command_tax s).
Proof. unfold handler_ok, command_tax. cwp_go. Qed.

Lemma command_pay_cal s : handler_ok MAwake (command_pay s).
Proof. unfold handler_ok, command_pay. cwp_go. Qed.

Lemma command_expand_cal s : handler_ok MAwake (command_expand s).
Proof.
  unfold handler_ok, command_expand. cwp_go.
  apply expand_updater_cal; assumption.
Qed.

Lemma startFight_cal diff s : handler_ok MAwake (startFight diff s).
Proof. unfold handler_ok, startFight. cwp_go. Qed.

Lemma playerAction_cal action s : handler_ok MAwake (playerAction action s).
Proof.
  unfold handler_ok, playerAction, resolve_turn, updateFightBars, post.
  destruct action; cwp_go.
  all: try (unfold poison_tick; cbv zeta;
            match goal with |- context [if ?c then _ else _] => destruct c end; cal_solve).
  all: try (unfold use_potion;
            match goal with |- context [inv_set ?k] => destruct k end; cal_solve).
Qed.

End MainCalendar.

Section MainCalendarStep.
Import Main.

(** One command: only Sleep moves the day, by one, and it restores the
    strength; nothing changes the day of death or the name. *)
Lemma calendar_step c s r :
  Calendar (day s + (if is_sleep c then 1 else 0)) (death_day s) (name s) (is_sleep c)
    (exec c s r).
Proof.
  assert (Hs : Calendar (day s) (death_day s) (name s) false s)
    by (unfold Calendar; repeat split; discriminate).
  unfold exec. destruct c; cbn [handler is_sleep];
    try (rewrite Z.add_0_r; apply dispatch_preserves; [|exact Hs]).
  - apply command_sleep_cal, Hs.
  - apply command_tax_cal.
  - apply command_pay_cal.
  - apply command_expand_cal.
  - apply buyStack_cal.
  - apply buyWeapon_cal.
  - apply buyMerchant_cal.
  - apply dismissMerchant_cal.
  - apply startFight_cal.
  - apply playerAction_cal.
  - apply togglePolicy_cal.
  - apply save_cal.
Qed.

Lemma calendar_step_eager c s r1 r :
  Calendar (day s + (if is_sleep c then 1 else 0)) (death_day s) (name s) (is_sleep c)
    (exec_eager c s r1 r).
Proof.
  assert (Hs : Calendar (day s) (death_day s) (name s) false s)
    by (unfold Calendar; repeat split; discriminate).
  unfold exec_eager. destruct c; cbn [handler is_sleep];
    try (rewrite Z.add_0_r; apply dispatch_eager_preserves; [|exact Hs]).
  - apply command_sleep_cal_eager, Hs.
  - apply command_tax_cal.
  - apply command_pay_cal.
  - apply command_expand_cal.
  - apply buyStack_cal.
  - apply buyWeapon_cal.
  - apply buyMerchant_cal.
  - apply dismissMerchant_cal.
  - apply startFight_cal.
  - apply playerAction_cal.
  - apply togglePolicy_cal.
  - apply save_cal.
Qed.


End MainCalendarStep.

(** ** What every game of [src/main.tsx] keeps *)

Lemma ids_increasing_NoDup l : ids_increasing l -> NoDup (map LogEntry.id l).
Proof.
  intros Hinc. apply NoDup_nth_error. intros i j Hi E.
  rewrite length_map in Hi. rewrite !nth_error_map in E.
  destruct (nth_error l i) as [a|] eqn:Ea; [|apply nth_error_None in Ea; lia].
  destruct (nth_error l j) as [b|] eqn:Eb; [|discriminate E].
  simpl in E. injection E as E.
  destruct (Nat.lt_trichotomy i j) as [H|[H|H]]; [|exact H|].
  - pose proof (Hinc i j a b H Ea Eb). lia.
  - pose proof (Hinc j i b a H Eb Ea). lia.
Qed.

Lemma lookup_member {V} k (o : list (string * V)) v : lookup k o = Some v -> In (k, v) o.
Proof.
  induction o as [|[k' v'] o IH]; simpl; [discriminate|].
  destruct (String.eqb_spec k k') as [->|]; [intros [= ->]; left; reflexivity | auto].
Qed.

Section MainKept.
Import Main.

(** X1.  The treasury is never in debt, and the strength never below zero:
    every purchase and every expansion is refused unless the treasury that
    the handler reads covers it, a payment to the people and every loss stop
    at zero. *)
Theorem treasury_never_negative s : played s -> 0 <= money s /\ 0 <= strength s.
Proof.
  intros Hs. destruct (played_books s Hs) as (_ & _ & _ & _ & _ & Hm & Hst & _).
  split; assumption.
Qed.

Lemma treasury_never_negative_witness :
  0 <= money (exec Pay (initialState 100) []) /\
  0 <= strength (exec Pay (initialState 100) []).
Proof.
  apply (treasury_never_negative (exec Pay (initialState 100) [])).
  apply played_queued, played_init. lia.
Defined.

(** X2.  The log never holds more than 600 entries, and the ids of its
    entries grow from each to the next, so that no two entries share an id. *)
Theorem log_discipline s :
  played s ->
  (List.length (logs s) <= 600)%nat /\
  ids_increasing (logs s) /\
  NoDup (map LogEntry.id (logs s)).
Proof.
  intros Hs. destruct (played_books s Hs) as ((Hlen & Hinc & _) & _).
  split; [exact Hlen | split; [exact Hinc | apply ids_increasing_NoDup, Hinc]].
Qed.

Lemma log_discipline_witness :
  NoDup (map LogEntry.id (logs (exec Sleep (initialState 100) [55; 1; 50]))).
Proof.
  apply (log_discipline (exec Sleep (initialState 100) [55; 1; 50])).
  apply played_queued, played_init. lia.
Defined.

(** X3.  At most seven expansions are ever made; after [n + 1] of them the
    next one costs [5000 * 2 ^ (n + 1)], the kingdom has room for
    [50 * 2 ^ (n + 1)] people, and the era is the one of that count. *)
Theorem era_ledger s :
  played s ->
  -1 <= number s <= 6 /\
  exmoney s = 5000 * 2 ^ (number s + 1) /\
  maxpeople s = 50 * 2 ^ (number s + 1) /\
  currentEra s = era_name (number s).
Proof. intros Hs. destruct (played_books s Hs) as (_ & He & _). exact He. Qed.

Lemma era_ledger_witness :
  exmoney (exec Expand (initialState 100) []) = 10000 /\
  currentEra (exec Expand (initialState 100) []) = "Bronze Age".
Proof.
  destruct (era_ledger (exec Expand (initialState 100) [])) as (_ & H1 & _ & H2).
  - apply played_queued, played_init. lia.
  - split; [exact H1 | exact H2].
Defined.

(** X4.  A locked policy is never active: the panel only toggles unlocked
    policies and unlocking leaves a policy as inactive as it was. *)
Theorem locked_policy_inactive s k p :
  played s -> lookup k (policies s) = Some p -> locked p = true -> active p = false.
Proof.
  intros Hs Hl. destruct (played_books s Hs) as (_ & _ & Hp & _).
  apply (Hp k p). apply lookup_member, Hl.
Qed.

Lemma locked_policy_inactive_witness :
  active (mkPolicy true false "Gain more tax money, but lower happiness.") = false.
Proof.
  apply (locked_policy_inactive (exec Sleep (initialState 100) [55; 1; 50]) "Universal Tax").
  - apply played_queued, played_init. lia.
  - reflexivity.
  - reflexivity.
Defined.

(** X5.  The damage of a strike is drawn from eleven values, the lowest at
    least 5: [maxDmg] is always [minDmg + 10], whatever weapon was bought
    from the shop or from the merchant. *)
Theorem strike_range s r :
  played s ->
  5 <= minDmg s /\ maxDmg s = minDmg s + 10 /\
  minDmg s <= val (rand (Q := Updater FightState) (minDmg s) (maxDmg s) r) <= minDmg s + 10.
Proof.
  intros Hs. destruct (played_books s Hs) as (_ & _ & _ & _ & (H5 & Hmax) & _).
  split; [exact H5 | split; [exact Hmax|]].
  rewrite Hmax at 2. rewrite <- Hmax.
  unfold rand, Math_random, bind, ret. simpl val.
  pose proof (rand_range (minDmg s) (maxDmg s) (hd 0 r) ltac:(lia)). lia.
Qed.

Lemma strike_range_witness :
  maxDmg (exec (BuyWeapon 1 1) (initialState 100) []) =
  minDmg (exec (BuyWeapon 1 1) (initialState 100) []) + 10.
Proof.
  apply (strike_range (exec (BuyWeapon 1 1) (initialState 100) []) []).
  apply played_queued, played_init. lia.
Defined.

Lemma run_app l1 l2 s : run (l1 ++ l2) s = run l2 (run l1 s).
Proof. unfold run. apply fold_left_app. Qed.


(** X7.  A night restores the strength to its maximum and moves the day on
    by one, whatever the incident, the upkeep and the random event of that
    night, and whichever way React runs the update of the night. *)
Theorem sleep_restores_strength s r1 r :
  (strength (exec Sleep s r) = maxstrength (exec Sleep s r) /\
   day (exec Sleep s r) = day s + 1) /\
  (strength (exec_eager Sleep s r1 r) = maxstrength (exec_eager Sleep s r1 r) /\
   day (exec_eager Sleep s r1 r) = day s + 1).
Proof.
  destruct (calendar_step Sleep s r) as (Hd & _ & _ & Hr).
  destruct (calendar_step_eager Sleep s r1 r) as (Hd' & _ & _ & Hr').
  repeat split; [apply Hr | exact Hd | apply Hr' | exact Hd']; reflexivity.
Qed.

End MainKept.

(** ** The shop *)

Section ObjectLaws.
Context {V : Type}.

Lemma lookup_assign_same k (v : V) o : lookup k (assign k v o) = Some v.
Proof.
  induction o as [|[k' v'] o IH]; simpl.
  - rewrite String.eqb_refl. reflexivity.
  - destruct (String.eqb k k') eqn:E; simpl.
    + rewrite String.eqb_refl. reflexivity.
    + rewrite E. exact IH.
Qed.

Lemma lookup_assign_other k k' (v : V) o : k' <> k -> lookup k' (assign k v o) = lookup k' o.
Proof.
  intros Hne. induction o as [|[k0 v0] o IH]; simpl.
  - destruct (String.eqb_spec k' k); [contradiction | reflexivity].
  - destruct (String.eqb_spec k k0) as [->|Hk]; simpl.
    + destruct (String.eqb_spec k' k0); [contradiction | reflexivity].
    + destruct (String.eqb k' k0); [reflexivity | exact IH].
Qed.

Lemma assign_assign k (v v' : V) o : assign k v' (assign k v o) = assign k v' o.
Proof.
  induction o as [|[k0 v0] o IH]; simpl.
  - rewrite String.eqb_refl. reflexivity.
  - destruct (String.eqb k k0) eqn:E; simpl.
    + rewrite String.eqb_refl. reflexivity.
    + rewrite E, IH. reflexivity.
Qed.

Lemma assign_lookup k (v : V) o : lookup k o = Some v -> assign k v o = o.
Proof.
  induction o as [|[k0 v0] o IH]; simpl; [discriminate|].
  destruct (String.eqb_spec k k0) as [->|Hk].
  - intros [= ->]. reflexivity.
  - intros H. rewrite (IH H). reflexivity.
Qed.

Lemma lookupZ_assignZ_same k (v : V) o : lookupZ k (assignZ k v o) = Some v.
Proof.
  induction o as [|[k' v'] o IH]; simpl.
  - rewrite Z.eqb_refl. reflexivity.
  - destruct (k =? k') eqn:E; simpl.
    + rewrite Z.eqb_refl. reflexivity.
    + rewrite E. exact IH.
Qed.

Lemma lookupZ_assignZ_other k k' (v : V) o :
  k' <> k -> lookupZ k' (assignZ k v o) = lookupZ k' o.
Proof.
  intros Hne. induction o as [|[k0 v0] o IH]; simpl.
  - destruct (Z.eqb_spec k' k); [contradiction | reflexivity].
  - destruct (Z.eqb_spec k k0) as [->|Hk]; simpl.
    + destruct (Z.eqb_spec k' k0); [contradiction | reflexivity].
    + destruct (k' =? k0); [reflexivity | exact IH].
Qed.

End ObjectLaws.

Lemma inv_get_set_same k v i : inv_get k (inv_set k v i) = v.
Proof. destruct k; reflexivity. Qed.

Lemma inv_get_set_other k k' v i : k' <> k -> inv_get k' (inv_set k v i) = inv_get k' i.
Proof. intros H. destruct k, k'; try reflexivity; contradiction. Qed.

Section Shop.
Context {F : Type}.
Implicit Types s : State F.

(** X8.  [buyStack]: a quantity that is not positive does nothing at all; a
    total above the treasury only logs the refusal; otherwise the treasury
    pays the total, the counter bought grows by the quantity and every other
    counter stays. *)
Theorem buyStack_outcomes key price qty name s r :
  let s' := fst (dispatch (buyStack key price qty name) s r) in
  (qty <= 0 -> s' = s) /\
  (0 < qty -> money s < price * qty ->
     s' = appendLog_upd "Not enough coins." warn s) /\
  (0 < qty -> price * qty <= money s ->
     money s' = money s - price * qty /\
     inv_get key (inventory s') = inv_get key (inventory s) + qty /\
     (forall k, k <> key -> inv_get k (inventory s') = inv_get k (inventory s)) /\
     same_ledger s'
       (with_inventory (inv_set key (inv_get key (inventory s) + qty) (inventory s))
          (with_money (money s - price * qty) s))).
Proof.
  intros s'. subst s'. unfold dispatch, buyStack. cbv zeta.
  split; [|split].
  - intros Hq. assert (E : (qty <=? 0) = true) by (apply Z.leb_le; exact Hq).
    rewrite E. reflexivity.
  - intros Hq Hm. assert (E : (qty <=? 0) = false) by (apply Z.leb_gt; exact Hq).
    assert (E' : (money s <? price * qty) = true) by (apply Z.ltb_lt; exact Hm).
    rewrite E, E'. reflexivity.
  - intros Hq Hm. assert (E : (qty <=? 0) = false) by (apply Z.leb_gt; exact Hq).
    assert (E' : (money s <? price * qty) = false) by (apply Z.ltb_ge; exact Hm).
    rewrite E, E'. eval_queue.
    split; [reflexivity|]. split; [apply inv_get_set_same|].
    split; [intros k Hk; apply inv_get_set_other, Hk|].
    apply same_ledger_log. reflexivity.
Qed.

(** X9.  [buyWeapon]: a weapon that the shop does not list changes
    nothing; one at or below the level owned in its era, or dearer than the
    treasury, only logs the refusal; a purchase pays the price, raises the
    level owned in that era to the weapon's and only that one, and sets the
    damage to the weapon's.  The level owned never goes down. *)
Theorem buyWeapon_outcomes era wid s r :
  let s' := fst (dispatch (buyWeapon era wid) s r) in
  (find_weapon era wid = None -> s' = s) /\
  (forall w, find_weapon era wid = Some w ->
     (wid <= owned s era -> s' = appendLog_upd "That weapon is locked." muted s) /\
     (owned s era < wid -> money s < Weapon.price w ->
        s' = appendLog_upd "Not enough coins." warn s) /\
     (owned s era < wid -> Weapon.price w <= money s ->
        money s' = money s - Weapon.price w /\
        owned s' era = wid /\
        (forall e, e <> era -> owned s' e = owned s e) /\
        minDmg s' = 5 + Weapon.damage w /\ maxDmg s' = 15 + Weapon.damage w)) /\
  (forall e, owned s e <= owned s' e).
Proof.
  intros s'. subst s'. unfold dispatch, buyWeapon.
  destruct (find_weapon era wid) as [w|] eqn:Ew.
  2:{ split; [reflexivity|]. split; [intros w H; discriminate H|]. intros e. simpl. lia. }
  split; [discriminate|].
  destruct (Z.leb_spec wid (owned s era)) as [Hl|Hl].
  { eval_queue. split.
    - intros w' E. injection E as <-. split; [intros _; reflexivity|].
      split; intros; exfalso; lia.
    - intros e. unfold owned. simpl. lia. }
  destruct (Z.ltb_spec (money s) (Weapon.price w)) as [Hm|Hm].
  { eval_queue. split.
    - intros w' E. injection E as <-. split; [intros; exfalso; lia|].
      split; [intros _ _; reflexivity | intros; exfalso; lia].
    - intros e. unfold owned. simpl. lia. }
  eval_queue.
  assert (Hother : forall e, e <> era ->
            lookupZ e (assignZ era wid (owned_weapon s)) = lookupZ e (owned_weapon s))
    by (intros e He; apply lookupZ_assignZ_other, He).
  split.
  - intros w' E. injection E as <-. split; [intros; exfalso; lia|].
    split; [intros; exfalso; lia|]. intros _ _.
    split; [reflexivity|].
    split; [unfold owned; simpl; rewrite lookupZ_assignZ_same; reflexivity|].
    split; [|split; reflexivity].
    intros e He. unfold owned. simpl. rewrite Hother by exact He. reflexivity.
  - intros e. unfold owned at 2. simpl.
    destruct (Z.eq_dec e era) as [->|He].
    + rewrite lookupZ_assignZ_same. lia.
    + rewrite Hother by exact He. unfold owned. lia.
Qed.

End Shop.

Lemma buyStack_outcomes_witness :
  money (fst (dispatch (buyStack K_bread 20 3 "Bread") (Main.initialState 100) [])) =
  money (Main.initialState 100) - 20 * 3.
Proof.
  apply (buyStack_outcomes K_bread 20 3 "Bread" (Main.initialState 100) []); simpl; lia.
Defined.

Lemma buyWeapon_outcomes_witness :
  owned (fst (dispatch (buyWeapon 1 2) (Main.initialState 100) [])) 1 = 2.
Proof.
  destruct (buyWeapon_outcomes 1 2 (Main.initialState 100) []) as (_ & H & _).
  destruct (H (Weapon.mk 2 1 "Stone" 5000 5) eq_refl) as (_ & _ & H3).
  apply H3.
  - vm_compute. reflexivity.
  - vm_compute. discriminate.
Defined.

(** ** The policies panel *)

Section Panel.
Context {F : Type}.
Implicit Types s : State F.

Lemma same_ledger_sym s1 s2 : same_ledger s1 s2 -> same_ledger s2 s1.
Proof. unfold same_ledger. intros H. symmetry. exact H. Qed.

Lemma same_ledger_trans s1 s2 s3 : same_ledger s1 s2 -> same_ledger s2 s3 -> same_ledger s1 s3.
Proof. unfold same_ledger. intros H1 H2. rewrite H1. exact H2. Qed.

(** One press of the button of [name]. *)
Lemma togglePolicy_step name s r :
  let s' := fst (dispatch (togglePolicy name) s r) in
  match lookup name (policies s) with
  | None => s' = s
  | Some data =>
      if locked data then s' = s
      else same_ledger s'
             (with_policies
                (assign name (mkPolicy false (negb (active data)) (desc data)) (policies s)) s)
  end.
Proof.
  intros s'. subst s'. unfold dispatch, togglePolicy.
  destruct (lookup name (policies s)) as [data|] eqn:El; [|reflexivity].
  destruct (locked data) eqn:Ed; [reflexivity|].
  eval_queue. apply same_ledger_log. reflexivity.
Qed.

Lemma same_ledger_policies s1 s2 ps :
  same_ledger s1 s2 -> same_ledger (with_policies ps s1) (with_policies ps s2).
Proof.
  unfold same_ledger. intros H.
  change (with_logs [] (with_policies ps s1)) with (with_policies ps (with_logs [] s1)).
  change (with_logs [] (with_policies ps s2)) with (with_policies ps (with_logs [] s2)).
  rewrite H. reflexivity.
Qed.

Lemma same_ledger_policies_eq s1 s2 : same_ledger s1 s2 -> policies s1 = policies s2.
Proof.
  unfold same_ledger. intros H.
  change (policies s1) with (policies (with_logs [] s1)). rewrite H. reflexivity.
Qed.

(** X10.  The button of a policy: on a locked policy, or on a name that is
    no policy, it does nothing, not even a log line; on an unlocked one it
    flips [active] and nothing else but the log; pressed twice it gives back
    the ledger it started from, apart from the log. *)
Theorem togglePolicy_involution name s r1 r2 :
  let s1 := fst (dispatch (togglePolicy name) s r1) in
  let s2 := fst (dispatch (togglePolicy name) s1 r2) in
  (forall data, lookup name (policies s) = Some data -> locked data = false ->
     lookup name (policies s1) = Some (mkPolicy false (negb (active data)) (desc data)) /\
     (forall k, k <> name -> lookup k (policies s1) = lookup k (policies s))) /\
  ((lookup name (policies s) = None \/
    exists data, lookup name (policies s) = Some data /\ locked data = true) ->
   s1 = s /\ snd (dispatch (togglePolicy name) s r1) = r1) /\
  same_ledger s2 s.
Proof.
  intros s1 s2.
  pose proof (togglePolicy_step name s r1) as H1. cbv zeta in H1. fold s1 in H1.
  pose proof (togglePolicy_step name s1 r2) as H2. cbv zeta in H2. fold s2 in H2.
  clearbody s1 s2.
  split; [|split].
  - intros data El Ed. rewrite El, Ed in H1.
    apply same_ledger_policies_eq in H1. simpl in H1. rewrite H1.
    split; [apply lookup_assign_same | intros k Hk; apply lookup_assign_other, Hk].
  - intros [El|(data & El & Ed)].
    + split; [rewrite El in H1; exact H1|].
      unfold dispatch, togglePolicy. rewrite El. reflexivity.
    + split; [rewrite El, Ed in H1; exact H1|].
      unfold dispatch, togglePolicy. rewrite El, Ed. reflexivity.
  - destruct (lookup name (policies s)) as [data|] eqn:El.
    + destruct (locked data) eqn:Ed.
      * rewrite H1 in H2. rewrite El, Ed in H2. rewrite H2. reflexivity.
      * pose proof (same_ledger_policies_eq _ _ H1) as Hp. simpl in Hp.
        rewrite Hp, lookup_assign_same in H2. cbn [locked active desc] in H2.
        rewrite assign_assign, negb_involutive in H2.
        assert (Ea : assign name (mkPolicy false (active data) (desc data)) (policies s)
                     = policies s).
        { apply assign_lookup. rewrite El. destruct data as [l a dsc].
          simpl in Ed. subst l. reflexivity. }
        rewrite Ea in H2.
        eapply same_ledger_trans; [exact H2|].
        eapply same_ledger_trans; [apply same_ledger_policies, H1|].
        destruct s. reflexivity.
    + rewrite H1 in H2. rewrite El in H2. rewrite H2. reflexivity.
Qed.

End Panel.

Lemma togglePolicy_involution_witness :
  lookup "Charity Relief"
    (policies (fst (dispatch (togglePolicy "Charity Relief")
                      (Main.exec Main.Sleep (Main.initialState 100) [55; 1; 50]) []))) =
  Some (mkPolicy false true "Lose money per day to boost happiness.").
Proof.
  destruct (togglePolicy_involution "Charity Relief"
              (Main.exec Main.Sleep (Main.initialState 100) [55; 1; 50]) [] [])
    as (H & _).
  apply (H (mkPolicy false false "Lose money per day to boost happiness.")).
  - vm_compute. reflexivity.
  - reflexivity.
Defined.

(** ** The merchant's choice of an offer *)

Lemma is_last_false x l : is_last x l = false -> l <> Some x.
Proof.
  destruct l as [y|]; simpl; [|discriminate].
  intros E [= ->]. rewrite String.eqb_refl in E. discriminate E.
Qed.

Lemma has_key_assign {V} k (v : V) o : has_key k (assign k v o) = true.
Proof. unfold has_key. rewrite lookup_assign_same. reflexivity. Qed.

Section MerchantChoice.
Context {F : Type}.
Implicit Types s : State F.

(** What [merchant_event] leaves pending, and under which conditions. *)
Lemma merchant_event_choice s r :
  exists p,
    pendingMerchant (fst (dispatch merchant_event s r)) = Some p /\
    match p with
    | WeaponOffer _ _ _ =>
        last_merchant_offer_type s <> Some "weapon" /\
        has_key (currentEra s) (merchant_weapon_log s) = false /\
        last_merchant_offer_type (fst (dispatch merchant_event s r)) = Some "weapon"
    | UniqueOffer n _ _ _ =>
        last_merchant_offer_type s <> Some n /\
        last_merchant_offer_type (fst (dispatch merchant_event s r)) = Some n
    end.
Proof.
  unfold dispatch, merchant_event.
  set (c0 := has_key (currentEra s) MERCHANT_BY_ERA
             && negb (has_key (currentEra s) (merchant_weapon_log s))).
  set (rare := filter (fun x => negb (is_last (offer_name x) (last_merchant_offer_type s)))
                 RARE_ITEMS).
  assert (Hu' : forall r0,
    let res :=
      (let o1 := (i <- random_index (List.length rare) ;;
                  match nth_error rare i with
                  | None => ret tt
                  | Some sel =>
                      let final := fst (discountedPrice s (offer_price sel)) in
                      appendLog (cat ["Merchant offers "; offer_name sel; ". Price ";
                                      show final; " coins."]) merchant ;;;
                      showMerchantOffer (with_price final sel) ;;;
                      set (with_last_merchant_offer_type (Some (offer_name sel)))
                  end) r0 in
       let o2 := run_queue (queued o1) s (rest o1) in
       apply_all (queued o2) (val o2)) in
    exists p,
      pendingMerchant res = Some p /\
      match p with
      | WeaponOffer _ _ _ =>
          last_merchant_offer_type s <> Some "weapon" /\
          has_key (currentEra s) (merchant_weapon_log s) = false /\
          last_merchant_offer_type res = Some "weapon"
      | UniqueOffer n _ _ _ =>
          last_merchant_offer_type s <> Some n /\
          last_merchant_offer_type res = Some n
      end).
  { intros r0. eval_queue.
    destruct (nth_error rare (Z.to_nat (hd 0 r0 mod Z.of_nat (List.length rare))))
      as [sel|] eqn:EN.
    - pose proof (nth_error_In _ _ EN) as Hin.
      apply filter_In in Hin. destruct Hin as [Hin Hf].
      apply negb_true_iff, is_last_false in Hf.
      exists (with_price (fst (discountedPrice s (offer_price sel))) sel).
      simpl in Hin.
      destruct Hin as [<-|[<-|[<-|[]]]]; (split; [reflexivity|]); split;
        first [exact Hf | reflexivity].
    - exfalso. apply nth_error_None in EN.
      pose proof (rare_nonempty (last_merchant_offer_type s)).
      pose proof (random_index_lt (List.length rare) (hd 0 r0)). fold rare in H. lia. }
  destruct c0 eqn:Ec0.
  - eval_queue.
    destruct ((1 + hd 0 r mod (100 - 1 + 1) <=? 3)
              && negb (is_last "weapon" (last_merchant_offer_type s))) eqn:Ew.
    + apply andb_prop in Ew. destruct Ew as [_ Ew].
      apply negb_true_iff in Ew. rewrite Ew.
      cbn [String.eqb Ascii.eqb Bool.eqb andb].
      unfold c0 in Ec0. apply andb_prop in Ec0. destruct Ec0 as [Ek Elog].
      apply negb_true_iff in Elog.
      unfold has_key in Ek.
      destruct (lookup (currentEra s) MERCHANT_BY_ERA) as [pool|] eqn:EP; [|discriminate].
      pose proof (lookup_In _ _ _ EP) as Hpool.
      pose proof (weighted_pool_length _ Hpool) as Hlen.
      eval_queue. rewrite Hlen.
      destruct (nth_error (weighted_pool pool) (Z.to_nat (hd 0 (tl r) mod Z.of_nat 6)))
        as [sel|] eqn:EN.
      * destruct (discountedPrice s (Catalog.price sel)) as [final discPct] eqn:ED.
        exists (WeaponOffer (Catalog.name sel) (Catalog.bonus sel) final).
        split; [reflexivity|]. split; [apply is_last_false, Ew|].
        split; [exact Elog | reflexivity].
      * exfalso. apply nth_error_None in EN. rewrite Hlen in EN.
        pose proof (random_index_lt 6 (hd 0 (tl r))). lia.
    + assert (Hu : is_last "unique" (last_merchant_offer_type s) = true
                   \/ is_last "unique" (last_merchant_offer_type s) = false)
        by (destruct (is_last "unique" (last_merchant_offer_type s)); auto).
      destruct Hu as [Hu|Hu]; rewrite Hu; cbn [String.eqb Ascii.eqb Bool.eqb andb];
        apply (Hu' (tl r)).
  - eval_queue.
    assert (Hu : is_last "unique" (last_merchant_offer_type s) = true
                 \/ is_last "unique" (last_merchant_offer_type s) = false)
      by (destruct (is_last "unique" (last_merchant_offer_type s)); auto).
    destruct Hu as [Hu|Hu]; rewrite Hu; cbn [String.eqb Ascii.eqb Bool.eqb andb];
      apply (Hu' r).
Qed.

(** X11.  The merchant never makes the same offer twice running: after a
    weapon comes a unique item, and a unique item is never the one offered
    last; what was offered is recorded for the next visit. *)
Theorem merchant_never_repeats s r :
  let s' := fst (dispatch merchant_event s r) in
  exists p,
    pendingMerchant s' = Some p /\
    last_merchant_offer_type s' =
      Some (match p with WeaponOffer _ _ _ => "weapon" | _ => offer_name p end) /\
    last_merchant_offer_type s' <> last_merchant_offer_type s.
Proof.
  intros s'. subst s'. destruct (merchant_event_choice s r) as (p & Hp & Hm).
  exists p. split; [exact Hp|].
  destruct p as [n b pr | n e v pr].
  - destruct Hm as (Hne & _ & Hl). split; [exact Hl|]. rewrite Hl. congruence.
  - destruct Hm as (Hne & Hl). split; [exact Hl|]. rewrite Hl. congruence.
Qed.

(** X12.  One merchant weapon per era: buying the weapon offered marks the
    era, and in a marked era the merchant offers unique items only. *)
Theorem one_merchant_weapon_per_era s r :
  (forall n b price, pendingMerchant s = Some (WeaponOffer n b price) -> price <= money s ->
     let s' := fst (dispatch buyMerchant s r) in
     currentEra s' = currentEra s /\
     has_key (currentEra s') (merchant_weapon_log s') = true) /\
  (has_key (currentEra s) (merchant_weapon_log s) = true ->
   exists n e v price,
     pendingMerchant (fst (dispatch merchant_event s r)) = Some (UniqueOffer n e v price)).
Proof.
  split.
  - intros n b price Hp Hm s'. subst s'. unfold dispatch, buyMerchant. rewrite Hp.
    assert (E : (money s <? offer_price (WeaponOffer n b price)) = false)
      by (apply Z.ltb_ge; exact Hm).
    rewrite E. eval_queue. split; [reflexivity | apply has_key_assign].
  - intros Hk. destruct (merchant_event_choice s r) as (p & Hp & Hm).
    destruct p as [n b pr | n e v pr].
    + destruct Hm as (_ & Hf & _). rewrite Hk in Hf. discriminate Hf.
    + exists n, e, v, pr. exact Hp.
Qed.

End MerchantChoice.

(** ** Persistence *)

Section DecodeFacts.
Import Decode.

Lemma all_some_map {A B} (f : A -> option B) (g : B -> A) l :
  (forall b, f (g b) = Some b) -> all_some f (map g l) = Some l.
Proof.
  intros H. induction l as [|b l IH]; [reflexivity|].
  cbn [map all_some]. rewrite H. cbn [obind]. rewrite IH. reflexivity.
Qed.

Lemma key_number_show z : key_number (show z) = Some z.
Proof.
  unfold key_number, show.
  assert (Hp : Z.to_int z <> Decimal.Pos Decimal.Nil)
    by (destruct z; simpl; try discriminate; intros [= H];
        exact (DecimalPos.Unsigned.to_uint_nonnil _ H)).
  assert (Hn : Z.to_int z <> Decimal.Neg Decimal.Nil)
    by (destruct z; simpl; try discriminate; intros [= H];
        exact (DecimalPos.Unsigned.to_uint_nonnil _ H)).
  rewrite (NilZero.isi _ Hp Hn), DecimalZ.of_to.
  rewrite String.eqb_refl. reflexivity.
Qed.

Lemma tag_of_json_of t : tag_of_json (json_of_tag t) = Some t.
Proof. destruct t; reflexivity. Qed.

Lemma log_of_json_of e : log_of_json (json_of_log e) = Some e.
Proof.
  destruct e as [x t i]. unfold log_of_json, json_of_log, str, num, field.
  cbn [lookup String.eqb Ascii.eqb Bool.eqb obind as_str as_num LogEntry.text
       LogEntry.tag LogEntry.id].
  rewrite tag_of_json_of. reflexivity.
Qed.

Lemma cfg_of_json_of c : cfg_of_json (json_of_cfg c) = Some c.
Proof. destruct c. reflexivity. Qed.

Lemma policy_of_json_of p : policy_of_json (json_of_policy p) = Some p.
Proof. destruct p. reflexivity. Qed.

Lemma inventory_of_json_of i : inventory_of_json (json_of_inventory i) = Some i.
Proof. destruct i. reflexivity. Qed.

Lemma offer_of_json_of p : offer_of_json (json_of_offer p) = Some p.
Proof. destruct p as [n b p | n [[|]|] v p]; reflexivity. Qed.

Lemma nullable_of {A} (f : json -> option A) (g : A -> json) o :
  (forall a, f (g a) = Some a) -> (forall a, g a <> JNull) ->
  nullable f (json_of_option g o) = Some o.
Proof.
  intros Hf Hg. destruct o as [a|]; [|reflexivity].
  simpl. unfold nullable. specialize (Hg a).
  destruct (g a) eqn:E; [contradiction | ..]; rewrite <- E, Hf; reflexivity.
Qed.

Lemma fight_of_json_of f : fight_of_json (json_of_fight f) = Some f.
Proof.
  destruct f as [c st pt]. unfold fight_of_json, json_of_fight, bool_, num, field.
  cbn [lookup String.eqb Ascii.eqb Bool.eqb obind as_bool as_num
       Main.cfg Main.stunned Main.poisonTurns].
  rewrite (nullable_of cfg_of_json json_of_cfg);
    [reflexivity | apply cfg_of_json_of | intros a; discriminate].
Qed.

Lemma members_of {A} (f : json -> option A) (g : A -> json) (l : list (string * A)) :
  (forall a, f (g a) = Some a) ->
  members f (JObj (map (fun kv => (fst kv, g (snd kv))) l)) = Some l.
Proof.
  intros H. unfold members.
  induction l as [|[k a] l IH]; [reflexivity|].
  cbn [map all_some fst snd]. rewrite H. cbn [obind]. rewrite IH. reflexivity.
Qed.

Lemma owned_of_json_of (l : list (Z * Z)) :
  owned_of_json (JObj (map (fun kv => (show (fst kv), JNum (snd kv))) l)) = Some l.
Proof.
  unfold owned_of_json.
  assert (E : members as_num (JObj (map (fun kv => (show (fst kv), JNum (snd kv))) l))
              = Some (map (fun kv => (show (fst kv), snd kv)) l)).
  { unfold members. induction l as [|[k a] l IH]; [reflexivity|].
    cbn [map all_some fst snd as_num obind]. rewrite IH. reflexivity. }
  rewrite E. cbn [obind]. clear E.
  induction l as [|[k a] l IH]; [reflexivity|].
  cbn [map all_some fst snd]. rewrite key_number_show. cbn [obind]. rewrite IH. reflexivity.
Qed.

(** Reading the value of a state gives the state. *)
Lemma state_of_json_of s : state_of_json (to_json s) = Some s.
Proof.
  unfold state_of_json, to_json, json_of_state, num, str, field.
  cbn [lookup String.eqb Ascii.eqb Bool.eqb obind as_num as_str].
  rewrite inventory_of_json_of. cbn [obind].
  rewrite (members_of as_bool JBool) by reflexivity. cbn [obind].
  rewrite (nullable_of as_str JStr) by (intros; first [reflexivity | discriminate]).
  cbn [obind].
  rewrite owned_of_json_of. cbn [obind].
  rewrite (members_of policy_of_json json_of_policy) by apply policy_of_json_of.
  cbn [obind].
  unfold elements. rewrite (all_some_map log_of_json json_of_log) by apply log_of_json_of.
  cbn [obind].
  rewrite (nullable_of offer_of_json json_of_offer);
    [| apply offer_of_json_of | intros a; destruct a; discriminate].
  cbn [obind].
  rewrite fight_of_json_of. cbn [obind]. destruct s. reflexivity.
Qed.

End DecodeFacts.

Section SaveLoadClear.
Import Main Persist.

Lemma exec_eager_keys c s r1 r : MKeys s -> MKeys (exec_eager c s r1 r).
Proof.
  intros Hs. unfold exec_eager. apply dispatch_eager_preserves; [|exact Hs].
  destruct c; cbn [handler].
  - apply command_sleep_keys, Hs.
  - apply command_tax_keys.
  - apply command_pay_keys.
  - apply command_expand_keys.
  - apply buyStack_keys.
  - apply buyWeapon_keys.
  - apply buyMerchant_keys.
  - apply dismissMerchant_keys.
  - apply startFight_keys.
  - apply playerAction_keys.
  - apply togglePolicy_keys, Hs.
  - apply save_keys.
Qed.

Lemma played_keys s : played s -> MKeys s.
Proof.
  induction 1 as [d Hd | s c r Hs IH | s c r1 r Hs IH];
    [apply initialState_keys | apply exec_keys, IH | apply exec_eager_keys, IH].
Qed.

Lemma parsed_state_serialize s : played s -> parsed_state (serialize s) = Some s.
Proof.
  intros Hs. unfold parsed_state, serialize.
  rewrite (JSON_round_trip (to_json s)) by (apply to_json_wf, played_keys, Hs).
  rewrite String.eqb_refl. apply state_of_json_of.
Qed.

Lemma serialize_nonempty s : String.eqb (serialize s) EmptyString = false.
Proof. reflexivity. Qed.

(** X13.  Save, then load: whatever the game has become in between, [load]
    returns [true] and installs the state that was saved, with the line
    "Game loaded." appended to its log; the line "Game saved." is not part
    of what was saved.  With the cell cleared, or never written, [load]
    returns [false] and only logs "No save found.". *)
Theorem save_then_load s0 s r :
  played s0 ->
  (exists h, load (save_cell s0 None) = Some h /\
     dispatch_val h s r = (true, appendLog_upd "Game loaded." system s0)) /\
  (exists h, load (clearSave_cell (save_cell s0 None)) = Some h /\
     dispatch_val h s r = (false, appendLog_upd "No save found." system s)).
Proof.
  intros Hs. split.
  - unfold save_cell, load. rewrite serialize_nonempty.
    rewrite (parsed_state_serialize s0 Hs). eexists. split; reflexivity.
  - eexists. split; reflexivity.
Qed.

Lemma save_then_load_witness :
  exists h, load (save_cell (exec Sleep (initialState 100) [55; 1; 50]) None) = Some h /\
    dispatch_val h (initialState 100) [] =
      (true, appendLog_upd "Game loaded." system (exec Sleep (initialState 100) [55; 1; 50])).
Proof.
  apply (save_then_load (exec Sleep (initialState 100) [55; 1; 50]) (initialState 100) []).
  apply played_queued, played_init. lia.
Defined.

End SaveLoadClear.

(** ** The gated variant ([src/unnamed/part_000], from its line 1500) *)

Section V3Preservation.
Import V3 V3Inv.
Local Abbreviation VNum := (Inv enemy_cap cfg_known).
Local Abbreviation VBooks := (Books (F := FightState)).

Lemma v3_initialState d : VInv (initialState d).
Proof.
  split.
  - unfold Inv, inv_nonneg, enemy_cap, cfg_known. simpl.
    repeat match goal with |- _ /\ _ => split end; try lia.
    intros c Hc. discriminate Hc.
  - unfold Books, era_books. cbn -[Z.pow era_name].
    repeat match goal with |- _ /\ _ => split end;
      try lia; try reflexivity; try apply log_ok_nil; try apply offer_ok_none.
    intros k p Hin Hl. simpl in Hin.
    repeat (destruct Hin as [Hin|Hin]; [injection Hin as <- <-; reflexivity|]). destruct Hin.
Qed.

(** Tax and expansion: the updater does not depend on the gate. *)
Lemma v3_command_tax_num s : handler_ok VNum (command_tax s).
Proof. unfold handler_ok, command_tax. wp_go. Qed.

Lemma v3_command_tax_books s : handler_ok VBooks (command_tax s).
Proof. unfold handler_ok, command_tax. bwp_go. Qed.

Lemma v3_command_pay_num s : handler_ok VNum (command_pay s).
Proof. unfold handler_ok, command_pay. wp_go. Qed.

(** The payment is made from a treasury of five coins at least. *)
Lemma v3_command_pay_books s r : VBooks s -> VBooks (fst (dispatch command_pay s r)).
Proof.
  intros Hs. unfold dispatch, command_pay.
  destruct (can_pay s) eqn:Ec; [|exact Hs]. eval_queue.
  unfold can_pay in Ec. apply andb_prop in Ec. destruct Ec as [Ec _].
  apply andb_prop in Ec. destruct Ec as [_ Em].
  assert (5 <= money s) by (destruct (Z.geb_spec (money s) 5); [lia | discriminate Em]).
  apply Books_appendLog. books_solve.
Qed.

Lemma v3_command_expand_num s : handler_ok VNum (command_expand s).
Proof.
  unfold handler_ok, command_expand. wp_go.
  apply expand_updater_ok; assumption.
Qed.

Lemma v3_command_expand_books s r : VBooks s -> VBooks (fst (dispatch command_expand s r)).
Proof.
  intros Hs. unfold dispatch, command_expand.
  destruct (can_expand s) eqn:Ec; cbn [negb]; eval_queue; [|apply Books_appendLog, Hs].
  unfold can_expand in Ec. apply andb_prop in Ec. destruct Ec as [Ec _].
  apply andb_prop in Ec. destruct Ec as [En Em].
  apply Z.ltb_lt in En.
  assert (exmoney s <= money s)
    by (destruct (Z.geb_spec (money s) (exmoney s)); [lia | discriminate Em]).
  unfold expand_updater. eval_queue.
  apply Books_appendLog. apply expand_books; assumption.
Qed.

Lemma v3_startFight_num diff s : handler_ok VNum (startFight diff s).
Proof.
  unfold handler_ok, startFight. wp_go.
  unfold Inv, inv_nonneg, enemy_cap, cfg_known in *; simpl in *.
  repeat match goal with H : _ /\ _ |- _ => destruct H end.
  repeat match goal with |- _ /\ _ => split end;
    try assumption; try lia; try (destruct diff; simpl; lia).
  intros c Hc. inversion Hc. eauto.
Qed.

(** A fight is started with one point of strength at least. *)
Lemma v3_startFight_books diff s r : VBooks s -> VBooks (fst (dispatch (startFight diff) s r)).
Proof.
  intros Hs. unfold dispatch, startFight.
  destruct (can_fight s) eqn:Ec; cbn [negb]; eval_queue; [|apply Books_appendLog, Hs].
  unfold can_fight in Ec.
  assert (1 <= strength s)
    by (destruct (Z.geb_spec (strength s) 1); [lia | discriminate Ec]).
  books_solve.
Qed.

Lemma v3_command_pay_books_eager s r1 r : VBooks s -> VBooks (fst (dispatch_eager command_pay s r1 r)).
Proof.
  intros Hs. unfold dispatch_eager, command_pay.
  destruct (can_pay s) eqn:Ec; [|exact Hs]. eval_queue.
  unfold can_pay in Ec. apply andb_prop in Ec. destruct Ec as [Ec _].
  apply andb_prop in Ec. destruct Ec as [_ Em].
  assert (5 <= money s) by (destruct (Z.geb_spec (money s) 5); [lia | discriminate Em]).
  apply Books_appendLog. books_solve.
Qed.

Lemma v3_command_expand_books_eager s r1 r : VBooks s -> VBooks (fst (dispatch_eager command_expand s r1 r)).
Proof.
  intros Hs. unfold dispatch_eager, command_expand.
  destruct (can_expand s) eqn:Ec; cbn [negb]; eval_queue; [|apply Books_appendLog, Hs].
  unfold can_expand in Ec. apply andb_prop in Ec. destruct Ec as [Ec _].
  apply andb_prop in Ec. destruct Ec as [En Em].
  apply Z.ltb_lt in En.
  assert (exmoney s <= money s)
    by (destruct (Z.geb_spec (money s) (exmoney s)); [lia | discriminate Em]).
  unfold expand_updater. eval_queue.
  apply expand_books; assumption.
Qed.

Lemma v3_startFight_books_eager diff s r1 r : VBooks s -> VBooks (fst (dispatch_eager (startFight diff) s r1 r)).
Proof.
  intros Hs. unfold dispatch_eager, startFight.
  destruct (can_fight s) eqn:Ec; cbn [negb]; eval_queue; [|apply Books_appendLog, Hs].
  unfold can_fight in Ec.
  assert (1 <= strength s)
    by (destruct (Z.geb_spec (strength s) 1); [lia | discriminate Ec]).
  books_solve.
Qed.

End V3Preservation.

Section V3Fight1.
Import V3 V3Inv.
Local Abbreviation VNum1 := (Inv enemy_cap cfg_known).
Local Abbreviation VBooks1 := (Books (F := FightState)).

Ltac v3_num_solve :=
  unfold Inv, inv_nonneg, enemy_cap, cfg_known in *; simpl in *;
  repeat match goal with H : _ /\ _ |- _ => destruct H end;
  repeat match goal with |- _ /\ _ => split end; solve [assumption | lia].

Lemma v3_poison_tick_num : preserves VNum1 poison_tick.
Proof.
  intros x Hx. unfold poison_tick.
  destruct (cfg (fight x)) as [c|] eqn:Ec; [|exact Hx]. cbv zeta.
  destruct ((poisonTurns (fight x) >? 0) && (ehealth x >? 0)) eqn:E.
  - apply andb_prop in E. destruct E as [_ E]. apply Z.gtb_lt in E. v3_num_solve.
  - v3_num_solve.
Qed.

Lemma v3_poison_tick_books : preserves VBooks1 poison_tick.
Proof.
  intros x Hx. unfold poison_tick.
  destruct (cfg (fight x)) as [c|]; [|exact Hx]. cbv zeta.
  destruct ((poisonTurns (fight x) >? 0) && (ehealth x >? 0)); books_solve.
Qed.

Lemma v3_use_potion_num key x :
  VNum1 x -> 0 < inv_get key (inventory x) -> VNum1 (use_potion key x).
Proof.
  intros Hx Hk. unfold use_potion, Inv, inv_nonneg in *.
  destruct key; simpl in *;
    repeat match goal with H : _ /\ _ |- _ => destruct H end;
    repeat match goal with |- _ /\ _ => split end; solve [assumption | lia].
Qed.

Lemma v3_use_potion_books key : preserves VBooks1 (use_potion key).
Proof. intros x Hx. unfold use_potion. destruct key; books_solve. Qed.

Lemma v3_settle_num d : updater_ok VNum1 (settle (ENEMY d)).
Proof.
  intros x Hx. unfold settle.
  destruct ((ehealth x <=? 0) || (phealth x <=? 0)); [|apply wp_ret; exact Hx].
  destruct (ehealth x <=? 0).
  - apply wp_bind, wp_rand_any. intros reward. apply wp_ret. v3_num_solve.
  - apply wp_ret. v3_num_solve.
Qed.

Lemma v3_settle_books d : updater_ok VBooks1 (settle (ENEMY d)).
Proof.
  intros x Hx. unfold settle.
  destruct ((ehealth x <=? 0) || (phealth x <=? 0)); [|apply wp_ret; exact Hx].
  destruct (ehealth x <=? 0).
  - apply wp_bind, wp_rand; [destruct d; simpl; lia|]. intros reward Hr.
    assert (0 <= reward) by (destruct d; simpl in Hr; lia).
    apply wp_ret. books_solve.
  - apply wp_ret. books_solve.
Qed.

Lemma v3_resolve_turn_num d stunnedNow pdamage s :
  handler_ok VNum1 (resolve_turn (ENEMY d) stunnedNow pdamage s).
Proof.
  unfold handler_ok, resolve_turn, updateFightBars.
  apply wp_seq with (mid := fun _ => True).
  { destruct (pdamage >=? 0) eqn:E; [|apply wp_ret; exact I].
    apply Z.geb_le in E. apply wp_set_handler; [|exact I].
    intros x Hx. v3_num_solve. }
  intros _ _.
  apply wp_seq with (mid := fun _ => True).
  { destruct (stunned (fight s)).
    - apply wp_set_handler; [|exact I]. intros x Hx. v3_num_solve.
    - apply wp_bind, wp_rand; [destruct d; simpl; lia|]. intros raw Hraw. cbv zeta.
      apply wp_set_handler; [|exact I].
      intros x Hx.
      assert (0 <= raw) by (destruct d; simpl in Hraw; lia).
      destruct (pdamage <? 0); v3_num_solve. }
  intros _ _.
  apply wp_seq with (mid := fun _ => True).
  { destruct stunnedNow; [|apply wp_ret; exact I].
    apply wp_set_handler; [|exact I]. intros x Hx. v3_num_solve. }
  intros _ _.
  apply wp_seq with (mid := fun _ => True);
    [apply wp_set_handler; [apply v3_poison_tick_num | exact I]|].
  intros _ _.
  apply wp_set_fn; [apply v3_settle_num | exact I].
Qed.

Lemma v3_resolve_turn_books d stunnedNow pdamage s :
  handler_ok VBooks1 (resolve_turn (ENEMY d) stunnedNow pdamage s).
Proof.
  unfold handler_ok, resolve_turn, updateFightBars.
  repeat (apply wp_seq with (mid := fun _ => True); [bwp_go | intros _ _]).
  - apply v3_poison_tick_books; assumption.
  - apply wp_set_fn; [apply v3_settle_books | exact I].
Qed.

Lemma v3_playerAction_books action s :
  cfg_known (fight s) -> handler_ok VBooks1 (playerAction action s).
Proof.
  intros Hk. unfold handler_ok, playerAction.
  destruct (cfg (fight s)) as [c|] eqn:Hc; [|apply wp_ret; exact I].
  destruct (Hk c Hc) as [d ->].
  destruct (over (fight s)); [apply wp_ret; exact I|].
  unfold updateFightBars.
  destruct action; bwp_go.
  all: try (apply v3_poison_tick_books; assumption).
  all: try (apply v3_use_potion_books; books_solve).
  all: try apply v3_resolve_turn_books.
Qed.

(** A potion action: the updater that spends the potion runs first, on the
    snapshot, in which the potion was counted. *)
Lemma v3_potion_then_tick (f : Upd FightState) (b : bool) s r :
  VNum1 s -> (b = true -> VNum1 (f s)) ->
  VNum1 (fst (dispatch (fun _ => (if b then set f else ret tt) ;;; updateFightBars) s r)).
Proof.
  intros Hs Hf. destruct b.
  - eapply dispatch_first.
    + reflexivity.
    + apply wp_ret. apply Hf. reflexivity.
    + constructor; [apply updater_ok_lift, v3_poison_tick_num | constructor].
  - apply dispatch_preserves; [|exact Hs].
    apply wp_bind, wp_ret. apply wp_set_handler; [apply v3_poison_tick_num | exact I].
Qed.

Lemma v3_playerAction_num action s r :
  VNum1 s -> VNum1 (fst (dispatch (playerAction action) s r)).
Proof.
  intros Hs.
  assert (Hk : forall c, cfg (fight s) = Some c -> exists d, c = ENEMY d)
    by (destruct Hs as (_ & _ & _ & Hk & _); exact Hk).
  change (dispatch (playerAction action) s r)
    with (dispatch (fun _ => playerAction action s) s r).
  unfold playerAction.
  destruct (cfg (fight s)) as [c|] eqn:Hc; [|exact Hs].
  destruct (Hk c eq_refl) as [d ->].
  destruct (over (fight s)); [exact Hs|].
  destruct action.
  - apply dispatch_preserves; [|exact Hs].
    apply wp_bind, wp_rand_any. intros u. apply v3_resolve_turn_num.
  - apply dispatch_preserves; [|exact Hs].
    apply wp_bind, wp_rand_any. intros u. apply v3_resolve_turn_num.
  - apply (v3_potion_then_tick (fun prev => use_potion K_hpotion (with_phealth 100 prev)));
      [exact Hs|]. intros E. apply Z.gtb_lt in E.
    apply v3_use_potion_num; [|simpl; lia].
    clear E. v3_num_solve.
  - destruct (dpotion (inventory s) >? 0) eqn:E.
    + apply Z.gtb_lt in E. eapply dispatch_first.
      * reflexivity.
      * apply wp_ret. apply v3_use_potion_num; [exact Hs | simpl; lia].
      * pose proof (v3_resolve_turn_num d false
                      (minDmg s + hd 0 r mod (maxDmg s - minDmg s + 1) + 10) s (tl r))
          as [_ H].
        exact H.
    + exact Hs.
  - apply (v3_potion_then_tick (use_potion K_lightning_potion)); [exact Hs|].
    intros E. apply Z.gtb_lt in E. apply v3_use_potion_num; [exact Hs | simpl; lia].
  - apply (v3_potion_then_tick (use_potion K_sleep_potion)); [exact Hs|].
    intros E. apply Z.gtb_lt in E. apply v3_use_potion_num; [exact Hs | simpl; lia].
  - apply (v3_potion_then_tick
             (fun prev => use_potion K_poison_potion
                            (with_fight (with_poisonTurns 3 (fight prev)) prev)));
      [exact Hs|].
    intros E. apply Z.gtb_lt in E.
    apply v3_use_potion_num; [|simpl; lia].
    clear E. unfold Inv, enemy_cap, cfg_known in *; simpl in *. exact Hs.
Qed.

Lemma v3_potion_then_tick_eager (f : Upd FightState) (b : bool) s r1 r :
  VNum1 s -> (b = true -> VNum1 (f s)) ->
  VNum1 (fst (dispatch_eager (fun _ => (if b then set f else ret tt) ;;; updateFightBars) s r1 r)).
Proof.
  intros Hs Hf. destruct b.
  - eapply dispatch_eager_first.
    + reflexivity.
    + apply wp_ret. apply Hf. reflexivity.
    + constructor; [apply updater_ok_lift, v3_poison_tick_num | constructor].
  - apply dispatch_eager_preserves; [|exact Hs].
    apply wp_bind, wp_ret. apply wp_set_handler; [apply v3_poison_tick_num | exact I].
Qed.

Lemma v3_playerAction_num_eager action s r1 r :
  VNum1 s -> VNum1 (fst (dispatch_eager (playerAction action) s r1 r)).
Proof.
  intros Hs.
  assert (Hk : forall c, cfg (fight s) = Some c -> exists d, c = ENEMY d)
    by (destruct Hs as (_ & _ & _ & Hk & _); exact Hk).
  change (dispatch_eager (playerAction action) s r1 r)
    with (dispatch_eager (fun _ => playerAction action s) s r1 r).
  unfold playerAction.
  destruct (cfg (fight s)) as [c|] eqn:Hc; [|exact Hs].
  destruct (Hk c eq_refl) as [d ->].
  destruct (over (fight s)); [exact Hs|].
  destruct action.
  - apply dispatch_eager_preserves; [|exact Hs].
    apply wp_bind, wp_rand_any. intros u. apply v3_resolve_turn_num.
  - apply dispatch_eager_preserves; [|exact Hs].
    apply wp_bind, wp_rand_any. intros u. apply v3_resolve_turn_num.
  - apply (v3_potion_then_tick_eager (fun prev => use_potion K_hpotion (with_phealth 100 prev)));
      [exact Hs|]. intros E. apply Z.gtb_lt in E.
    apply v3_use_potion_num; [|simpl; lia].
    clear E. v3_num_solve.
  - destruct (dpotion (inventory s) >? 0) eqn:E.
    + apply Z.gtb_lt in E. eapply dispatch_eager_first.
      * reflexivity.
      * apply wp_ret. apply v3_use_potion_num; [exact Hs | simpl; lia].
      * pose proof (v3_resolve_turn_num d false
                      (minDmg s + hd 0 r mod (maxDmg s - minDmg s + 1) + 10) s (tl r))
          as [_ H].
        exact H.
    + exact Hs.
  - apply (v3_potion_then_tick_eager (use_potion K_lightning_potion)); [exact Hs|].
    intros E. apply Z.gtb_lt in E. apply v3_use_potion_num; [exact Hs | simpl; lia].
  - apply (v3_potion_then_tick_eager (use_potion K_sleep_potion)); [exact Hs|].
    intros E. apply Z.gtb_lt in E. apply v3_use_potion_num; [exact Hs | simpl; lia].
  - apply (v3_potion_then_tick_eager
             (fun prev => use_potion K_poison_potion
                            (with_fight (with_poisonTurns 3 (fight prev)) prev)));
      [exact Hs|].
    intros E. apply Z.gtb_lt in E.
    apply v3_use_potion_num; [|simpl; lia].
    clear E. unfold Inv, enemy_cap, cfg_known in *; simpl in *. exact Hs.
Qed.

End V3Fight1.

Section V3Reachable.
Import V3 V3Inv.

Lemma v3_exec_inv c s r : VInv s -> VInv (exec c s r).
Proof.
  intros [Hn Hb]. unfold exec. destruct c; cbn [handler]; split.
  - apply dispatch_preserves; [apply command_sleep_ok | exact Hn].
  - apply dispatch_preserves; [apply command_sleep_books | exact Hb].
  - apply dispatch_preserves; [apply v3_command_tax_num | exact Hn].
  - apply dispatch_preserves; [apply v3_command_tax_books | exact Hb].
  - apply dispatch_preserves; [apply v3_command_pay_num | exact Hn].
  - apply v3_command_pay_books, Hb.
  - apply dispatch_preserves; [apply v3_command_expand_num | exact Hn].
  - apply v3_command_expand_books, Hb.
  - apply dispatch_preserves; [apply buyStack_ok | exact Hn].
  - apply buyStack_books, Hb.
  - apply dispatch_preserves; [apply buyWeapon_ok | exact Hn].
  - apply buyWeapon_books, Hb.
  - apply dispatch_preserves; [apply buyMerchant_ok | exact Hn].
  - apply buyMerchant_books, Hb.
  - apply dispatch_preserves; [apply dismissMerchant_ok | exact Hn].
  - apply dispatch_preserves; [apply dismissMerchant_books | exact Hb].
  - apply dispatch_preserves; [apply v3_startFight_num | exact Hn].
  - apply v3_startFight_books, Hb.
  - apply v3_playerAction_num, Hn.
  - apply dispatch_preserves; [|exact Hb].
    apply v3_playerAction_books. destruct Hn as (_ & _ & _ & Hk & _). exact Hk.
  - apply dispatch_preserves; [apply togglePolicy_ok | exact Hn].
  - apply dispatch_preserves; [apply togglePolicy_books | exact Hb].
  - apply dispatch_preserves; [apply save_ok | exact Hn].
  - apply dispatch_preserves; [apply save_books | exact Hb].
Qed.

Lemma v3_exec_eager_inv c s r1 r : VInv s -> VInv (exec_eager c s r1 r).
Proof.
  intros [Hn Hb]. unfold exec_eager. destruct c; cbn [handler]; split.
  - apply dispatch_eager_preserves; [apply command_sleep_ok | exact Hn].
  - apply dispatch_eager_preserves; [apply command_sleep_books | exact Hb].
  - apply dispatch_eager_preserves; [apply v3_command_tax_num | exact Hn].
  - apply dispatch_eager_preserves; [apply v3_command_tax_books | exact Hb].
  - apply dispatch_eager_preserves; [apply v3_command_pay_num | exact Hn].
  - apply v3_command_pay_books_eager, Hb.
  - apply dispatch_eager_preserves; [apply v3_command_expand_num | exact Hn].
  - apply v3_command_expand_books_eager, Hb.
  - apply dispatch_eager_preserves; [apply buyStack_ok | exact Hn].
  - apply buyStack_books_eager, Hb.
  - apply dispatch_eager_preserves; [apply buyWeapon_ok | exact Hn].
  - apply buyWeapon_books_eager, Hb.
  - apply dispatch_eager_preserves; [apply buyMerchant_ok | exact Hn].
  - apply buyMerchant_books_eager, Hb.
  - apply dispatch_eager_preserves; [apply dismissMerchant_ok | exact Hn].
  - apply dispatch_eager_preserves; [apply dismissMerchant_books | exact Hb].
  - apply dispatch_eager_preserves; [apply v3_startFight_num | exact Hn].
  - apply v3_startFight_books_eager, Hb.
  - apply v3_playerAction_num_eager, Hn.
  - apply dispatch_eager_preserves; [|exact Hb].
    apply v3_playerAction_books. destruct Hn as (_ & _ & _ & Hk & _). exact Hk.
  - apply dispatch_eager_preserves; [apply togglePolicy_ok | exact Hn].
  - apply dispatch_eager_preserves; [apply togglePolicy_books | exact Hb].
  - apply dispatch_eager_preserves; [apply save_ok | exact Hn].
  - apply dispatch_eager_preserves; [apply save_books | exact Hb].
Qed.

(** Every state of a game of the variant, whichever way React takes. *)
Lemma v3_played_inv s : played s -> VInv s.
Proof.
  induction 1 as [d Hd | s c r Hs IH | s c r1 r Hs IH];
    [apply v3_initialState | apply v3_exec_inv, IH | apply v3_exec_eager_inv, IH].
Qed.

(** X14.  The gated variant keeps the bounds of [src/main.tsx] (happiness
    and the player's health in [[0,100]], the enemy's health between 0 and
    the health of the enemy of the fight, strength at most its maximum, a
    population that is not negative), and its gates keep the treasury and
    the strength from going below zero: a payment needs five coins, a fight
    one point of strength. *)
Theorem v3_ledger_invariant s :
  played s ->
  0 <= happiness s <= 100 /\
  0 <= phealth s <= 100 /\
  0 <= ehealth s <= enemy_cap (fight s) /\
  enemy_cap (fight s) <= 300 /\
  0 <= strength s <= maxstrength s /\
  0 <= people s /\
  0 <= money s.
Proof.
  intros Hs. destruct (v3_played_inv s Hs) as [Hn Hb].
  destruct Hn as (Hh & Hp & He & Hk & Hi & Hst & _ & Hpe & _).
  destruct Hb as (_ & _ & _ & _ & _ & Hm & Hs0 & _).
  assert (Hcap : enemy_cap (fight s) <= 300).
  { unfold enemy_cap. destruct (cfg (fight s)) as [c|] eqn:Ec; [|lia].
    destruct (Hk c Ec) as [[] ->]; simpl; lia. }
  repeat match goal with |- _ /\ _ => split end; try assumption; lia.
Qed.

Lemma v3_ledger_invariant_witness :
  0 <= money (exec Main.Pay (initialState 100) []).
Proof.
  apply (v3_ledger_invariant (exec Main.Pay (initialState 100) [])).
  apply played_queued, played_init. lia.
Defined.



(** X16.  With no strength left the gated variant refuses to act: Tax and
    Pay do nothing at all, Expand and a fight only log why; none of them
    draws a number. *)
Theorem v3_exhausted s r :
  strength s < 1 ->
  dispatch command_tax s r = (s, r) /\
  dispatch command_pay s r = (s, r) /\
  (exists text, dispatch command_expand s r = (appendLog_upd text muted s, r)) /\
  (forall diff,
     dispatch (startFight diff) s r =
       (appendLog_upd "Too exhausted to fight. Sleep to restore strength." muted s, r)).
Proof.
  intros Hs.
  assert (E : (strength s >=? 1) = false)
    by (destruct (Z.geb_spec (strength s) 1); [lia | reflexivity]).
  unfold dispatch, command_tax, command_pay, command_expand, startFight,
    can_tax, can_pay, can_expand, can_fight.
  rewrite E, !andb_false_r. cbn [negb].
  split; [reflexivity|]. split; [reflexivity|].
  split; [eexists; reflexivity | intros diff; reflexivity].
Qed.

Lemma v3_exhausted_witness :
  dispatch command_tax (with_strength 0 (initialState 100)) [4; 30] =
  (with_strength 0 (initialState 100), [4; 30]).
Proof.
  apply (v3_exhausted (with_strength 0 (initialState 100)) [4; 30]). simpl. lia.
Defined.

End V3Reachable.

(** ** The last expansion of [src/main.tsx] *)

Section LastExpansion.
Import Main.

(** X17.  [command_expand] refuses only from the count 6 on, while the eras
    end at the count 5: in the Modern Age one more expansion is paid for,
    doubles the price and the room for people and leaves the era as it is;
    after it every expansion is refused, with a log line only. *)
Theorem expand_at_last_era s r r' :
  number s = 5 -> exmoney s <= money s ->
  let s1 := exec Expand s r in
  number s1 = 6 /\
  currentEra s1 = currentEra s /\
  money s1 = money s - exmoney s /\
  exmoney s1 = exmoney s * 2 /\
  maxpeople s1 = maxpeople s * 2 /\
  exec Expand s1 r' = appendLog_upd "You are already at the top Age." muted s1.
Proof.
  intros Hn Hm s1.
  assert (E1 : s1 = appendLog_upd
                      (cat ["You advanced to "; currentEra s; ". Max population is now ";
                            show (maxpeople s * 2); "."]) good
                      (with_strength (Z.max 0 (strength s - 1))
                        (with_maxstrength (Z.max (maxstrength s) 4)
                          (with_currentEra (currentEra s)
                            (with_number 6
                              (with_maxpeople (maxpeople s * 2)
                                (with_exmoney (exmoney s * 2)
                                  (with_money (money s - exmoney s) s)))))))).
  { subst s1. unfold exec, dispatch. cbn [handler]. unfold command_expand.
    rewrite Hn. cbn [Z.geb Z.compare Pos.compare Pos.compare_cont].
    assert (E : (money s <? exmoney s) = false) by (apply Z.ltb_ge; exact Hm).
    rewrite E. unfold expand_updater. eval_queue. rewrite Hn. reflexivity. }
  clearbody s1. subst s1.
  do 5 (split; [reflexivity|]).
  unfold exec, dispatch. cbn [handler]. unfold command_expand. reflexivity.
Qed.

Lemma expand_at_last_era_witness :
  number (exec Expand (run (repeat (Expand, None, []) 6) (initialState 100)) []) = 6 /\
  currentEra (exec Expand (run (repeat (Expand, None, []) 6) (initialState 100)) []) =
  currentEra (run (repeat (Expand, None, []) 6) (initialState 100)).
Proof.
  assert (Hn : number (run (repeat (Expand, None, []) 6) (initialState 100)) = 5)
    by (vm_compute; reflexivity).
  assert (Hm : exmoney (run (repeat (Expand, None, []) 6) (initialState 100))
               <= money (run (repeat (Expand, None, []) 6) (initialState 100)))
    by (vm_compute; discriminate).
  destruct (expand_at_last_era _ [] [] Hn Hm) as (H1 & H2 & _).
  split; [exact H1 | exact H2].
Defined.

End LastExpansion.

Lemma one_merchant_weapon_per_era_witness :
  exists n e v price,
    pendingMerchant
      (fst (dispatch merchant_event
              (with_merchant_weapon_log [("Stone Age", true)] (Main.initialState 100)) [0; 0]))
    = Some (UniqueOffer n e v price).
Proof.
  destruct (one_merchant_weapon_per_era
              (with_merchant_weapon_log [("Stone Age", true)] (Main.initialState 100)) [0; 0])
    as (_ & H).
  apply H. reflexivity.
Defined.
